(** * Watchlist reconciliation and RSS change detection

    A shallow embedding of the reconciliation engine of the watchlist
    synchroniser: [src/services/plex-watchlist.service.ts] (class
    [PlexWatchlistService]) and [src/plugins/custom/plex-test-service.ts]
    (class [PlexTestingWorkflow]).

    Part I holds the definitions, in the order of the two source files,
    followed by the RSS reader of the service, the start of the workflow
    and the route [GET /generate-rss-feeds]; Part II holds the lemmas and
    the theorems about them.

    Conventions of the embedding:
    - a JavaScript [Map] is an association list in insertion order with
      unique keys (module [JsMap]); a [Set] of strings is the list of its
      members in insertion order (module [JsSet]);
    - an object whose identity is tested carries it ([Obj], [ObjSet]):
      the items of the change queue.  A [Map] keyed by [Friend] objects
      is keyed by their value, the identities of a pass having distinct
      user names; a [Set] of rows is the list of the rows added to it,
      each row being an object of its own;
    - a value that may be [undefined] is an [option];
    - an [async] method is a computation in the monad [M], which threads
      the state of the external collaborators (Plex client, storage,
      progress sink), records every call made to them and every line
      logged, and either returns or throws.  A method runs to its end
      before another starts; only the callback of the queue processor is
      split at its [await], which is what its guard is for;
    - [Promise.all] starts its tasks in the order of the array and
      rejects with the first rejection in that order;
    - [new Date()] reads a logical clock: the [n]-th reading of a run;
    - of the object passed along with a log message only the strings
      that identify the item are kept. *)

From Stdlib Require Import Ascii.
From stdpp Require Import base list strings numbers pretty.

Open Scope Z_scope.

Set Warnings "-clear-no-such-hyp".

(* ================================================================== *)
(** * Part I. Definitions *)
(* ================================================================== *)

(** ** JavaScript values *)

(** The result of a call: a value, or a thrown [Error] with its message. *)
Inductive outcome (A : Type) : Type :=
| Ok (a : A)
| Throw (msg : string).
Arguments Ok {A} a.
Arguments Throw {A} msg.

#[global] Instance outcome_eq_dec {A} `{EqDecision A} : EqDecision (outcome A).
Proof. solve_decision. Defined.

(** A string is falsy exactly when it is empty. *)
Definition truthy (s : string) : bool := negb (String.eqb s "").

(** A number is falsy when it is [0]; so is a missing one. *)
Definition truthy_num (n : option Z) : bool :=
  match n with
  | Some z => negb (z =? 0)
  | None => false
  end.

(** [guids] and [genres] travel in two forms: an array of strings, or
    the JSON text of one (the form the storage layer hands back). *)
Inductive strs : Type :=
| StrArray (l : list string)
| StrText (s : string).

#[global] Instance strs_eq_dec : EqDecision strs.
Proof. solve_decision. Defined.

(** [v || []] on such a field: an array is truthy even when empty, a
    string is falsy when empty, [undefined] is falsy. *)
Definition or_empty (v : option strs) : strs :=
  match v with
  | Some (StrArray l) => StrArray l
  | Some (StrText s) => if truthy s then StrText s else StrArray []
  | None => StrArray []
  end.

(** ** Insertion-ordered maps and sets *)

Module JsMap.
Section Ops.
Context {K V : Type} `{EqDecision K}.

(** [m.get(k)] *)
Fixpoint get (m : list (K * V)) (k : K) : option V :=
  match m with
  | [] => None
  | (k', v) :: m' => if decide (k' = k) then Some v else get m' k
  end.

(** [m.set(k, v)]: an existing key keeps its place, a new one goes last. *)
Fixpoint set (m : list (K * V)) (k : K) (v : V) : list (K * V) :=
  match m with
  | [] => [(k, v)]
  | (k', v') :: m' =>
      if decide (k' = k) then (k, v) :: m' else (k', v') :: set m' k v
  end.

(** [m.has(k)] *)
Definition has (m : list (K * V)) (k : K) : bool :=
  match get m k with
  | Some _ => true
  | None => false
  end.

Definition keys (m : list (K * V)) : list K := m.*1.
Definition values (m : list (K * V)) : list V := m.*2.

End Ops.
End JsMap.

Module JsSet.
Section Ops.
Context {A : Type} `{EqDecision A}.

(** [s.has(x)], also [arr.includes(x)] *)
Definition has (s : list A) (x : A) : bool := bool_decide (x ∈ s).

(** [s.add(x)] *)
Definition add (s : list A) (x : A) : list A :=
  if has s x then s else s ++ [x].

(** [new Set(arr)] *)
Definition of_list (l : list A) : list A := fold_left add l [].

End Ops.
End JsSet.

(** ** [JSON.stringify] on an array of strings *)

Module Json.

Definition dquote : ascii := "034"%char.
Definition bslash : ascii := "092"%char.

Definition hex_digit (n : N) : ascii :=
  ascii_of_N (if (n <? 10)%N then 48 + n else 87 + n)%N.

(** One character of a quoted JSON string: the two-character escapes,
    [\u00xx] for the other control characters, the character itself
    otherwise. *)
Definition escape_char (c : ascii) : string :=
  let n := N_of_ascii c in
  if (n =? 34)%N then String bslash (String dquote "")
  else if (n =? 92)%N then String bslash (String bslash "")
  else if (n =? 8)%N then String bslash "b"
  else if (n =? 12)%N then String bslash "f"
  else if (n =? 10)%N then String bslash "n"
  else if (n =? 13)%N then String bslash "r"
  else if (n =? 9)%N then String bslash "t"
  else if (n <? 32)%N then
    String bslash
      ("u00" +:+ String (hex_digit (n / 16)) (String (hex_digit (n mod 16)) ""))
  else String c "".

Fixpoint escape (s : string) : string :=
  match s with
  | EmptyString => ""
  | String c r => escape_char c +:+ escape r
  end.

Definition quote (s : string) : string :=
  String dquote (escape s +:+ String dquote "").

Fixpoint join (l : list string) : string :=
  match l with
  | [] => ""
  | [s] => quote s
  | s :: rest => quote s +:+ "," +:+ join rest
  end.

Definition stringify_array (l : list string) : string :=
  "[" +:+ join l +:+ "]".

(** [JSON.stringify(v)] for [v : string[] | undefined]. *)
Definition stringify (v : option (list string)) : option string :=
  stringify_array <$> v.

(** The reader used to show that [stringify] loses nothing: it reads a
    quoted string up to its closing quote and returns the rest. *)
Definition unhex (c : ascii) : N :=
  let n := N_of_ascii c in
  if (n <? 58)%N then (n - 48)%N else (n - 87)%N.

Definition cons_result (c : ascii) (r : option (string * string))
  : option (string * string) :=
  match r with
  | Some (t, rest) => Some (String c t, rest)
  | None => None
  end.

Fixpoint unescape (s : string) : option (string * string) :=
  match s with
  | EmptyString => None
  | String c r =>
      if Ascii.eqb c dquote then Some ("", r)
      else if Ascii.eqb c bslash then
        match r with
        | String e r1 =>
            if Ascii.eqb e dquote then cons_result dquote (unescape r1)
            else if Ascii.eqb e bslash then cons_result bslash (unescape r1)
            else if Ascii.eqb e "b" then cons_result "008" (unescape r1)
            else if Ascii.eqb e "f" then cons_result "012" (unescape r1)
            else if Ascii.eqb e "n" then cons_result "010" (unescape r1)
            else if Ascii.eqb e "r" then cons_result "013" (unescape r1)
            else if Ascii.eqb e "t" then cons_result "009" (unescape r1)
            else if Ascii.eqb e "u" then
              match r1 with
              | String _ (String _ (String h (String l r2))) =>
                  cons_result (ascii_of_N (16 * unhex h + unhex l)) (unescape r2)
              | _ => None
              end
            else None
        | EmptyString => None
        end
      else cons_result c (unescape r)
  end.

(** [JSON.parse] on the text that [stringify_array] writes: the quoted
    strings between the brackets, separated by commas. *)
Fixpoint parse_elems (fuel : nat) (s : string) : option (list string) :=
  match fuel, s with
  | S fuel', String c body =>
      if Ascii.eqb c dquote then
        match unescape body with
        | Some (x, String d rest) =>
            if Ascii.eqb d "]" then
              match rest with
              | EmptyString => Some [x]
              | _ => None
              end
            else if Ascii.eqb d "," then cons x <$> parse_elems fuel' rest
            else None
        | _ => None
        end
      else None
  | _, _ => None
  end.

Definition parse_array (s : string) : option (list string) :=
  match s with
  | String c rest =>
      if Ascii.eqb c "[" then
        match rest with
        | String d EmptyString => if Ascii.eqb d "]" then Some [] else None
        | _ => parse_elems (String.length rest) rest
        end
      else None
  | EmptyString => None
  end.

End Json.

(** ** Data model ([types/plex.types]) *)

(** [Friend & { userId: number }]: an identity of a pass. *)
Record Friend : Type := mkFriend {
  watchlistId : string;
  username : string;
  userId : Z;
}.

#[global] Instance Friend_eq_dec : EqDecision Friend.
Proof. solve_decision. Defined.

Inductive Status : Type :=
| pending
| other_status (tag : string).

#[global] Instance Status_eq_dec : EqDecision Status.
Proof. solve_decision. Defined.

(** [Item] (imported by the service as [WatchlistItem]): a stored row.
    The fields the service reads or writes. *)
Module Item.
Record t : Type := mk {
  user_id : option Z;
  title : string;
  key : string;
  type : string;
  thumb : option string;
  guids : option strs;
  genres : option strs;
  status : option Status;
  created_at : option string;
  updated_at : option string;
}.
End Item.

#[global] Instance Item_eq_dec : EqDecision Item.t.
Proof. solve_decision. Defined.

(** [TokenWatchlistItem extends Item { id: string }]: a raw fetched item. *)
Module Token.
Record t : Type := mk {
  id : string;
  item : Item.t;
}.
End Token.

#[global] Instance Token_eq_dec : EqDecision Token.t.
Proof. solve_decision. Defined.

(** ** The Reconciler's categorization *)

Section Reconciler.

(** [new Date().toISOString()] at the [n]-th reading of the clock. *)
Variable toISOString : nat -> string.

(** [mapExistingItemsByKey]: [key -> (user_id -> row)]. *)
Definition mapExistingItemsByKey_step
    (map : list (string * list (Z * Item.t))) (item : Item.t)
  : list (string * list (Z * Item.t)) :=
  match Item.user_id item with
  | Some uid =>
      if negb (truthy (Item.key item)) || negb (truthy_num (Some uid)) then map
      else
        let userMap := default [] (JsMap.get map (Item.key item)) in
        JsMap.set map (Item.key item) (JsMap.set userMap uid item)
  | None => map
  end.

Definition mapExistingItemsByKey (existingItems : list Item.t)
  : list (string * list (Z * Item.t)) :=
  fold_left mapExistingItemsByKey_step existingItems [].

(** [createWatchlistItem]: the row that links [user] to [item], filled
    from [templateItem]; the clock is read twice. *)
Definition createWatchlistItem (now : nat)
    (user : Friend) (item : Token.t) (templateItem : Item.t) : Item.t :=
  {| Item.user_id := Some (userId user);
     Item.title := Item.title templateItem;
     Item.key := Token.id item;
     Item.type := Item.type templateItem;
     Item.thumb := Item.thumb templateItem;
     Item.guids := Some (or_empty (Item.guids templateItem));
     Item.genres := Some (or_empty (Item.genres templateItem));
     Item.status := Some pending;
     Item.created_at := Some (toISOString now);
     Item.updated_at := Some (toISOString (S now)) |}.

(** The accumulators of [separateNewAndExistingItems]: [newItems],
    [itemsToLink], and the number of clock readings so far. *)
Record Separated : Type := mkSeparated {
  newItems : list Token.t;
  itemsToLink : list Item.t;
  readings : nat;
}.

(** One turn of the loop of [separateNewAndExistingItems]. *)
Definition separate_step (user : Friend)
    (existingItemsByKey : list (string * list (Z * Item.t)))
    (acc : Separated) (item : Token.t) : Separated :=
  match JsMap.get existingItemsByKey (Token.id item) with
  | None =>
      mkSeparated (newItems acc ++ [item]) (itemsToLink acc) (readings acc)
  | Some existingItem =>
      if negb (JsSet.has (JsMap.keys existingItem) (userId user)) then
        match head (JsMap.values existingItem) with
        | Some templateItem =>
            if truthy (Item.title templateItem) && truthy (Item.type templateItem)
            then mkSeparated (newItems acc)
                   (itemsToLink acc
                      ++ [createWatchlistItem (readings acc) user item templateItem])
                   (2 + readings acc)
            else acc
        | None => acc
        end
      else acc
  end.

Definition separateNewAndExistingItems (now : nat) (items : list Token.t)
    (user : Friend) (existingItemsByKey : list (string * list (Z * Item.t)))
  : Separated :=
  fold_left (separate_step user existingItemsByKey) items (mkSeparated [] [] now).

(** The accumulators of [categorizeItems]. *)
Record Categorized : Type := mkCategorized {
  brandNewItems : list (Friend * list Token.t);
  existingItemsToLink : list (Friend * list Item.t);
  clock : nat;
}.

Definition categorize_step
    (existingItemsByKey : list (string * list (Z * Item.t)))
    (acc : Categorized) (entry : Friend * list Token.t) : Categorized :=
  let '(user, items) := entry in
  let r := separateNewAndExistingItems (clock acc) items user existingItemsByKey in
  mkCategorized
    (if 0 <? Z.of_nat (length (newItems r))
     then brandNewItems acc ++ [(user, newItems r)] else brandNewItems acc)
    (if 0 <? Z.of_nat (length (itemsToLink r))
     then existingItemsToLink acc ++ [(user, itemsToLink r)]
     else existingItemsToLink acc)
    (readings r).

(** [categorizeItems] *)
Definition categorizeItems (now : nat)
    (userWatchlistMap : list (Friend * list Token.t))
    (existingItems : list Item.t) : Categorized :=
  let existingItemsByKey := mapExistingItemsByKey existingItems in
  fold_left (categorize_step existingItemsByKey) userWatchlistMap
    (mkCategorized [] [] now).

End Reconciler.

(** The template that the loop of [separateNewAndExistingItems] links an
    item from, when it links it. *)
Definition link_template (user : Friend)
    (existingItemsByKey : list (string * list (Z * Item.t)))
    (item : Token.t) : option Item.t :=
  match JsMap.get existingItemsByKey (Token.id item) with
  | Some existingItem =>
      if negb (JsSet.has (JsMap.keys existingItem) (userId user)) then
        match head (JsMap.values existingItem) with
        | Some templateItem =>
            if truthy (Item.title templateItem) && truthy (Item.type templateItem)
            then Some templateItem else None
        | None => None
        end
      else None
  | None => None
  end.

(** The rows that [mapExistingItemsByKey] keeps: those with a key and a
    user id. *)
Definition row_ok (r : Item.t) : bool :=
  truthy (Item.key r) && truthy_num (Item.user_id r).


(** ** Collaborators and effects *)

Inductive Source : Type := self | friends.

Inductive LogLevel : Type := debug | info | warn | error.

(** A friend as the Plex client lists it, before it has a user id. *)
Record PlexFriend : Type := mkPlexFriend {
  friend_watchlistId : string;
  friend_username : string;
}.

(** A row of the users table. *)
Module User.
Record t : Type := mk {
  id : option Z;
  name : string;
}.
End User.

(** A row of the pending RSS items table, as [getTempRssItems] returns it. *)
Module Pending.
Record t : Type := mk {
  id : Z;
  title : string;
  type : string;
  guids : list string;
}.
End Pending.

(** A row handed to [createTempRssItems]. *)
Module TempRow.
Record t : Type := mk {
  title : string;
  type : string;
  thumb : option string;
  guids : list string;
  genres : option (list string);
  source : Source;
}.
End TempRow.

(** [TemptRssWatchlistItem]: a change seen in an RSS feed. *)
Module Tempt.
Record t : Type := mk {
  title : string;
  type : string;
  thumb : option string;
  guids : option (list string);
  genres : option (list string);
  key : option string;
}.
End Tempt.

#[global] Instance Tempt_eq_dec : EqDecision Tempt.t.
Proof. solve_decision. Defined.

(** The argument of [progress.emit]. *)
Record ProgressEvent : Type := mkProgressEvent {
  operationId : string;
  progress_type : string;
  phase : string;
  progress : Z;
  message : string;
}.

(** What [processWatchlistItems] resolves to: the Reconciler checks it
    with [instanceof Map]. *)
Inductive Processed : Type :=
| IsMap (m : list (Friend * list Item.t))
| NotMap.

(** A call made to a collaborator, or a line written to the log (the
    message, and the strings of the object logged with it when the model
    keeps them). *)
Inductive Event : Type :=
| CallPingPlex (token : string)
| CallFetchSelfWatchlist (token : string) (uid : Z)
| CallGetFriends
| CallGetOthersWatchlist (friendsWithIds : list (Friend * string))
| CallProcessWatchlistItems (brandNew : list (Friend * list Token.t))
    (progressInfo : option (string * string))
| CallGetPlexWatchlistUrls (tokens : list string) (skipFriendSync : bool)
| DbGetUser (name : string)
| DbCreateUser (name email : string)
| DbGetBulkWatchlistItems (userIds : list Z) (keys : list string)
| DbCreateWatchlistItems (items : list Item.t) (onConflictMerge : bool)
| DbSyncGenresFromWatchlist
| DbDeleteWatchlistItems (uid : Z) (keys : list string)
| DbGetAllWatchlistItemsForUser (uid : Z)
| DbCreateTempRssItems (items : list TempRow.t)
| DbGetTempRssItems (source : Source)
| DbDeleteTempRssItems (ids : list Z)
| DbUpdateConfig (selfRss friendsRss : string)
| ProgressHasActiveConnections
| ProgressEmit (e : ProgressEvent)
| Log (level : LogLevel) (msg : string) (meta : list string).

(** The collaborators of the service over a world [W]: the Plex client
    ([@utils/plex]), the storage service ([dbService]), the progress sink
    ([fastify.progress]) and the JavaScript runtime.  A call transforms
    the world and resolves or rejects. *)
Record Collab (W : Type) : Type := mkCollab {
  ext_pingPlex : string -> W -> outcome bool * W;
  ext_fetchSelfWatchlist : string -> Z -> W -> outcome (list Token.t) * W;
  ext_getFriends : W -> outcome (list (PlexFriend * string)) * W;
  ext_getOthersWatchlist :
    list (Friend * string) -> W -> outcome (list (Friend * list Token.t)) * W;
  ext_processWatchlistItems :
    list (Friend * list Token.t) -> option (string * string) -> W ->
    outcome Processed * W;
  ext_getPlexWatchlistUrls : list string -> bool -> W -> outcome (list string) * W;
  db_getUser : string -> W -> outcome (option User.t) * W;
  db_createUser : string -> string -> W -> outcome User.t * W;
  db_getBulkWatchlistItems : list Z -> list string -> W -> outcome (list Item.t) * W;
  db_createWatchlistItems : list Item.t -> bool -> W -> outcome unit * W;
  db_syncGenresFromWatchlist : W -> outcome unit * W;
  db_deleteWatchlistItems : Z -> list string -> W -> outcome unit * W;
  db_getAllWatchlistItemsForUser : Z -> W -> outcome (list Item.t) * W;
  db_createTempRssItems : list TempRow.t -> W -> outcome unit * W;
  db_getTempRssItems : Source -> W -> outcome (list Pending.t) * W;
  db_deleteTempRssItems : list Z -> W -> outcome unit * W;
  db_updateConfig : string -> string -> W -> outcome unit * W;
  progress_hasActiveConnections : W -> bool * W;
  progress_emit : ProgressEvent -> W -> W;
  (** [Date.now()] and [new Date().toISOString()] at the n-th reading. *)
  Date_now : nat -> Z;
  Date_toISOString : nat -> string;
  (** [JSON.parse] on the stored text of a string array. *)
  JSON_parse : string -> outcome (list string);
}.
Arguments ext_pingPlex {W}.
Arguments ext_fetchSelfWatchlist {W}.
Arguments ext_getFriends {W}.
Arguments ext_getOthersWatchlist {W}.
Arguments ext_processWatchlistItems {W}.
Arguments ext_getPlexWatchlistUrls {W}.
Arguments db_getUser {W}.
Arguments db_createUser {W}.
Arguments db_getBulkWatchlistItems {W}.
Arguments db_createWatchlistItems {W}.
Arguments db_syncGenresFromWatchlist {W}.
Arguments db_deleteWatchlistItems {W}.
Arguments db_getAllWatchlistItemsForUser {W}.
Arguments db_createTempRssItems {W}.
Arguments db_getTempRssItems {W}.
Arguments db_deleteTempRssItems {W}.
Arguments db_updateConfig {W}.
Arguments progress_hasActiveConnections {W}.
Arguments progress_emit {W}.
Arguments Date_now {W}.
Arguments Date_toISOString {W}.
Arguments JSON_parse {W}.

(** The state a computation threads: the world of the collaborators,
    the number of clock readings made so far, and the number of objects
    whose identity matters that were created so far. *)
Record State (W : Type) : Type := mkState {
  world : W;
  tick : nat;
  heap : nat;
}.
Arguments mkState {W}.
Arguments world {W}.
Arguments tick {W}.
Arguments heap {W}.

(** What a computation leaves: its outcome, the final state, and the
    events it produced, oldest first. *)
Record Result (W A : Type) : Type := mkResult {
  out : outcome A;
  final : State W;
  events : list Event;
}.
Arguments mkResult {W A}.
Arguments out {W A}.
Arguments final {W A}.
Arguments events {W A}.

Definition M (W A : Type) : Type := State W -> Result W A.

Section Monad.
Context {W : Type}.

Definition ret {A} (a : A) : M W A := fun s => mkResult (Ok a) s [].

Definition throw {A} (msg : string) : M W A := fun s => mkResult (Throw msg) s [].

Definition bind {A B} (m : M W A) (k : A -> M W B) : M W B :=
  fun s =>
    let r := m s in
    match out r with
    | Ok a =>
        let r' := k a (final r) in
        mkResult (out r') (final r') (events r ++ events r')
    | Throw msg => mkResult (Throw msg) (final r) (events r)
    end.

(** [try { m } catch (e) { h e }] *)
Definition try_catch {A} (m : M W A) (h : string -> M W A) : M W A :=
  fun s =>
    let r := m s in
    match out r with
    | Ok a => r
    | Throw msg =>
        let r' := h msg (final r) in
        mkResult (out r') (final r') (events r ++ events r')
    end.

(** The settled outcome of [m], as a value. *)
Definition attempt {A} (m : M W A) : M W (outcome A) :=
  fun s => let r := m s in mkResult (Ok (out r)) (final r) (events r).

(** A call to a collaborator. *)
Definition call {A} (e : Event) (op : W -> outcome A * W) : M W A :=
  fun s =>
    let '(o, w) := op (world s) in
    mkResult o (mkState w (tick s) (heap s)) [e].

Definition log_with (level : LogLevel) (msg : string) (meta : list string)
  : M W unit :=
  fun s => mkResult (Ok tt) s [Log level msg meta].

Definition log (level : LogLevel) (msg : string) : M W unit :=
  log_with level msg [].

(** One reading of the clock. *)
Definition read_clock : M W nat :=
  fun s => mkResult (Ok (tick s)) (mkState (world s) (S (tick s)) (heap s)) [].

(** The identity of a newly created object. *)
Definition alloc : M W nat :=
  fun s => mkResult (Ok (heap s)) (mkState (world s) (tick s) (S (heap s))) [].

(** [Promise.all(tasks)]: every task is started, in order; the result is
    the list of their values, or the first rejection in that order. *)
Fixpoint run_all {A} (tasks : list (M W A)) : M W (list (outcome A)) :=
  match tasks with
  | [] => ret []
  | t :: rest =>
      bind (attempt t) (fun o =>
      bind (run_all rest) (fun os => ret (o :: os)))
  end.

Fixpoint first_rejection {A} (os : list (outcome A)) : outcome (list A) :=
  match os with
  | [] => Ok []
  | Throw msg :: _ => Throw msg
  | Ok a :: rest =>
      match first_rejection rest with
      | Ok l => Ok (a :: l)
      | Throw msg => Throw msg
      end
  end.

Definition Promise_all {A} (tasks : list (M W A)) : M W (list A) :=
  bind (run_all tasks) (fun os =>
    match first_rejection os with
    | Ok l => ret l
    | Throw msg => throw msg
    end).

(** [for (const x of l) { body x }] *)
Fixpoint for_each {A} (l : list A) (body : A -> M W unit) : M W unit :=
  match l with
  | [] => ret tt
  | x :: rest => bind (body x) (fun _ => for_each rest body)
  end.

End Monad.

Notation "x <- m ;; k" := (bind m (fun x => k))
  (at level 100, m at next level, right associativity, only parsing).
Notation "m ;;; k" := (bind m (fun _ => k))
  (at level 100, right associativity, only parsing).

(** ** [PlexWatchlistService] *)

(** The configuration the service reads. *)
Record Config : Type := mkConfig {
  plexTokens : list string;
  skipFriendSync : option bool;
}.

(** [RssFeedsResponse]: the feed URLs, or an error value. *)
Inductive RssFeedsResponse : Type :=
| RssError (error : string)
| RssFeeds (self_url friends_url : string).

(** An item as [formatWatchlistItem] shows it. *)
Module View.
Record t : Type := mk {
  title : string;
  plexKey : string;
  type : string;
  thumb : string;
  guids : list string;
  genres : list string;
  status : Status;
}.
End View.

Record WatchlistGroup : Type := mkWatchlistGroup {
  group_user : Friend;
  watchlist : list View.t;
}.

Record Response : Type := mkResponse {
  total : Z;
  users : list WatchlistGroup;
}.

(** [a.length] as a JavaScript number. *)
Definition len {A} (l : list A) : Z := Z.of_nat (length l).

Section Service.
Context {W : Type} (C : Collab W) (config : Config).

(** [pingPlex] *)
Definition pingPlex : M W bool :=
  let tokens := plexTokens config in
  if len tokens =? 0 then throw "No Plex tokens configured"
  else
    results <- Promise_all
      (map (fun token => call (CallPingPlex token) (ext_pingPlex C token)) tokens) ;;
    ret (forallb (fun result => Bool.eqb result true) results).

(** The body shared by [ensureTokenUsers] and [ensureFriendUsers]: look
    the user up, create it when missing, and insist on an id. *)
Definition ensureUser (username : string) : M W Z :=
  found <- call (DbGetUser username) (db_getUser C username) ;;
  user <- match found with
          | Some u => ret u
          | None =>
              call (DbCreateUser username (username +:+ "@placeholder.com"))
                (db_createUser C username (username +:+ "@placeholder.com"))
          end ;;
  if truthy_num (User.id user)
  then ret (default 0 (User.id user))
  else throw ("No ID for user " +:+ username).

Definition set_all {K V} `{EqDecision K} (entries : list (K * V)) : list (K * V) :=
  fold_left (fun m e => JsMap.set m e.1 e.2) entries [].

(** [ensureTokenUsers] *)
Definition ensureTokenUsers : M W (list (string * Z)) :=
  entries <- Promise_all
    (imap (fun index _ =>
             let username := "token" +:+ pretty (S index) in
             uid <- ensureUser username ;;
             ret (username, uid))
          (plexTokens config)) ;;
  ret (set_all entries).

(** [ensureFriendUsers] *)
Definition ensureFriendUsers (friendList : list (PlexFriend * string))
  : M W (list (string * Z)) :=
  entries <- Promise_all
    (map (fun entry =>
            uid <- ensureUser (friend_username entry.1) ;;
            ret (friend_watchlistId entry.1, uid))
         friendList) ;;
  ret (set_all entries).

(** One turn of the inner loop of [extractKeysAndRelationships]. *)
Definition extractKeys_item (uid : Z) (acc : list string * list string)
    (item : Token.t) : M W (list string * list string) :=
  if truthy (Token.id item)
  then ret (JsSet.add acc.1 (Token.id item), JsSet.add acc.2 (Token.id item))
  else
    log warn ("Encountered item with null/undefined id for user " +:+ pretty uid) ;;;
    ret acc.

Fixpoint foldM {A B} (f : A -> B -> M W A) (l : list B) (a : A) : M W A :=
  match l with
  | [] => ret a
  | x :: rest => a' <- f a x ;; foldM f rest a'
  end.

(** [extractKeysAndRelationships]: [allKeys] and [userKeyMap].  The map
    is keyed by the id itself: the source keys it by [String(userId)]
    and reads the keys back with [Number]. *)
Definition extractKeysAndRelationships
    (userWatchlistMap : list (Friend * list Token.t))
  : M W (list string * list (Z * list string)) :=
  r <- foldM
    (fun (acc : list string * list (Z * list string)) (entry : Friend * list Token.t) =>
       ks <- foldM (extractKeys_item (userId entry.1)) entry.2 (acc.1, []) ;;
       ret (ks.1,
            if 0 <? len ks.2 then JsMap.set acc.2 (userId entry.1) ks.2 else acc.2))
    userWatchlistMap ([], []) ;;
  log info ("Collected " +:+ pretty (len r.2) +:+ " users and "
            +:+ pretty (len r.1) +:+ " unique keys") ;;;
  ret r.

(** [getExistingItems] *)
Definition getExistingItems (userKeyMap : list (Z * list string))
    (allKeys : list string) : M W (list Item.t) :=
  let keys := allKeys in
  let userIds := JsMap.keys userKeyMap in
  existingItems <- call (DbGetBulkWatchlistItems userIds keys)
                     (db_getBulkWatchlistItems C userIds keys) ;;
  log info ("Found " +:+ pretty (len existingItems) +:+ " existing items in database") ;;;
  ret existingItems.

(** [categorizeItems], reading the clock of the run. *)
Definition categorize (userWatchlistMap : list (Friend * list Token.t))
    (existingItems : list Item.t) : M W Categorized :=
  fun s =>
    let c := categorizeItems (Date_toISOString C) (tick s) userWatchlistMap existingItems in
    mkResult (Ok c) (mkState (world s) (clock c) (heap s)) [].

(** [prepareItemsForInsertion]: one row per processed item, stamped with
    two readings of the clock. *)
Definition prepare_item (user : Friend) (acc : list Item.t * nat) (item : Item.t)
  : list Item.t * nat :=
  (acc.1 ++ [ {| Item.user_id := Some (userId user);
                 Item.title := Item.title item;
                 Item.key := Item.key item;
                 Item.type := Item.type item;
                 Item.thumb := Item.thumb item;
                 Item.guids := Some (or_empty (Item.guids item));
                 Item.genres := Some (or_empty (Item.genres item));
                 Item.status := Some pending;
                 Item.created_at := Some (Date_toISOString C acc.2);
                 Item.updated_at := Some (Date_toISOString C (S acc.2)) |} ],
   (2 + acc.2)%nat).

Definition prepareItemsForInsertion (now : nat)
    (processedItems : list (Friend * list Item.t)) : list Item.t * nat :=
  fold_left (fun acc entry => fold_left (prepare_item entry.1) entry.2 acc)
    processedItems ([], now).

(** [prepareItemsForInsertion], reading the clock of the run. *)
Definition prepare (processedItems : list (Friend * list Item.t))
  : M W (list Item.t) :=
  fun s =>
    let r := prepareItemsForInsertion (tick s) processedItems in
    mkResult (Ok r.1) (mkState (world s) r.2 (heap s)) [].

Definition emit (e : ProgressEvent) : M W unit :=
  call (ProgressEmit e) (fun w => (Ok tt, progress_emit C e w)).

Definition when (b : bool) (m : M W unit) : M W unit := if b then m else ret tt.

(** [processAndSaveNewItems] *)
Definition processAndSaveNewItems (brandNew : list (Friend * list Token.t))
  : M W (list (Friend * list Item.t)) :=
  match brandNew with
  | [] => ret []
  | (firstUser, _) :: _ =>
      log debug ("Processing " +:+ pretty (len brandNew) +:+ " new items") ;;;
      t <- read_clock ;;
      let operationId := "process-" +:+ pretty (Date_now C t) in
      emitProgress <- call ProgressHasActiveConnections
        (fun w => let '(b, w') := progress_hasActiveConnections C w in (Ok b, w')) ;;
      let type := if String.prefix "token" (username firstUser)
                  then "self-watchlist" else "others-watchlist" in
      when emitProgress
        (emit (mkProgressEvent operationId type "start" 0
           ("Starting " +:+ (if String.eqb type "self-watchlist" then "self" else "others")
            +:+ " watchlist processing"))) ;;;
      let progressInfo := if emitProgress then Some (operationId, type) else None in
      processedItems <- call (CallProcessWatchlistItems brandNew progressInfo)
                          (ext_processWatchlistItems C brandNew progressInfo) ;;
      match processedItems with
      | IsMap processed =>
          itemsToInsert <- prepare processed ;;
          (if 0 <? len itemsToInsert then
             when emitProgress
               (emit (mkProgressEvent operationId type "saving" 95
                  ("Saving " +:+ pretty (len itemsToInsert) +:+ " items to database"))) ;;;
             call (DbCreateWatchlistItems itemsToInsert false)
               (db_createWatchlistItems C itemsToInsert false) ;;;
             call DbSyncGenresFromWatchlist (db_syncGenresFromWatchlist C) ;;;
             log info ("Processed " +:+ pretty (len itemsToInsert) +:+ " new items") ;;;
             when emitProgress
               (emit (mkProgressEvent operationId type "complete" 100
                  "All items processed and saved"))
           else ret tt) ;;;
          ret processed
      | NotMap =>
          throw "Expected Map<Friend, Set<WatchlistItem>> from processWatchlistItems"
      end
  end.

(** The effects that [processAndSaveNewItems] reserves for a non-empty
    insertion: the write, the genre resync, and the [saving] and
    [complete] progress events. *)
Definition is_save_event (e : Event) : Prop :=
  match e with
  | DbCreateWatchlistItems _ _ => True
  | DbSyncGenresFromWatchlist => True
  | ProgressEmit p => phase p = "saving" \/ phase p = "complete"
  | _ => False
  end.

(** [linkExistingItems] *)
Definition linkExistingItems (toLink : list (Friend * list Item.t)) : M W unit :=
  let linkItems := concat (JsMap.values toLink) in
  if 0 <? len linkItems then
    call (DbCreateWatchlistItems linkItems true)
      (db_createWatchlistItems C linkItems true) ;;;
    call DbSyncGenresFromWatchlist (db_syncGenresFromWatchlist C) ;;;
    log info ("Linked " +:+ pretty (len linkItems) +:+ " existing items to new users")
  else ret tt.

(** [formatWatchlistItem]: [guids] and [genres] are read from either
    stored form; [JSON.parse] may throw. *)
Definition decode_or_empty (v : option strs) : outcome (list string) :=
  match v with
  | Some (StrText s) => JSON_parse C s
  | Some (StrArray l) => Ok l
  | None => Ok []
  end.

Definition formatWatchlistItem (item : Item.t) : outcome View.t :=
  match decode_or_empty (Item.guids item) with
  | Throw msg => Throw msg
  | Ok g =>
      match decode_or_empty (Item.genres item) with
      | Throw msg => Throw msg
      | Ok gs =>
          Ok {| View.title := Item.title item;
                View.plexKey := Item.key item;
                View.type := Item.type item;
                View.thumb := default "" (Item.thumb item);
                View.guids := g;
                View.genres := gs;
                View.status := pending |}
      end
  end.

(** [items.map(this.formatWatchlistItem)] *)
Definition format_all (items : list Item.t) : outcome (list View.t) :=
  first_rejection (map formatWatchlistItem items).

Definition formatExistingItems (existingItems : list Item.t) (user : Friend)
  : outcome (list View.t) :=
  format_all
    (filter (fun item => Item.user_id item = Some (userId user)) existingItems).

(** [formatLinkedItems] and [formatProcessedItems]: the entry of [user],
    formatted.  The source looks the entry up by the identity of the
    [Friend] object; identities of a pass differ in value. *)
Definition formatEntryOf (m : list (Friend * list Item.t)) (user : Friend)
  : outcome (list View.t) :=
  match JsMap.get m user with
  | Some items => format_all items
  | None => Ok []
  end.

Definition calculateTotal (existingItems : list Item.t)
    (toLink processedItems : list (Friend * list Item.t)) : Z :=
  let linkItemsCount := fold_left (fun acc items => acc + len items) (JsMap.values toLink) 0 in
  let processedItemsCount :=
    fold_left (fun acc items => acc + len items) (JsMap.values processedItems) 0 in
  len existingItems + linkItemsCount + processedItemsCount.

Definition buildUserWatchlist (existingItems : list Item.t)
    (toLink processedItems : list (Friend * list Item.t)) (user : Friend)
  : outcome WatchlistGroup :=
  match formatExistingItems existingItems user with
  | Throw msg => Throw msg
  | Ok a =>
      match formatEntryOf toLink user with
      | Throw msg => Throw msg
      | Ok b =>
          match formatEntryOf processedItems user with
          | Throw msg => Throw msg
          | Ok c => Ok (mkWatchlistGroup user (a ++ b ++ c))
          end
      end
  end.

(** [buildResponse] *)
Definition buildResponse (userWatchlistMap : list (Friend * list Token.t))
    (existingItems : list Item.t)
    (toLink processedItems : list (Friend * list Item.t)) : outcome Response :=
  let n := calculateTotal existingItems toLink processedItems in
  match first_rejection
          (map (buildUserWatchlist existingItems toLink processedItems)
               (JsMap.keys userWatchlistMap)) with
  | Throw msg => Throw msg
  | Ok groups => Ok (mkResponse n groups)
  end.

Definition lift {A} (o : outcome A) : M W A :=
  match o with
  | Ok a => ret a
  | Throw msg => throw msg
  end.

(** [storeRssWatchlistItems] *)
Definition storeRssWatchlistItems (items : list Tempt.t) (source : Source)
  : M W unit :=
  let formattedItems :=
    map (fun item =>
           {| TempRow.title := Tempt.title item;
              TempRow.type := Tempt.type item;
              TempRow.thumb :=
                if truthy (default "" (Tempt.thumb item)) then Tempt.thumb item else None;
              TempRow.guids := default [] (Tempt.guids item);
              TempRow.genres := Tempt.genres item;
              TempRow.source := source |})
        items in
  if 0 <? len formattedItems then
    call (DbCreateTempRssItems formattedItems) (db_createTempRssItems C formattedItems) ;;;
    call DbSyncGenresFromWatchlist (db_syncGenresFromWatchlist C) ;;;
    log info ("Stored " +:+ pretty (len formattedItems) +:+ " RSS items for "
              +:+ (match source with self => "self" | friends => "friends" end))
  else ret tt.

(** *** The Pending-Item Matcher *)

(** [typeof item.guids === 'string' ? JSON.parse(item.guids) : item.guids] *)
Definition itemGuids (item : Item.t) : outcome (option (list string)) :=
  match Item.guids item with
  | Some (StrText s) =>
      match JSON_parse C s with
      | Ok l => Ok (Some l)
      | Throw msg => Throw msg
      end
  | Some (StrArray l) => Ok (Some l)
  | None => Ok None
  end.

(** [pendingGuids.some((guid) => itemGuids.includes(guid))]: with no
    pending guid the callback never runs; otherwise [includes] is read
    off [itemGuids], which throws when that is [undefined]. *)
Definition some_includes (pendingGuids : list string)
    (guids : option (list string)) : outcome bool :=
  match pendingGuids, guids with
  | [], _ => Ok false
  | _ :: _, None => Throw "Cannot read properties of undefined (reading 'includes')"
  | _ :: _, Some l => Ok (existsb (fun guid => JsSet.has l guid) pendingGuids)
  end.

(** The inner loop: the items of one identity, up to the first match. *)
Fixpoint scan_items (pendingGuids : list string) (items : list Item.t)
  : outcome bool :=
  match items with
  | [] => Ok false
  | item :: rest =>
      match itemGuids item with
      | Throw msg => Throw msg
      | Ok g =>
          match some_includes pendingGuids g with
          | Throw msg => Throw msg
          | Ok true => Ok true
          | Ok false => scan_items pendingGuids rest
          end
      end
  end.

(** The middle loop: the identities, up to the first match. *)
Fixpoint scan_users (pendingGuids : list string)
    (userWatchlistMap : list (Friend * list Item.t)) : outcome bool :=
  match userWatchlistMap with
  | [] => Ok false
  | (_, items) :: rest =>
      match scan_items pendingGuids items with
      | Throw msg => Throw msg
      | Ok true => Ok true
      | Ok false => scan_users pendingGuids rest
      end
  end.

(** The counters and the list of matched ids of the outer loop. *)
Record Matching : Type := mkMatching {
  matchCount : Z;
  noMatchCount : Z;
  matchedItemIds : list Z;
}.

Definition match_pending (noMatch : string -> string)
    (userWatchlistMap : list (Friend * list Item.t))
    (acc : Matching) (pendingItem : Pending.t) : M W Matching :=
  foundMatch <- lift (scan_users (Pending.guids pendingItem) userWatchlistMap) ;;
  if foundMatch
  then ret (mkMatching (matchCount acc + 1) (noMatchCount acc)
              (matchedItemIds acc ++ [Pending.id pendingItem]))
  else
    log warn (noMatch (Pending.title pendingItem)) ;;;
    ret (mkMatching (matchCount acc) (noMatchCount acc + 1) (matchedItemIds acc)).

Definition in_quotes (s : string) : string :=
  String Json.dquote (s +:+ String Json.dquote "").

(** The body shared by the two matchers, which differ in the source
    they load and in the text they log. *)
Definition matchRssPendingItems (source : Source)
    (found noMatch : string -> string) (complete : string)
    (userWatchlistMap : list (Friend * list Item.t)) : M W unit :=
  pendingItems <- call (DbGetTempRssItems source) (db_getTempRssItems C source) ;;
  log info (found (pretty (len pendingItems))) ;;;
  r <- foldM (match_pending noMatch userWatchlistMap) pendingItems
         (mkMatching 0 0 []) ;;
  (if 0 <? len (matchedItemIds r)
   then call (DbDeleteTempRssItems (matchedItemIds r))
          (db_deleteTempRssItems C (matchedItemIds r))
   else ret tt) ;;;
  log info complete.

(** [matchRssPendingItemsSelf] *)
Definition matchRssPendingItemsSelf
    (userWatchlistMap : list (Friend * list Item.t)) : M W unit :=
  matchRssPendingItems self
    (fun n => "Found " +:+ n +:+ " pending RSS items to match during self sync")
    (fun title => "No match found for self RSS item " +:+ in_quotes title)
    "Self RSS matching complete"
    userWatchlistMap.

(** [matchRssPendingItemsFriends] *)
Definition matchRssPendingItemsFriends
    (userWatchlistMap : list (Friend * list Item.t)) : M W unit :=
  matchRssPendingItems friends
    (fun n => "Found " +:+ n +:+ " pending RSS items to match during friend sync")
    (fun title => "No matches found for friend RSS item " +:+ in_quotes title)
    "Friend RSS matching complete"
    userWatchlistMap.

(** A candidate whose guids are an array, in either stored form. *)
Definition decodes (item : Item.t) : Prop :=
  exists g, itemGuids item = Ok (Some g).

(** A guid of the pending item occurs in the candidate's guid array. *)
Definition guid_match (pendingGuids : list string) (item : Item.t) : Prop :=
  exists g guid, itemGuids item = Ok (Some g)
                 /\ guid ∈ pendingGuids /\ guid ∈ g.

(** Some item of the reconciliation result matches the pending item. *)
Definition matched (userWatchlistMap : list (Friend * list Item.t))
    (p : Pending.t) : Prop :=
  exists u items item, (u, items) ∈ userWatchlistMap /\ item ∈ items
                       /\ guid_match (Pending.guids p) item.

Definition is_log (e : Event) : Prop :=
  match e with
  | Log _ _ _ => True
  | _ => False
  end.

(** The matcher of a source. *)
Definition matcher_of (source : Source)
  : list (Friend * list Item.t) -> M W unit :=
  match source with
  | self => matchRssPendingItemsSelf
  | friends => matchRssPendingItemsFriends
  end.

(** *** The Removal Detector *)

(** [handleRemovedItems] *)
Definition handleRemovedItems (uid : Z) (currentKeys fetchedKeys : list string)
  : M W unit :=
  let removedKeys := filter (fun key => JsSet.has fetchedKeys key = false) currentKeys in
  if 0 <? len removedKeys then
    log info ("Detected " +:+ pretty (len removedKeys)
              +:+ " removed items for user " +:+ pretty uid) ;;;
    call (DbDeleteWatchlistItems uid removedKeys)
      (db_deleteWatchlistItems C uid removedKeys)
  else ret tt.

(** One turn of the loop of [checkForRemovedItems]. *)
Definition checkRemoved_entry (entry : Friend * list Token.t) : M W unit :=
  let '(user, items) := entry in
  currentItems <- call (DbGetAllWatchlistItemsForUser (userId user))
                    (db_getAllWatchlistItemsForUser C (userId user)) ;;
  let currentKeys := JsSet.of_list (map Item.key currentItems) in
  let fetchedKeys := JsSet.of_list (map Token.id items) in
  handleRemovedItems (userId user) currentKeys fetchedKeys.

(** [checkForRemovedItems] *)
Definition checkForRemovedItems (userWatchlistMap : list (Friend * list Token.t))
  : M W unit :=
  for_each userWatchlistMap checkRemoved_entry.

(** The [deleteWatchlistItems] calls among some events, in order. *)
Definition deletes (evs : list Event) : list (Z * list string) :=
  omap (fun e => match e with
                 | DbDeleteWatchlistItems uid keys => Some (uid, keys)
                 | _ => None
                 end) evs.

(** The [deleteTempRssItems] calls among some events, in order. *)
Definition temp_deletes (evs : list Event) : list (list Z) :=
  omap (fun e => match e with
                 | DbDeleteTempRssItems ids => Some ids
                 | _ => None
                 end) evs.

(** *** The two full syncs *)

(** The callback of [getSelfWatchlist] for one token: the entry it sets
    in [userWatchlistMap], if any. *)
Definition collectToken (userMap : list (string * Z)) (index : nat)
    (token : string) : M W (option (Friend * list Token.t)) :=
  let username := "token" +:+ pretty (S index) in
  let uid := JsMap.get userMap username in
  if negb (truthy_num uid) then
    log error ("No user ID found for token user: " +:+ username) ;;;
    ret None
  else
    items <- call (CallFetchSelfWatchlist token (default 0 uid))
               (ext_fetchSelfWatchlist C token (default 0 uid)) ;;
    if 0 <? len items
    then ret (Some (mkFriend username username (default 0 uid), items))
    else ret None.

(** [allItemsMap.get(user) || new Set()], then the additions, then
    [allItemsMap.set(user, ...)].  The rows added are distinct objects. *)
Definition add_items (allItemsMap : list (Friend * list Item.t)) (user : Friend)
    (items : list Item.t) : list (Friend * list Item.t) :=
  JsMap.set allItemsMap user (default [] (JsMap.get allItemsMap user) ++ items).

Definition add_existing (identities : list Friend)
    (allItemsMap : list (Friend * list Item.t)) (item : Item.t)
  : list (Friend * list Item.t) :=
  match find (fun u => bool_decide (Some (userId u) = Item.user_id item)) identities with
  | Some user => add_items allItemsMap user [item]
  | None => allItemsMap
  end.

(** In [getOthersWatchlists] the sets of [processedItems] are put in
    [allItemsMap] as they are, and the stored rows are then added to the
    sets found there: a set of [processedItems] holds those rows too
    from then on. *)
Definition shared_sets (allItemsMap processedItems : list (Friend * list Item.t))
  : list (Friend * list Item.t) :=
  map (fun entry => (entry.1, default entry.2 (JsMap.get allItemsMap entry.1)))
    processedItems.

(** The part of both syncs from key extraction to persistence. *)
Definition reconcile (userWatchlistMap : list (Friend * list Token.t))
  : M W (list Item.t * Categorized * list (Friend * list Item.t)) :=
  ks <- extractKeysAndRelationships userWatchlistMap ;;
  existingItems <- getExistingItems ks.2 ks.1 ;;
  c <- categorize userWatchlistMap existingItems ;;
  processedItems <- processAndSaveNewItems (brandNewItems c) ;;
  linkExistingItems (existingItemsToLink c) ;;;
  ret (existingItems, c, processedItems).

(** The Watchlist Collector of [getSelfWatchlist]: the users of the
    tokens, then one fetch per token; [userWatchlistMap] gets an entry
    for each token that has a user id and at least one item. *)
Definition collectSelf : M W (list (Friend * list Token.t)) :=
  userMap <- ensureTokenUsers ;;
  collected <- Promise_all (imap (collectToken userMap) (plexTokens config)) ;;
  ret (omap (fun entry => entry) collected).

(** [getSelfWatchlist] *)
Definition getSelfWatchlist : M W Response :=
  if len (plexTokens config) =? 0 then throw "No Plex token configured"
  else
    userWatchlistMap <- collectSelf ;;
    if len userWatchlistMap =? 0 then throw "Unable to fetch watchlist items"
    else
      r <- reconcile userWatchlistMap ;;
      let '(existingItems, c, processedItems) := r in
      let allItemsMap :=
        fold_left (add_existing (JsMap.keys userWatchlistMap)) existingItems [] in
      let allItemsMap :=
        fold_left (fun m entry => add_items m entry.1 entry.2) processedItems allItemsMap in
      matchRssPendingItemsSelf allItemsMap ;;;
      checkForRemovedItems userWatchlistMap ;;;
      lift (buildResponse userWatchlistMap existingItems
              (existingItemsToLink c) processedItems).

(** [generateAndSaveRssFeeds] *)
Definition generateAndSaveRssFeeds : M W RssFeedsResponse :=
  let tokens := plexTokens config in
  if len tokens =? 0 then ret (RssError "No Plex token configured")
  else
    let tokenSet := JsSet.of_list tokens in
    let skip := default false (skipFriendSync config) in
    watchlistUrls <- call (CallGetPlexWatchlistUrls tokenSet skip)
                       (ext_getPlexWatchlistUrls C tokenSet skip) ;;
    if len watchlistUrls =? 0 then ret (RssError "Unable to fetch watchlist URLs")
    else
      let selfRss := default "" (watchlistUrls !! 0%nat) in
      let friendsRss := default "" (watchlistUrls !! 1%nat) in
      call (DbUpdateConfig selfRss friendsRss) (db_updateConfig C selfRss friendsRss) ;;;
      log info "RSS feed URLs saved to database" ;;;
      ret (RssFeeds selfRss friendsRss).

(** The Watchlist Collector of [getOthersWatchlists]: the friends, their
    users, and the fetch of their watchlists by the Plex client. *)
Definition collectOthers : M W (list (Friend * list Token.t)) :=
  friendList <- call CallGetFriends (ext_getFriends C) ;;
  userMap <- ensureFriendUsers friendList ;;
  withIds <- foldM
    (fun (acc : list (Friend * string)) (entry : PlexFriend * string) =>
       let uid := JsMap.get userMap (friend_watchlistId entry.1) in
       if negb (truthy_num uid) then
         log warn ("No user ID found for friend with watchlist ID: "
                   +:+ friend_watchlistId entry.1) ;;;
         ret acc
       else
         ret (acc ++ [(mkFriend (friend_watchlistId entry.1)
                         (friend_username entry.1) (default 0 uid), entry.2)]))
    friendList [] ;;
  call (CallGetOthersWatchlist withIds) (ext_getOthersWatchlist C withIds).

(** [getOthersWatchlists] *)
Definition getOthersWatchlists : M W Response :=
  if len (plexTokens config) =? 0 then throw "No Plex token configured"
  else
    userWatchlistMap <- collectOthers ;;
    if len userWatchlistMap =? 0 then throw "Unable to fetch others' watchlist items"
    else
      r <- reconcile userWatchlistMap ;;
      let '(existingItems, c, processedItems) := r in
      let allItemsMap :=
        fold_left (fun m entry => JsMap.set m entry.1 entry.2) processedItems [] in
      let allItemsMap :=
        fold_left (add_existing (JsMap.keys userWatchlistMap)) existingItems allItemsMap in
      let processedItems := shared_sets allItemsMap processedItems in
      matchRssPendingItemsFriends allItemsMap ;;;
      checkForRemovedItems userWatchlistMap ;;;
      lift (buildResponse userWatchlistMap existingItems
              (existingItemsToLink c) processedItems).

End Service.

(** ** [PlexTestingWorkflow] *)

(** [WatchlistItem] of the RSS results. *)
Module Wl.
Record t : Type := mk {
  title : string;
  plexKey : option string;
  type : string;
  thumb : option string;
  guids : option (list string);
  genres : option (list string);
}.
End Wl.

#[global] Instance Wl_eq_dec : EqDecision Wl.t.
Proof. solve_decision. Defined.

(** An object with an identity: [Set] membership of objects compares
    [ref], never [val]. *)
Record Obj (A : Type) : Type := mkObj {
  ref : nat;
  val : A;
}.
Arguments mkObj {A}.
Arguments ref {A}.
Arguments val {A}.

Module ObjSet.
Section Ops.
Context {A : Type}.

Definition has (s : list (Obj A)) (o : Obj A) : bool :=
  bool_decide (ref o ∈ map ref s).

Definition add (s : list (Obj A)) (o : Obj A) : list (Obj A) :=
  if has s o then s else s ++ [o].

End Ops.
End ObjSet.

(** [results.self.users[0]?.watchlist] and its [friends] counterpart. *)
Record RssWatchlistResults : Type := mkRssWatchlistResults {
  self_watchlist : option (list Wl.t);
  friends_watchlist : option (list Wl.t);
}.

(** The fields of the workflow object. *)
Record Workflow : Type := mkWorkflow {
  rssCheckInterval : bool;
  queueCheckInterval : bool;
  lastQueueItemTime : Z;
  changeQueue : list (Obj Tempt.t);
  previousSelfItems : list (string * Wl.t);
  previousFriendsItems : list (string * Wl.t);
  isRefreshing : bool;
}.

Definition set_changeQueue (w : Workflow) (q : list (Obj Tempt.t)) : Workflow :=
  mkWorkflow (rssCheckInterval w) (queueCheckInterval w) (lastQueueItemTime w) q
    (previousSelfItems w) (previousFriendsItems w) (isRefreshing w).

Definition set_lastQueueItemTime (w : Workflow) (t : Z) : Workflow :=
  mkWorkflow (rssCheckInterval w) (queueCheckInterval w) t (changeQueue w)
    (previousSelfItems w) (previousFriendsItems w) (isRefreshing w).

Definition set_isRefreshing (w : Workflow) (b : bool) : Workflow :=
  mkWorkflow (rssCheckInterval w) (queueCheckInterval w) (lastQueueItemTime w)
    (changeQueue w) (previousSelfItems w) (previousFriendsItems w) b.

Definition set_previousSelfItems (w : Workflow) (m : list (string * Wl.t)) : Workflow :=
  mkWorkflow (rssCheckInterval w) (queueCheckInterval w) (lastQueueItemTime w)
    (changeQueue w) m (previousFriendsItems w) (isRefreshing w).

Definition set_previousFriendsItems (w : Workflow) (m : list (string * Wl.t)) : Workflow :=
  mkWorkflow (rssCheckInterval w) (queueCheckInterval w) (lastQueueItemTime w)
    (changeQueue w) (previousSelfItems w) m (isRefreshing w).

(** [createItemMap]: the items under their first guid. *)
Definition createItemMap (items : list Wl.t) : list (string * Wl.t) :=
  fold_left
    (fun itemMap item =>
       match Wl.guids item with
       | Some (g :: _) => JsMap.set itemMap g item
       | _ => itemMap
       end)
    items [].

Section WorkflowOps.
Context {W : Type} (C : Collab W) (config : Config).

(** [convertToTempItem]: the fields of the object it returns, and the
    object, a new one each time. *)
Definition tempt_of (item : Wl.t) : Tempt.t :=
  {| Tempt.title := Wl.title item;
     Tempt.type := Wl.type item;
     Tempt.thumb := Wl.thumb item;
     Tempt.guids := Wl.guids item;
     Tempt.genres := Wl.genres item;
     Tempt.key := Wl.plexKey item |}.

Definition convertToTempItem (item : Wl.t) : M W (Obj Tempt.t) :=
  r <- alloc ;;
  ret (mkObj r (tempt_of item)).

(** [hasChanged] of [detectChanges]. *)
Definition hasChanged (previousItem currentItem : Wl.t) : bool :=
  negb (bool_decide (Wl.title previousItem = Wl.title currentItem))
  || negb (bool_decide (Wl.type previousItem = Wl.type currentItem))
  || negb (bool_decide (Wl.thumb previousItem = Wl.thumb currentItem))
  || negb (bool_decide (Json.stringify (Wl.genres previousItem)
                        = Json.stringify (Wl.genres currentItem))).

(** One turn of the first loop of [detectChanges]. *)
Definition detect_entry (previousItems : list (string * Wl.t))
    (changes : list (Obj Tempt.t)) (entry : string * Wl.t)
  : M W (list (Obj Tempt.t)) :=
  let '(guid, currentItem) := entry in
  match JsMap.get previousItems guid with
  | None =>
      log_with debug "New item detected" [guid; Wl.title currentItem] ;;;
      o <- convertToTempItem currentItem ;;
      ret (ObjSet.add changes o)
  | Some previousItem =>
      if hasChanged previousItem currentItem then
        log_with debug "Modified item detected" [guid; Wl.title currentItem] ;;;
        o <- convertToTempItem currentItem ;;
        ret (ObjSet.add changes o)
      else ret changes
  end.

(** [detectChanges] *)
Definition detectChanges (previousItems currentItems : list (string * Wl.t))
  : M W (list (Obj Tempt.t)) :=
  changes <- foldM (detect_entry previousItems) currentItems [] ;;
  for_each previousItems
    (fun entry =>
       if negb (JsMap.has currentItems entry.1)
       then log_with debug "Removed item detected" [entry.1; Wl.title entry.2]
       else ret tt) ;;;
  when (0 <? len changes) (log info "Detected RSS feed changes") ;;;
  ret changes.

Definition source_name (source : Source) : string :=
  match source with
  | self => "self"
  | friends => "friends"
  end.

(** The loop of [addToQueue]: the queue and [hasNewItems]. *)
Definition enqueue (acc : list (Obj Tempt.t) * bool) (item : Obj Tempt.t)
  : list (Obj Tempt.t) * bool :=
  if negb (ObjSet.has acc.1 item) then (ObjSet.add acc.1 item, true) else acc.

(** [addToQueue] *)
Definition addToQueue (w : Workflow) (items : list (Obj Tempt.t))
    (source : Source) : M W Workflow :=
  let r := fold_left enqueue items (changeQueue w, false) in
  let w := set_changeQueue w r.1 in
  if r.2 then
    t <- read_clock ;;
    let w := set_lastQueueItemTime w (Date_now C t) in
    log info ("Added " +:+ pretty (len items) +:+ " changed items to queue from "
              +:+ source_name source +:+ " RSS feed") ;;;
    try_catch
      (storeRssWatchlistItems C (map val items) source ;;;
       log info ("Stored " +:+ pretty (len items) +:+ " changed "
                 +:+ source_name source +:+ " RSS items"))
      (fun _ => log error ("Error storing " +:+ source_name source +:+ " RSS items:")) ;;;
    ret w
  else ret w.

(** [processRssResults] *)
Definition processRssResults (w : Workflow) (results : RssWatchlistResults)
  : M W Workflow :=
  w <- match self_watchlist results with
       | Some wl =>
           let currentItems := createItemMap wl in
           changes <- detectChanges (previousSelfItems w) currentItems ;;
           w <- (if 0 <? len changes then addToQueue w changes self else ret w) ;;
           ret (set_previousSelfItems w currentItems)
       | None => ret w
       end ;;
  match friends_watchlist results with
  | Some wl =>
      let currentItems := createItemMap wl in
      changes <- detectChanges (previousFriendsItems w) currentItems ;;
      w <- (if 0 <? len changes then addToQueue w changes friends else ret w) ;;
      ret (set_previousFriendsItems w currentItems)
  | None => ret w
  end.

(** [fetchWatchlists] *)
Definition fetchWatchlists : M W unit :=
  log info "Refreshing watchlists" ;;;
  try_catch
    (Promise_all [ (getSelfWatchlist C config ;;; ret tt);
                   (getOthersWatchlists C config ;;; ret tt) ] ;;;
     log info "Watchlists refreshed successfully")
    (fun msg => log error "Error refreshing watchlists:" ;;; throw msg).

(** The callback of [startQueueProcessor], up to its [await]: whether a
    refresh starts, and the fields as they stand while it runs. *)
Definition queueTick_enter (w : Workflow) : M W (Workflow * bool) :=
  if isRefreshing w then ret (w, false)
  else
    t <- read_clock ;;
    let timeSinceLastItem := Date_now C t - lastQueueItemTime w in
    if (60000 <=? timeSinceLastItem) && (0 <? len (changeQueue w)) then
      log info "One minute since last new item, refreshing watchlists" ;;;
      ret (set_changeQueue (set_isRefreshing w true) [], true)
    else ret (w, false).

(** The rest of the callback, once the awaited [fetchWatchlists] has
    settled with [r]: the end of [try], [catch], and [finally]. *)
Definition queueTick_exit (w : Workflow) (r : outcome unit) : M W Workflow :=
  match r with
  | Ok _ => log info "Watchlist refresh completed"
  | Throw _ => log error "Error during watchlist refresh:"
  end ;;;
  ret (set_isRefreshing w false).

(** A whole tick of the queue processor, when nothing else runs while
    the refresh is awaited. *)
Definition queueTick (w : Workflow) : M W Workflow :=
  entered <- queueTick_enter w ;;
  if entered.2 then
    r <- attempt fetchWatchlists ;;
    queueTick_exit entered.1 r
  else ret entered.1.

(** [stop] *)
Definition stop (w : Workflow) : M W Workflow :=
  log info "Stopping Plex testing workflow" ;;;
  ret (mkWorkflow false false (lastQueueItemTime w) []
         (previousSelfItems w) (previousFriendsItems w) (isRefreshing w)).

End WorkflowOps.

(** The spec's notion of content identity across users: the two guid
    arrays share an element. *)
Definition array_of (v : option strs) : list string :=
  match v with
  | Some (StrArray l) => l
  | _ => []
  end.

Definition spec_same_content (a b : option strs) : Prop :=
  exists g, g ∈ array_of a /\ g ∈ array_of b.

(** ** Sample data *)

Definition sample_iso (n : nat) : string := "2025-01-01T00:00:00.000Z".

Definition token1 : Friend := mkFriend "token1" "token1" 1.
Definition token2 : Friend := mkFriend "token2" "token2" 2.

(** A row stored for [token1]. *)
Definition row_dune : Item.t :=
  {| Item.user_id := Some 1;
     Item.title := "Dune";
     Item.key := "k1";
     Item.type := "movie";
     Item.thumb := Some "dune.jpg";
     Item.guids := Some (StrArray ["x:1"]);
     Item.genres := Some (StrArray ["Sci-Fi"]);
     Item.status := Some pending;
     Item.created_at := Some "2024-12-31T00:00:00.000Z";
     Item.updated_at := Some "2024-12-31T00:00:00.000Z" |}.

(** A second row stored for [token1]. *)
Definition row_alien : Item.t :=
  {| Item.user_id := Some 1;
     Item.title := "Alien";
     Item.key := "k3";
     Item.type := "movie";
     Item.thumb := None;
     Item.guids := Some (StrArray ["x:3"]);
     Item.genres := Some (StrArray ["Horror"]);
     Item.status := Some pending;
     Item.created_at := Some "2024-12-31T00:00:00.000Z";
     Item.updated_at := Some "2024-12-31T00:00:00.000Z" |}.

(** [row_dune] as storage hands it back: guids and genres as JSON text. *)
Definition row_dune_text : Item.t :=
  {| Item.user_id := Some 1;
     Item.title := "Dune";
     Item.key := "k1";
     Item.type := "movie";
     Item.thumb := Some "dune.jpg";
     Item.guids := Some (StrText (Json.stringify_array ["x:1"; "y:2"]));
     Item.genres := Some (StrText (Json.stringify_array ["Sci-Fi"]));
     Item.status := Some pending;
     Item.created_at := Some "2024-12-31T00:00:00.000Z";
     Item.updated_at := Some "2024-12-31T00:00:00.000Z" |}.

(** A raw item with upstream id [k] and the guids of [row_dune]. *)
Definition raw_dune (k : string) : Token.t :=
  {| Token.id := k;
     Token.item :=
       {| Item.user_id := None;
          Item.title := "Dune";
          Item.key := k;
          Item.type := "movie";
          Item.thumb := None;
          Item.guids := Some (StrArray ["x:1"]);
          Item.genres := None;
          Item.status := None;
          Item.created_at := None;
          Item.updated_at := None |} |}.

(** The spec's reading of a poll.  An entry of the current snapshot is a
    change when its guid is absent from the previous snapshot (new), or
    present with a different title, type, thumb or genres (modified);
    genres are compared as values. *)
Definition spec_differs (p c : Wl.t) : Prop :=
  Wl.title p <> Wl.title c \/ Wl.type p <> Wl.type c
  \/ Wl.thumb p <> Wl.thumb c \/ Wl.genres p <> Wl.genres c.

Definition spec_is_change (previousItems : list (string * Wl.t))
    (entry : string * Wl.t) : Prop :=
  match JsMap.get previousItems entry.1 with
  | None => True
  | Some p => spec_differs p entry.2
  end.

#[global] Instance spec_is_change_dec previousItems entry :
  Decision (spec_is_change previousItems entry).
Proof.
  unfold spec_is_change, spec_differs.
  destruct (JsMap.get previousItems entry.1); apply _.
Defined.

(** What the spec has the detector log for an entry of the current
    snapshot, and for an entry of the previous one. *)
Definition spec_change_log (previousItems : list (string * Wl.t))
    (entry : string * Wl.t) : list Event :=
  match JsMap.get previousItems entry.1 with
  | None => [Log debug "New item detected" [entry.1; Wl.title entry.2]]
  | Some p =>
      if decide (spec_differs p entry.2)
      then [Log debug "Modified item detected" [entry.1; Wl.title entry.2]]
      else []
  end.

Definition spec_removed_log (entry : string * Wl.t) : Event :=
  Log debug "Removed item detected" [entry.1; Wl.title entry.2].

(** A call that deletes from storage. *)
Definition is_delete (e : Event) : Prop :=
  match e with
  | DbDeleteWatchlistItems _ _ => True
  | DbDeleteTempRssItems _ => True
  | _ => False
  end.

(** Modelled from the spec: the collaborators of section 6, of which the
    repository's sources hold only the callers.  Storage is two tables in
    memory: [getAllWatchlistItemsForUser] and [getBulkWatchlistItems]
    select rows, [deleteWatchlistItems] and [deleteTempRssItems] remove
    the rows named, the [create] calls append.  The Plex client answers
    from fixed data: a token pings unless it is ["expired"], and no
    account has friends or items. *)
Record SampleWorld : Type := mkSampleWorld {
  stored : list Item.t;
  pendingRss : list Pending.t;
  listening : bool;
}.

Definition sample_delete (uid : Z) (keys : list string) (w : SampleWorld)
  : SampleWorld :=
  mkSampleWorld
    (filter (fun r => ~ (Item.user_id r = Some uid /\ Item.key r ∈ keys)) (stored w))
    (pendingRss w) (listening w).

Definition sample_deleteTemp (ids : list Z) (w : SampleWorld) : SampleWorld :=
  mkSampleWorld (stored w)
    (filter (fun p => Pending.id p ∉ ids) (pendingRss w)) (listening w).

Definition sample_collab : Collab SampleWorld :=
  {| ext_pingPlex token w := (Ok (negb (String.eqb token "expired")), w);
     ext_fetchSelfWatchlist _ _ w := (Ok [], w);
     ext_getFriends w := (Ok [], w);
     ext_getOthersWatchlist _ w := (Ok [], w);
     ext_processWatchlistItems brandNew _ w :=
       (Ok (IsMap (map (fun e => (e.1, map Token.item e.2)) brandNew)), w);
     ext_getPlexWatchlistUrls _ _ w := (Ok [], w);
     db_getUser _ w := (Ok None, w);
     db_createUser name _ w := (Ok (User.mk (Some 1) name), w);
     db_getBulkWatchlistItems userIds keys w :=
       (Ok (filter (fun r => Item.key r ∈ keys) (stored w)), w);
     db_createWatchlistItems items _ w :=
       (Ok tt, mkSampleWorld (stored w ++ items) (pendingRss w) (listening w));
     db_syncGenresFromWatchlist w := (Ok tt, w);
     db_deleteWatchlistItems uid keys w := (Ok tt, sample_delete uid keys w);
     db_getAllWatchlistItemsForUser uid w :=
       (Ok (filter (fun r => Item.user_id r = Some uid) (stored w)), w);
     db_createTempRssItems _ w := (Ok tt, w);
     db_getTempRssItems _ w := (Ok (pendingRss w), w);
     db_deleteTempRssItems ids w := (Ok tt, sample_deleteTemp ids w);
     db_updateConfig _ _ w := (Ok tt, w);
     progress_hasActiveConnections w := (listening w, w);
     progress_emit _ w := w;
     Date_now n := 1000 * Z.of_nat n;
     Date_toISOString := sample_iso;
     JSON_parse s :=
       match Json.parse_array s with
       | Some l => Ok l
       | None => Throw "Unexpected token in JSON" 
       end |}.

(** An RSS item with first guid [g] and title [t]. *)
Definition rss_item (g t : string) : Wl.t :=
  {| Wl.title := t;
     Wl.plexKey := Some "k";
     Wl.type := "movie";
     Wl.thumb := Some "";
     Wl.guids := Some [g];
     Wl.genres := Some ["Drama"] |}.

Definition idle_workflow : Workflow := mkWorkflow true true 0 [] [] [] false.

(** Two pending RSS items: one carries a guid of [row_dune]. *)
Definition pending_dune : Pending.t := Pending.mk 7 "Dune" "movie" ["y:9"; "x:1"].
Definition pending_solaris : Pending.t := Pending.mk 8 "Solaris" "movie" ["x:5"].

Definition sample_state (w : SampleWorld) : State SampleWorld := mkState w 0 0.

(** ** The RSS reader of the service *)

(** The row of the configuration table, as the RSS reader reads it. *)
Record DbConfig : Type := mkDbConfig {
  selfRss : option string;
  friendsRss : option string;
}.

(** An item as [fetchWatchlistFromRss] yields it.  The service casts it
    to [TemptRssWatchlistItem] and tells three cases apart for [guids]
    and [genres]: an array, another value that is truthy (one string),
    and a falsy one. *)
Module RssRaw.
Inductive field : Type :=
| Many (l : list string)
| One (s : string).

Record t : Type := mk {
  title : string;
  type : string;
  thumb : option string;
  guids : option field;
  genres : option field;
  key : option string;
}.
End RssRaw.

(** An item of a feed as [mapRssItemsToWatchlist] shows it. *)
Module RssView.
Record t : Type := mk {
  title : string;
  plexKey : option string;
  type : string;
  thumb : string;
  guids : list string;
  genres : list string;
  status : Status;
}.
End RssView.

Record RssGroup : Type := mkRssGroup {
  rss_user : Friend;
  rss_watchlist : list RssView.t;
}.

(** [{ total, users }], the result for one feed. *)
Record RssFeed : Type := mkRssFeed {
  rss_total : Z;
  rss_users : list RssGroup;
}.

(** The whole result of [processRssWatchlists]: [{ self, friends }]. *)
Record RssResults : Type := mkRssResults {
  rss_self : RssFeed;
  rss_friends : RssFeed;
}.

(** The collaborators that only the RSS reader uses: the feed parser of
    the Plex client and the configuration table. *)
Record Feeds (W : Type) : Type := mkFeeds {
  ext_fetchWatchlistFromRss :
    string -> string -> Z -> W -> outcome (list RssRaw.t) * W;
  db_getConfig : Z -> W -> outcome (option DbConfig) * W;
}.
Arguments ext_fetchWatchlistFromRss {W}.
Arguments db_getConfig {W}.

(** [Array.isArray(v) ? v : v ? [v] : []] *)
Definition array_or_single (v : option RssRaw.field) : list string :=
  match v with
  | Some (RssRaw.Many l) => l
  | Some (RssRaw.One s) => if truthy s then [s] else []
  | None => []
  end.

(** [mapRssItemsToWatchlist] *)
Definition mapRssItemsToWatchlist (items : list RssRaw.t) : list RssView.t :=
  map (fun item =>
         {| RssView.title := RssRaw.title item;
            RssView.plexKey := RssRaw.key item;
            RssView.type := RssRaw.type item;
            RssView.thumb := default "" (RssRaw.thumb item);
            RssView.guids := array_or_single (RssRaw.guids item);
            RssView.genres := array_or_single (RssRaw.genres item);
            RssView.status := pending |})
      items.

(** [config] when [!config?.selfRss && !config?.friendsRss] is false:
    the row, if it is there and names a feed. *)
Definition with_feed (found : option DbConfig) : option DbConfig :=
  match found with
  | Some c =>
      if negb (truthy (default "" (selfRss c)))
         && negb (truthy (default "" (friendsRss c)))
      then None else Some c
  | None => None
  end.

Section RssReader.
Context {W : Type} (C : Collab W) (R : Feeds W) (config : Config).

(** A read by a collaborator of the RSS reader.  It leaves no event:
    the trace lists the calls of the two syncs and the log. *)
Definition request {A} (op : W -> outcome A * W) : M W A :=
  fun s =>
    let '(o, w) := op (world s) in
    mkResult o (mkState w (tick s) (heap s)) [].

(** [processSelfRssWatchlist] *)
Definition processSelfRssWatchlist (rssUrl : string) : M W RssFeed :=
  selfItems <- request (ext_fetchWatchlistFromRss R rssUrl "selfRSS" 1) ;;
  let watchlistGroup :=
    mkRssGroup (mkFriend "token1" "token1" 1) (mapRssItemsToWatchlist selfItems) in
  ret (mkRssFeed (len selfItems) [watchlistGroup]).

(** [processFriendsRssWatchlist] *)
Definition processFriendsRssWatchlist (rssUrl : string) : M W RssFeed :=
  friendsItems <- request (ext_fetchWatchlistFromRss R rssUrl "otherRSS" 1) ;;
  let watchlistGroup :=
    mkRssGroup (mkFriend "friends" "Friends Watchlist" 1)
      (mapRssItemsToWatchlist friendsItems) in
  ret (mkRssFeed (len friendsItems) [watchlistGroup]).

(** [ensureRssFeeds] *)
Definition ensureRssFeeds : M W DbConfig :=
  found <- request (db_getConfig R 1) ;;
  match with_feed found with
  | Some c => ret c
  | None =>
      log info "No RSS feeds found in database, attempting to generate..." ;;;
      generateAndSaveRssFeeds C config ;;;
      found <- request (db_getConfig R 1) ;;
      match with_feed found with
      | Some c => ret c
      | None => throw "Unable to generate or retrieve RSS feed URLs"
      end
  end.

(** [processRssWatchlists] *)
Definition processRssWatchlists : M W RssResults :=
  c <- ensureRssFeeds ;;
  let results := mkRssResults (mkRssFeed 0 []) (mkRssFeed 0 []) in
  results <- (if truthy (default "" (selfRss c))
              then feed <- processSelfRssWatchlist (default "" (selfRss c)) ;;
                   ret (mkRssResults feed (rss_friends results))
              else ret results) ;;
  if truthy (default "" (friendsRss c))
  then feed <- processFriendsRssWatchlist (default "" (friendsRss c)) ;;
       ret (mkRssResults (rss_self results) feed)
  else ret results.

End RssReader.

(** ** The start of the workflow and its RSS timer *)

(** An entry of a feed as the workflow reads it, at type [WatchlistItem]. *)
Definition as_watchlist_item (v : RssView.t) : Wl.t :=
  {| Wl.title := RssView.title v;
     Wl.plexKey := RssView.plexKey v;
     Wl.type := RssView.type v;
     Wl.thumb := Some (RssView.thumb v);
     Wl.guids := Some (RssView.guids v);
     Wl.genres := Some (RssView.genres v) |}.

(** [feed.users[0]?.watchlist] *)
Definition first_watchlist (feed : RssFeed) : option (list Wl.t) :=
  match rss_users feed with
  | g :: _ => Some (map as_watchlist_item (rss_watchlist g))
  | [] => None
  end.

(** What the workflow reads of the results of a poll. *)
Definition watchlists_of (results : RssResults) : RssWatchlistResults :=
  mkRssWatchlistResults (first_watchlist (rss_self results))
    (first_watchlist (rss_friends results)).

(** [startRssCheck] and [startQueueProcessor], as far as the fields go:
    the timer is set, a running one being cleared first. *)
Definition startRssCheck (w : Workflow) : Workflow :=
  mkWorkflow true (queueCheckInterval w) (lastQueueItemTime w) (changeQueue w)
    (previousSelfItems w) (previousFriendsItems w) (isRefreshing w).

Definition startQueueProcessor (w : Workflow) : Workflow :=
  mkWorkflow (rssCheckInterval w) true (lastQueueItemTime w) (changeQueue w)
    (previousSelfItems w) (previousFriendsItems w) (isRefreshing w).

Section WorkflowStart.
Context {W : Type} (C : Collab W) (R : Feeds W) (config : Config).

(** [initializeRssSnapshots] *)
Definition initializeRssSnapshots (w : Workflow) : M W Workflow :=
  log info "Initializing RSS snapshots" ;;;
  results <- processRssWatchlists C R config ;;
  w <- match first_watchlist (rss_self results) with
       | Some wl =>
           let w := set_previousSelfItems w (createItemMap wl) in
           log info "Initialized self RSS snapshot" ;;;
           ret w
       | None => ret w
       end ;;
  match first_watchlist (rss_friends results) with
  | Some wl =>
      let w := set_previousFriendsItems w (createItemMap wl) in
      log info "Initialized friends RSS snapshot" ;;;
      ret w
  | None => ret w
  end.

(** The callback of [startRssCheck]: one poll.  The fields change only
    in [processRssResults], which the poll reaches once the results are
    there. *)
Definition rssTick (w : Workflow) : M W Workflow :=
  try_catch
    (results <- processRssWatchlists C R config ;;
     processRssResults C w (watchlists_of results))
    (fun _ => log error "Error checking RSS feeds:" ;;; ret w).

(** [startWorkflow].  The fields change only after the last step that
    can throw. *)
Definition startWorkflow (w : Workflow) : M W Workflow :=
  log info "Starting Plex testing workflow" ;;;
  try_catch
    (pingPlex C config ;;;
     log info "Plex connection verified" ;;;
     fetchWatchlists C config ;;;
     rssFeeds <- generateAndSaveRssFeeds C config ;;
     match rssFeeds with
     | RssError e => throw ("Failed to generate RSS feeds: " +:+ e)
     | RssFeeds _ _ => ret tt
     end ;;;
     w <- initializeRssSnapshots w ;;
     let w := startQueueProcessor (startRssCheck w) in
     log info "Plex testing workflow running" ;;;
     ret w)
    (fun _ => log error "Error in Plex testing workflow:" ;;; ret w).

End WorkflowStart.

(** ** The route [GET /generate-rss-feeds] *)

(** What the handler hands to [reply]: the status code, if it sets one,
    and the body it sends. *)
Record Reply : Type := mkReply {
  reply_code : option Z;
  reply_body : RssFeedsResponse;
}.

Section Routes.
Context {W : Type} (C : Collab W) (config : Config).

(** The handler of [generateRssFeedsRoute] *)
Definition generateRssFeedsHandler : M W Reply :=
  try_catch
    (response <- generateAndSaveRssFeeds C config ;;
     ret (mkReply None response))
    (fun err =>
       log error err ;;;
       ret (mkReply (Some 500) (RssError "Unable to fetch watchlist URLs"))).

End Routes.

(** ** Sample data for the RSS reader *)

(** Two items of a feed: one with an array of guids, one with a single
    guid and no genres. *)
Definition feed_dune : RssRaw.t :=
  {| RssRaw.title := "Dune";
     RssRaw.type := "movie";
     RssRaw.thumb := Some "dune.jpg";
     RssRaw.guids := Some (RssRaw.Many ["x:1"; "y:2"]);
     RssRaw.genres := Some (RssRaw.Many ["Sci-Fi"]);
     RssRaw.key := Some "k1" |}.

Definition feed_alien : RssRaw.t :=
  {| RssRaw.title := "Alien";
     RssRaw.type := "movie";
     RssRaw.thumb := None;
     RssRaw.guids := Some (RssRaw.One "x:3");
     RssRaw.genres := None;
     RssRaw.key := None |}.

(** An item without any guid. *)
Definition feed_unknown : RssRaw.t :=
  {| RssRaw.title := "Unknown";
     RssRaw.type := "show";
     RssRaw.thumb := None;
     RssRaw.guids := None;
     RssRaw.genres := None;
     RssRaw.key := None |}.

(** Modelled from the spec: the feed parser of section 6 and the
    configuration row, of which the repository's sources hold only the
    callers.  The row names the self feed only; the parser answers from
    fixed data. *)
Definition sample_feeds : Feeds SampleWorld :=
  {| ext_fetchWatchlistFromRss url _ _ w :=
       (Ok (if String.eqb url "https://rss.example/self"
            then [feed_dune; feed_alien; feed_unknown] else []), w);
     db_getConfig _ w :=
       (Ok (Some (mkDbConfig (Some "https://rss.example/self") None)), w) |}.

Definition one_token : Config := mkConfig ["t1"] None.

(** A call that deletes rows of the stored watchlists. *)
Definition is_row_delete (e : Event) : Prop :=
  match e with
  | DbDeleteWatchlistItems _ _ => True
  | _ => False
  end.

(** A raw item that no stored row matches. *)
Definition raw_solaris : Token.t :=
  {| Token.id := "k9";
     Token.item :=
       {| Item.user_id := None;
          Item.title := "Solaris";
          Item.key := "k9";
          Item.type := "movie";
          Item.thumb := None;
          Item.guids := Some (StrArray ["x:9"]);
          Item.genres := None;
          Item.status := None;
          Item.created_at := None;
          Item.updated_at := None |} |}.

(** Modelled from the spec: [sample_collab] for an account whose own
    watchlist holds [raw_solaris], and which has one friend, whose
    watchlist holds [raw_dune "k1"] and [raw_solaris]. *)
Definition sample_collab_friend : Collab SampleWorld :=
  {| ext_pingPlex := ext_pingPlex sample_collab;
     ext_fetchSelfWatchlist _ _ w := (Ok [raw_solaris], w);
     ext_getFriends w := (Ok [(mkPlexFriend "w9" "ann", "t1")], w);
     ext_getOthersWatchlist withIds w :=
       (Ok (map (fun e : Friend * string => (e.1, [raw_dune "k1"; raw_solaris])) withIds),
        w);
     ext_processWatchlistItems := ext_processWatchlistItems sample_collab;
     ext_getPlexWatchlistUrls := ext_getPlexWatchlistUrls sample_collab;
     db_getUser := db_getUser sample_collab;
     db_createUser := db_createUser sample_collab;
     db_getBulkWatchlistItems := db_getBulkWatchlistItems sample_collab;
     db_createWatchlistItems := db_createWatchlistItems sample_collab;
     db_syncGenresFromWatchlist := db_syncGenresFromWatchlist sample_collab;
     db_deleteWatchlistItems := db_deleteWatchlistItems sample_collab;
     db_getAllWatchlistItemsForUser := db_getAllWatchlistItemsForUser sample_collab;
     db_createTempRssItems := db_createTempRssItems sample_collab;
     db_getTempRssItems := db_getTempRssItems sample_collab;
     db_deleteTempRssItems := db_deleteTempRssItems sample_collab;
     db_updateConfig := db_updateConfig sample_collab;
     progress_hasActiveConnections := progress_hasActiveConnections sample_collab;
     progress_emit := progress_emit sample_collab;
     Date_now := Date_now sample_collab;
     Date_toISOString := Date_toISOString sample_collab;
     JSON_parse := JSON_parse sample_collab |}.

(** Modelled from the spec: [sample_collab] with a pending store that
    rejects every write. *)
Definition sample_collab_busy : Collab SampleWorld :=
  {| ext_pingPlex := ext_pingPlex sample_collab;
     ext_fetchSelfWatchlist := ext_fetchSelfWatchlist sample_collab;
     ext_getFriends := ext_getFriends sample_collab;
     ext_getOthersWatchlist := ext_getOthersWatchlist sample_collab;
     ext_processWatchlistItems := ext_processWatchlistItems sample_collab;
     ext_getPlexWatchlistUrls := ext_getPlexWatchlistUrls sample_collab;
     db_getUser := db_getUser sample_collab;
     db_createUser := db_createUser sample_collab;
     db_getBulkWatchlistItems := db_getBulkWatchlistItems sample_collab;
     db_createWatchlistItems := db_createWatchlistItems sample_collab;
     db_syncGenresFromWatchlist := db_syncGenresFromWatchlist sample_collab;
     db_deleteWatchlistItems := db_deleteWatchlistItems sample_collab;
     db_getAllWatchlistItemsForUser := db_getAllWatchlistItemsForUser sample_collab;
     db_createTempRssItems _ w := (Throw "SQLITE_BUSY", w);
     db_getTempRssItems := db_getTempRssItems sample_collab;
     db_deleteTempRssItems := db_deleteTempRssItems sample_collab;
     db_updateConfig := db_updateConfig sample_collab;
     progress_hasActiveConnections := progress_hasActiveConnections sample_collab;
     progress_emit := progress_emit sample_collab;
     Date_now := Date_now sample_collab;
     Date_toISOString := Date_toISOString sample_collab;
     JSON_parse := JSON_parse sample_collab |}.
(* ================================================================== *)
(** * Part II. Lemmas and theorems *)
(* ================================================================== *)

(** ** [JSON.stringify] is injective on arrays of strings *)

Lemma string_app_assoc (a b c : string) : (a +:+ b) +:+ c = a +:+ (b +:+ c).
Proof.
  induction a as [|x a IH]; [reflexivity | exact (f_equal (String x) IH)].
Qed.

Lemma unescape_escape_char c x :
  Json.unescape (Json.escape_char c +:+ x)
  = Json.cons_result c (Json.unescape x).
Proof. destruct c as [[] [] [] [] [] [] [] []]; reflexivity. Qed.

Lemma unescape_escape s rest :
  Json.unescape (Json.escape s +:+ String Json.dquote rest) = Some (s, rest).
Proof.
  induction s as [|c s IH].
  - reflexivity.
  - change (Json.escape (String c s)) with (Json.escape_char c +:+ Json.escape s).
    by rewrite string_app_assoc, unescape_escape_char, IH.
Qed.

Lemma quote_read s rest :
  exists body, Json.quote s +:+ rest = String Json.dquote body
               /\ Json.unescape body = Some (s, rest).
Proof.
  exists (Json.escape s +:+ String Json.dquote rest). split.
  - exact (f_equal (String Json.dquote) (string_app_assoc _ _ _)).
  - apply unescape_escape.
Qed.

Lemma quote_app_inj s1 s2 r1 r2 :
  Json.quote s1 +:+ r1 = Json.quote s2 +:+ r2 -> s1 = s2 /\ r1 = r2.
Proof.
  intros E.
  destruct (quote_read s1 r1) as (b1 & E1 & U1).
  destruct (quote_read s2 r2) as (b2 & E2 & U2).
  rewrite E1, E2 in E. injection E as ->.
  rewrite U1 in U2. by injection U2.
Qed.

Lemma join_close_inj l1 l2 :
  Json.join l1 +:+ "]" = Json.join l2 +:+ "]" -> l1 = l2.
Proof.
  revert l2. induction l1 as [|a [|a' l1] IH]; intros [|b [|b' l2]] E;
    try reflexivity; try discriminate E.
  - apply quote_app_inj in E as [-> _]. reflexivity.
  - change (Json.quote a +:+ "]"
            = (Json.quote b +:+ "," +:+ Json.join (b' :: l2)) +:+ "]") in E.
    rewrite string_app_assoc in E.
    apply quote_app_inj in E as [_ E]. discriminate E.
  - change ((Json.quote a +:+ "," +:+ Json.join (a' :: l1)) +:+ "]"
            = Json.quote b +:+ "]") in E.
    rewrite string_app_assoc in E.
    apply quote_app_inj in E as [_ E]. discriminate E.
  - change ((Json.quote a +:+ "," +:+ Json.join (a' :: l1)) +:+ "]"
            = (Json.quote b +:+ "," +:+ Json.join (b' :: l2)) +:+ "]") in E.
    rewrite !string_app_assoc in E.
    apply quote_app_inj in E as [-> E].
    injection E as E. f_equal. by apply IH.
Qed.

Lemma stringify_array_inj l1 l2 :
  Json.stringify_array l1 = Json.stringify_array l2 -> l1 = l2.
Proof.
  unfold Json.stringify_array. intros E. injection E as E.
  by apply join_close_inj.
Qed.

(** Comparing the [JSON.stringify] texts of two genre fields is
    comparing the fields. *)
Lemma stringify_inj v1 v2 : Json.stringify v1 = Json.stringify v2 -> v1 = v2.
Proof.
  destruct v1 as [l1|], v2 as [l2|]; cbn; intros E;
    try reflexivity; try discriminate E.
  f_equal. apply stringify_array_inj. congruence.
Qed.

Example stringify_sample :
  Json.stringify (Some ["Drama"; "Sci-Fi"])
  = Some ("[" +:+ Json.quote "Drama" +:+ "," +:+ Json.quote "Sci-Fi" +:+ "]").
Proof. reflexivity. Qed.

(** [parse_array] reads back what [stringify_array] writes. *)
Lemma string_length_app (a b : string) :
  String.length (a +:+ b) = (String.length a + String.length b)%nat.
Proof. induction a as [|x a IH]; simpl; [done | by rewrite IH]. Qed.

Lemma parse_elems_join fuel a l :
  (length l < fuel)%nat ->
  Json.parse_elems fuel (Json.join (a :: l) +:+ "]") = Some (a :: l).
Proof.
  revert a fuel. induction l as [|b l IH]; intros a [|fuel] Hlt;
    try (simpl in Hlt; lia).
  - destruct (quote_read a "]") as (body & E & U).
    change (Json.join [a] +:+ "]") with (Json.quote a +:+ "]").
    rewrite E. cbn [Json.parse_elems]. rewrite U. reflexivity.
  - destruct (quote_read a (String "," (Json.join (b :: l) +:+ "]")))
      as (body & E & U).
    change (Json.join (a :: b :: l) +:+ "]")
      with ((Json.quote a +:+ "," +:+ Json.join (b :: l)) +:+ "]").
    rewrite string_app_assoc.
    change (("," +:+ Json.join (b :: l)) +:+ "]")
      with (String "," (Json.join (b :: l) +:+ "]")).
    rewrite E. cbn [Json.parse_elems]. rewrite U.
    change (Ascii.eqb Json.dquote Json.dquote) with true.
    change (Ascii.eqb "," "]") with false.
    change (Ascii.eqb "," ",") with true. cbv iota.
    rewrite IH by (simpl in Hlt; lia). reflexivity.
Qed.

Lemma join_length a l : (length l < String.length (Json.join (a :: l) +:+ "]"))%nat.
Proof.
  revert a. induction l as [|b l IH]; intros a.
  - destruct (quote_read a "]") as (body & E & _).
    change (Json.join [a] +:+ "]") with (Json.quote a +:+ "]").
    rewrite E. simpl. lia.
  - destruct (quote_read a (String "," (Json.join (b :: l) +:+ "]")))
      as (body & E & U).
    change (Json.join (a :: b :: l) +:+ "]")
      with ((Json.quote a +:+ "," +:+ Json.join (b :: l)) +:+ "]").
    rewrite string_app_assoc.
    change (("," +:+ Json.join (b :: l)) +:+ "]")
      with (String "," (Json.join (b :: l) +:+ "]")).
    specialize (IH b).
    rewrite string_length_app. cbn [String.length length]. lia.
Qed.

Lemma parse_stringify_array l :
  Json.parse_array (Json.stringify_array l) = Some l.
Proof.
  destruct l as [|a l]; [reflexivity|].
  unfold Json.stringify_array.
  change ("[" +:+ Json.join (a :: l) +:+ "]")
    with (String "[" (Json.join (a :: l) +:+ "]")).
  cbn [Json.parse_array].
  change (Ascii.eqb "[" "[") with true. cbv iota.
  pose proof (parse_elems_join _ a l (join_length a l)) as Hp.
  destruct (Json.join (a :: l) +:+ "]") as [|c [|d rest]] eqn:E.
  - discriminate Hp.
  - destruct (quote_read a (match l with
                            | [] => "]"
                            | b :: l' => String "," (Json.join (b :: l') +:+ "]")
                            end)) as (body & Eq & U).
    assert (Json.join (a :: l) +:+ "]" = String Json.dquote body) as E'.
    { rewrite <- Eq. destruct l as [|b l']; [reflexivity|].
      change (Json.join (a :: b :: l') +:+ "]")
        with ((Json.quote a +:+ "," +:+ Json.join (b :: l')) +:+ "]").
      by rewrite string_app_assoc. }
    rewrite E in E'. injection E' as -> <-. by destruct l.
  - exact Hp.
Qed.

(** ** Insertion-ordered maps *)

Section JsMapFacts.
Context {K V : Type} `{EqDecision K}.
Implicit Types (m : list (K * V)) (k : K) (v : V).

Lemma get_set_eq m k v : JsMap.get (JsMap.set m k v) k = Some v.
Proof.
  induction m as [|[k' v'] m IH]; simpl.
  - by rewrite decide_True.
  - destruct (decide (k' = k)) as [->|Hne]; simpl.
    + by rewrite decide_True.
    + by rewrite decide_False.
Qed.

Lemma get_set_ne m k k' v :
  k <> k' -> JsMap.get (JsMap.set m k v) k' = JsMap.get m k'.
Proof.
  intros Hne. induction m as [|[k0 v0] m IH]; simpl.
  - by rewrite decide_False.
  - destruct (decide (k0 = k)) as [->|Hne0]; simpl.
    + by rewrite !decide_False.
    + by rewrite IH.
Qed.

Lemma elem_of_set m k v k' v' :
  (k', v') ∈ JsMap.set m k v -> (k' = k /\ v' = v) \/ (k', v') ∈ m.
Proof.
  induction m as [|[k0 v0] m IH]; simpl.
  - intros Hin. apply list_elem_of_singleton in Hin.
    injection Hin as -> ->. by left.
  - destruct (decide (k0 = k)) as [->|Hne].
    + intros [E|Hin]%elem_of_cons.
      * injection E as -> ->. by left.
      * right. by right.
    + intros [E|Hin]%elem_of_cons.
      * right. rewrite E. by left.
      * destruct (IH Hin) as [?|?]; [by left | right; by right].
Qed.

Lemma get_Some_elem_of m k v : JsMap.get m k = Some v -> (k, v) ∈ m.
Proof.
  induction m as [|[k0 v0] m IH]; simpl; [done|].
  destruct (decide (k0 = k)) as [->|Hne].
  - intros [= ->]. by left.
  - intros. right. auto.
Qed.

Lemma get_None_keys m k : JsMap.get m k = None <-> k ∉ JsMap.keys m.
Proof.
  unfold JsMap.keys. induction m as [|[k0 v0] m IH]; simpl.
  - split; [intros _; apply not_elem_of_nil | done].
  - rewrite not_elem_of_cons. destruct (decide (k0 = k)) as [->|Hne].
    + split; [done | by intros [? _]].
    + rewrite IH. naive_solver.
Qed.

Lemma elem_of_keys_set m k v k' :
  k' ∈ JsMap.keys (JsMap.set m k v) <-> k' = k \/ k' ∈ JsMap.keys m.
Proof.
  unfold JsMap.keys. induction m as [|[k0 v0] m IH]; simpl.
  - rewrite list_elem_of_singleton. split; [by left|].
    intros [?|?%elem_of_nil]; done.
  - destruct (decide (k0 = k)) as [->|Hne]; simpl.
    + rewrite !elem_of_cons. naive_solver.
    + rewrite !elem_of_cons, IH. naive_solver.
Qed.

Lemma set_not_nil m k v : JsMap.set m k v <> [].
Proof. destruct m as [|[k0 v0] m]; simpl; [done|]. by destruct (decide _). Qed.

Lemma elem_of_keys m k : k ∈ JsMap.keys m <-> exists v, (k, v) ∈ m.
Proof.
  unfold JsMap.keys. rewrite list_elem_of_fmap. split.
  - intros ([k0 v0] & -> & Hin). by exists v0.
  - intros (v0 & Hin). by exists (k, v0).
Qed.

End JsMapFacts.

(** ** Sets in insertion order *)

Section JsSetFacts.
Context {A : Type} `{EqDecision A}.
Implicit Types (s l : list A) (x : A).

Lemma has_true s x : JsSet.has s x = true <-> x ∈ s.
Proof. unfold JsSet.has. by rewrite bool_decide_eq_true. Qed.

Lemma has_false s x : JsSet.has s x = false <-> x ∉ s.
Proof. unfold JsSet.has. by rewrite bool_decide_eq_false. Qed.

Lemma elem_of_add s x y : y ∈ JsSet.add s x <-> y ∈ s \/ y = x.
Proof.
  unfold JsSet.add. destruct (JsSet.has s x) eqn:Hh.
  - apply has_true in Hh. split; [by left|]. by intros [?| ->].
  - by rewrite elem_of_app, list_elem_of_singleton.
Qed.

Lemma NoDup_add s x : NoDup s -> NoDup (JsSet.add s x).
Proof.
  intros Hnd. unfold JsSet.add. destruct (JsSet.has s x) eqn:Hh; [done|].
  apply has_false in Hh. apply NoDup_app. split; [done|]. split.
  - by intros y Hy ->%list_elem_of_singleton.
  - apply NoDup_singleton.
Qed.

Lemma of_list_fold l s :
  (forall y, y ∈ fold_left JsSet.add l s <-> y ∈ s \/ y ∈ l)
  /\ (NoDup s -> NoDup (fold_left JsSet.add l s)).
Proof.
  revert s. induction l as [|x l IH]; intros s; simpl.
  - split; [|done]. intros y. rewrite elem_of_nil. tauto.
  - destruct (IH (JsSet.add s x)) as [Hin Hnd]. split.
    + intros y. rewrite Hin, elem_of_add, elem_of_cons. tauto.
    + intros Hs. by apply Hnd, NoDup_add.
Qed.

(** [new Set(arr)] has the elements of [arr], each once. *)
Lemma elem_of_of_list l y : y ∈ JsSet.of_list l <-> y ∈ l.
Proof.
  unfold JsSet.of_list. rewrite (proj1 (of_list_fold l [])), elem_of_nil. tauto.
Qed.

Lemma NoDup_of_list l : NoDup (JsSet.of_list l).
Proof. apply (of_list_fold l []), NoDup_nil_2. Qed.

End JsSetFacts.

(** ** Computations *)

Section MonadFacts.
Context {W : Type}.

Lemma bind_Ok {A B} (m : M W A) (k : A -> M W B) s a :
  out (m s) = Ok a ->
  bind m k s
  = mkResult (out (k a (final (m s)))) (final (k a (final (m s))))
      (events (m s) ++ events (k a (final (m s)))).
Proof. unfold bind. by intros ->. Qed.

Lemma bind_Throw {A B} (m : M W A) (k : A -> M W B) s msg :
  out (m s) = Throw msg ->
  bind m k s = mkResult (Throw msg) (final (m s)) (events (m s)).
Proof. unfold bind. by intros ->. Qed.

Lemma try_catch_log_out (m : M W unit) level msg s :
  out (try_catch m (fun _ => log level msg) s) = Ok tt.
Proof.
  unfold try_catch. destruct (out (m s)) as [[]|e] eqn:E; [by rewrite E | done].
Qed.

Lemma run_all_out {A} (tasks : list (M W A)) s :
  exists os, out (run_all tasks s) = Ok os /\ length os = length tasks.
Proof.
  revert s. induction tasks as [|t tasks IH]; intros s; simpl.
  - by exists [].
  - unfold bind at 1. simpl.
    destruct (IH (final (t s))) as (os & Hos & Hlen).
    unfold bind. rewrite Hos. simpl. exists (out (t s) :: os).
    split; [done | simpl; by rewrite Hlen].
Qed.

Lemma Promise_all_out {A} (tasks : list (M W A)) s os :
  out (run_all tasks s) = Ok os ->
  out (Promise_all tasks s) = first_rejection os.
Proof.
  intros Hos. unfold Promise_all. rewrite (bind_Ok _ _ _ _ Hos). simpl.
  by destruct (first_rejection os).
Qed.

Lemma first_rejection_map_Ok {A} (l : list A) :
  first_rejection (map Ok l) = Ok l.
Proof. induction l as [|a l IH]; simpl; [done | by rewrite IH]. Qed.

Lemma first_rejection_Ok {A} (os : list (outcome A)) l :
  first_rejection os = Ok l -> os = map Ok l.
Proof.
  revert l. induction os as [|[a|msg] os IH]; intros l; simpl.
  - by intros [= <-].
  - destruct (first_rejection os) as [l'|msg]; [|done].
    intros [= <-]. simpl. f_equal. by apply IH.
  - done.
Qed.

End MonadFacts.

Lemma first_rejection_Throw {A} (os : list (outcome A)) msg :
  first_rejection os = Throw msg -> Throw msg ∈ os.
Proof.
  induction os as [|[a|m] os IH]; simpl.
  - done.
  - destruct (first_rejection os); [done|]. intros [= ->]. right. by apply IH.
  - intros [= ->]. by left.
Qed.

Lemma all_resolved_map_Ok {A} (os : list (outcome A)) :
  (forall o, o ∈ os -> exists a, o = Ok a) -> exists l, os = map Ok l.
Proof.
  induction os as [|o os IH]; intros Hall.
  - by exists [].
  - destruct (Hall o) as (a & ->); [by left|].
    destruct IH as (l & ->); [intros; apply Hall; by right|].
    by exists (a :: l).
Qed.

Lemma forallb_eqb_true (l : list bool) :
  forallb (fun result => Bool.eqb result true) l = true
  <-> forall b, b ∈ l -> b = true.
Proof.
  rewrite forallb_forall. split.
  - intros H b Hb. apply list_elem_of_In in Hb. apply H in Hb. by destruct b.
  - intros H b Hb. apply list_elem_of_In in Hb. by rewrite (H b Hb).
Qed.

(** ** Events of a computation *)

Section EventFacts.
Context {W : Type}.

Lemma in_events_bind {A B} (m : M W A) (k : A -> M W B) s e :
  e ∈ events (bind m k s) ->
  e ∈ events (m s)
  \/ exists a, out (m s) = Ok a /\ e ∈ events (k a (final (m s))).
Proof.
  unfold bind. destruct (out (m s)) as [a|msg] eqn:Hout; simpl.
  - rewrite elem_of_app. intros [?|?]; eauto.
  - auto.
Qed.

Lemma out_bind_Ok {A B} (m : M W A) (k : A -> M W B) s b :
  out (bind m k s) = Ok b ->
  exists a, out (m s) = Ok a /\ out (k a (final (m s))) = Ok b.
Proof.
  unfold bind. destruct (out (m s)) as [a|msg]; simpl; [eauto | done].
Qed.

Lemma in_events_call {A} (ev : Event) (op : W -> outcome A * W) s e :
  e ∈ events (call ev op s) -> e = ev.
Proof.
  unfold call. destruct (op (world s)). by intros ?%list_elem_of_singleton.
Qed.

Lemma in_events_try_catch {A} (m : M W A) (h : string -> M W A) s e :
  e ∈ events (try_catch m h s) ->
  e ∈ events (m s)
  \/ exists msg, out (m s) = Throw msg /\ e ∈ events (h msg (final (m s))).
Proof.
  unfold try_catch. destruct (out (m s)) as [a|msg] eqn:Hout; simpl.
  - auto.
  - rewrite elem_of_app. intros [?|?]; eauto.
Qed.

Lemma in_events_when (b : bool) (m : M W unit) s e :
  e ∈ events (when b m s) -> b = true /\ e ∈ events (m s).
Proof. destruct b; simpl; [done | by intros ?%elem_of_nil]. Qed.

End EventFacts.

(** Splits the membership [H] of an event in the events of a [bind]:
    either the event is one of the first computation, or that one
    returned and the event is one of the continuation. *)
Ltac in_bind H a Ha :=
  apply in_events_bind in H as [H | (a & Ha & H)].

Ltac no_event H :=
  first [ by apply elem_of_nil in H
        | apply list_elem_of_singleton in H; subst; done ].

(** ** Loops *)

Section LoopFacts.
Context {W : Type}.

Lemma for_each_snoc_events {A} (body : A -> M W unit) pre x post s :
  out (for_each pre body s) = Ok tt ->
  let s1 := final (for_each pre body s) in
  events (for_each (pre ++ x :: post) body s)
  = events (for_each pre body s) ++ events (body x s1)
    ++ match out (body x s1) with
       | Ok _ => events (for_each post body (final (body x s1)))
       | Throw _ => []
       end.
Proof.
  revert s. induction pre as [|y pre IH]; intros s Hout; simpl in *.
  - unfold bind. destruct (out (body x s)); simpl; [done | by rewrite app_nil_r].
  - unfold bind in *. destruct (out (body y s)) as [[]|msg] eqn:Hy; simpl in *.
    + rewrite IH by done. by rewrite <- !app_assoc.
    + done.
Qed.

End LoopFacts.

Lemma len_cons_pos {A} (x : A) l : (0 <? len (x :: l)) = true.
Proof. apply Z.ltb_lt. unfold len. simpl. lia. Qed.

Lemma len_cons_nonzero {A} (x : A) l : (len (x :: l) =? 0) = false.
Proof. apply Z.eqb_neq. unfold len. simpl. lia. Qed.

(** ** The index built by [mapExistingItemsByKey] *)

Lemma mapExistingItemsByKey_snoc rows r :
  mapExistingItemsByKey (rows ++ [r])
  = mapExistingItemsByKey_step (mapExistingItemsByKey rows) r.
Proof. unfold mapExistingItemsByKey. by rewrite fold_left_app. Qed.

Lemma mapExistingItemsByKey_step_skip map r :
  row_ok r = false -> mapExistingItemsByKey_step map r = map.
Proof.
  unfold row_ok, mapExistingItemsByKey_step.
  destruct (Item.user_id r) as [uid|]; [|done].
  intros E. apply andb_false_iff in E as [-> | ->]; simpl; [done|].
  by rewrite orb_true_r.
Qed.

Lemma mapExistingItemsByKey_step_keep map r :
  row_ok r = true ->
  exists uid, Item.user_id r = Some uid /\
    mapExistingItemsByKey_step map r
    = JsMap.set map (Item.key r)
        (JsMap.set (default [] (JsMap.get map (Item.key r))) uid r).
Proof.
  unfold row_ok, mapExistingItemsByKey_step.
  destruct (Item.user_id r) as [uid|]; simpl; [|by rewrite andb_false_r].
  intros [-> ->]%andb_true_iff. by exists uid.
Qed.

(** Every entry of the index is a kept row filed under its own key and
    user id, and no key has an empty user map. *)
Lemma mapExistingItemsByKey_sound rows k um :
  JsMap.get (mapExistingItemsByKey rows) k = Some um ->
  um <> [] /\
  forall uid it, (uid, it) ∈ um ->
    it ∈ rows /\ row_ok it = true /\ Item.key it = k
    /\ Item.user_id it = Some uid.
Proof.
  revert k um. induction rows as [|r rows IH] using rev_ind; intros k um.
  - discriminate.
  - rewrite mapExistingItemsByKey_snoc.
    destruct (row_ok r) eqn:Hok.
    + destruct (mapExistingItemsByKey_step_keep (mapExistingItemsByKey rows) r Hok)
        as (uid & Huid & ->).
      destruct (decide (Item.key r = k)) as [<-|Hne].
      * rewrite get_set_eq. intros [= <-]. split; [apply set_not_nil|].
        intros uid' it [[-> ->]|Hin]%elem_of_set.
        -- rewrite elem_of_app, list_elem_of_singleton. auto.
        -- destruct (JsMap.get (mapExistingItemsByKey rows) (Item.key r))
             as [um0|] eqn:Hget; simpl in Hin; [|by apply elem_of_nil in Hin].
           destruct (IH _ _ Hget) as [_ Hall].
           destruct (Hall _ _ Hin) as (? & ? & ? & ?).
           rewrite elem_of_app. auto.
      * rewrite get_set_ne by done. intros Hget.
        destruct (IH _ _ Hget) as [Hnn Hall]. split; [done|].
        intros uid' it Hin. destruct (Hall _ _ Hin) as (? & ? & ? & ?).
        rewrite elem_of_app. auto.
    + rewrite mapExistingItemsByKey_step_skip by done. intros Hget.
      destruct (IH _ _ Hget) as [Hnn Hall]. split; [done|].
      intros uid' it Hin. destruct (Hall _ _ Hin) as (? & ? & ? & ?).
      rewrite elem_of_app. auto.
Qed.

(** Every kept row is found in the index, under its key and user id. *)
Lemma mapExistingItemsByKey_complete rows r :
  r ∈ rows -> row_ok r = true ->
  exists um uid, JsMap.get (mapExistingItemsByKey rows) (Item.key r) = Some um
    /\ Item.user_id r = Some uid /\ uid ∈ JsMap.keys um.
Proof.
  induction rows as [|r0 rows IH] using rev_ind; intros Hin Hok.
  - by apply elem_of_nil in Hin.
  - rewrite mapExistingItemsByKey_snoc.
    apply elem_of_app in Hin as [Hin | Hin].
    2: apply list_elem_of_singleton in Hin; subst r0.
    + destruct (IH Hin Hok) as (um & uid & Hget & Huid & Hk).
      destruct (row_ok r0) eqn:Hok0.
      * destruct (mapExistingItemsByKey_step_keep (mapExistingItemsByKey rows) r0 Hok0)
          as (uid0 & Huid0 & ->).
        destruct (decide (Item.key r0 = Item.key r)) as [E|Hne].
        -- rewrite E, get_set_eq, Hget. simpl.
           eexists _, uid. split; [done|]. split; [done|].
           apply elem_of_keys_set. by right.
        -- rewrite get_set_ne by done. eauto.
      * rewrite mapExistingItemsByKey_step_skip by done. eauto.
    + destruct (mapExistingItemsByKey_step_keep (mapExistingItemsByKey rows) r Hok)
        as (uid & Huid & ->).
      rewrite get_set_eq. eexists _, uid. split; [done|]. split; [done|].
      apply elem_of_keys_set. by left.
Qed.

(** A key is absent from the index exactly when no kept row has it. *)
Lemma mapExistingItemsByKey_None rows k :
  JsMap.get (mapExistingItemsByKey rows) k = None
  <-> forall r, r ∈ rows -> row_ok r = true -> Item.key r <> k.
Proof.
  split.
  - intros Hget r Hin Hok <-.
    destruct (mapExistingItemsByKey_complete rows r Hin Hok) as (um & ? & E & _).
    congruence.
  - intros Hno.
    destruct (JsMap.get (mapExistingItemsByKey rows) k) as [um|] eqn:Hget; [|done].
    destruct (mapExistingItemsByKey_sound _ _ _ Hget) as [Hnn Hall].
    destruct um as [|[uid it] um]; [done|].
    destruct (Hall uid it) as (Hin & Hok & Hk & _); [by left|].
    by destruct (Hno it Hin Hok).
Qed.

(** The users filed under a key are those of the kept rows with it. *)
Lemma mapExistingItemsByKey_users rows k um uid :
  JsMap.get (mapExistingItemsByKey rows) k = Some um ->
  uid ∈ JsMap.keys um
  <-> exists r, r ∈ rows /\ row_ok r = true /\ Item.key r = k
                /\ Item.user_id r = Some uid.
Proof.
  intros Hget. split.
  - intros (it & Hin)%elem_of_keys.
    destruct (mapExistingItemsByKey_sound _ _ _ Hget) as [_ Hall].
    destruct (Hall _ _ Hin) as (? & ? & ? & ?). eauto.
  - intros (r & Hin & Hok & <- & Huid).
    destruct (mapExistingItemsByKey_complete rows r Hin Hok)
      as (um' & uid' & Hget' & Huid' & Hk).
    congruence.
Qed.

(** ** The loop of [separateNewAndExistingItems] *)

Section SeparateFacts.
Variable toISOString : nat -> string.
Variable user : Friend.
Variable idx : list (string * list (Z * Item.t)).

Lemma separate_snoc now items it :
  separateNewAndExistingItems toISOString now (items ++ [it]) user idx
  = separate_step toISOString user idx
      (separateNewAndExistingItems toISOString now items user idx) it.
Proof. unfold separateNewAndExistingItems. by rewrite fold_left_app. Qed.

Lemma separate_step_newItems acc it :
  newItems (separate_step toISOString user idx acc it)
  = newItems acc
    ++ (if JsMap.get idx (Token.id it) is None then [it] else []).
Proof.
  unfold separate_step.
  destruct (JsMap.get idx (Token.id it)) as [em|]; [|done].
  rewrite app_nil_r. destruct (negb _); [|done].
  destruct (head _); [|done]. by destruct (_ && _).
Qed.

Lemma separate_step_itemsToLink acc it :
  itemsToLink (separate_step toISOString user idx acc it)
  = itemsToLink acc
    ++ (if link_template user idx it is Some tpl
        then [createWatchlistItem toISOString (readings acc) user it tpl]
        else []).
Proof.
  unfold separate_step, link_template.
  destruct (JsMap.get idx (Token.id it)) as [em|]; [|by rewrite app_nil_r].
  destruct (negb _); [|by rewrite app_nil_r].
  destruct (head _); [|by rewrite app_nil_r].
  destruct (_ && _); [done | by rewrite app_nil_r].
Qed.

(** [newItems] holds exactly the items whose id is not in the index. *)
Lemma separate_newItems now items it :
  it ∈ newItems (separateNewAndExistingItems toISOString now items user idx)
  <-> it ∈ items /\ JsMap.get idx (Token.id it) = None.
Proof.
  induction items as [|it0 items IH] using rev_ind.
  - simpl. rewrite !elem_of_nil. tauto.
  - rewrite separate_snoc, separate_step_newItems, !elem_of_app, IH.
    rewrite list_elem_of_singleton.
    destruct (JsMap.get idx (Token.id it0)) as [em|] eqn:Hget.
    + rewrite elem_of_nil. split; [tauto|].
      intros [[?|E] Hn]; [tauto|]. subst it0. congruence.
    + rewrite list_elem_of_singleton. split; [|tauto].
      intros [?|E]; [tauto|]. subst it0. tauto.
Qed.

(** Every row of [itemsToLink] links an item that [link_template]
    accepts, from that template. *)
Lemma separate_itemsToLink_sound now items l :
  l ∈ itemsToLink (separateNewAndExistingItems toISOString now items user idx) ->
  exists it tpl t,
    it ∈ items /\ link_template user idx it = Some tpl
    /\ l = createWatchlistItem toISOString t user it tpl.
Proof.
  induction items as [|it0 items IH] using rev_ind.
  - simpl. by intros ?%elem_of_nil.
  - rewrite separate_snoc, separate_step_itemsToLink, elem_of_app.
    intros [Hin | Hin].
    + destruct (IH Hin) as (it & tpl & t & Hit & Hl & ->).
      exists it, tpl, t. rewrite elem_of_app. auto.
    + destruct (link_template user idx it0) as [tpl|] eqn:Hl;
        [|by apply elem_of_nil in Hin].
      apply list_elem_of_singleton in Hin.
      eexists it0, tpl, _. rewrite elem_of_app, list_elem_of_singleton. eauto.
Qed.

(** Every item that [link_template] accepts has its row in [itemsToLink]. *)
Lemma separate_itemsToLink_complete now items it tpl :
  it ∈ items -> link_template user idx it = Some tpl ->
  exists t, createWatchlistItem toISOString t user it tpl
            ∈ itemsToLink (separateNewAndExistingItems toISOString now items user idx).
Proof.
  induction items as [|it0 items IH] using rev_ind; intros Hin Hl.
  - by apply elem_of_nil in Hin.
  - rewrite separate_snoc, separate_step_itemsToLink.
    apply elem_of_app in Hin as [Hin|Hin].
    + destruct (IH Hin Hl) as (t & Ht). exists t. rewrite elem_of_app. auto.
    + apply list_elem_of_singleton in Hin. subst it0. rewrite Hl.
      eexists. rewrite elem_of_app, list_elem_of_singleton. eauto.
Qed.

End SeparateFacts.

(** ** What [link_template] decides, in terms of the stored rows *)

Section LinkFacts.
Variable user : Friend.
Variable rows : list Item.t.
Hypothesis rows_ok : forall r, r ∈ rows -> row_ok r = true.

Lemma index_None k :
  JsMap.get (mapExistingItemsByKey rows) k = None
  <-> forall r, r ∈ rows -> Item.key r <> k.
Proof.
  rewrite mapExistingItemsByKey_None. split; [|by auto].
  intros Hno r Hin. apply Hno; auto.
Qed.

(** The template is a stored row with the item's id as key, it has a
    title and a type, and no row with that key belongs to the user. *)
Lemma link_template_Some it tpl :
  link_template user (mapExistingItemsByKey rows) it = Some tpl ->
  tpl ∈ rows /\ Item.key tpl = Token.id it
  /\ truthy (Item.title tpl) = true /\ truthy (Item.type tpl) = true
  /\ forall r, r ∈ rows -> Item.key r = Token.id it ->
               Item.user_id r <> Some (userId user).
Proof.
  unfold link_template.
  destruct (JsMap.get _ (Token.id it)) as [em|] eqn:Hget; [|done].
  unfold JsSet.has. case_bool_decide as Hmem; [done|]. simpl.
  destruct (head (JsMap.values em)) as [t0|] eqn:Hhd; [|done].
  destruct (truthy (Item.title t0)) eqn:Ht1; [|done].
  destruct (truthy (Item.type t0)) eqn:Ht2; [|done].
  simpl. intros [= ->].
  destruct (mapExistingItemsByKey_sound _ _ _ Hget) as [_ Hall].
  apply head_Some_elem_of in Hhd. unfold JsMap.values in Hhd.
  apply list_elem_of_fmap in Hhd as ([uid x] & -> & Hin). simpl.
  destruct (Hall _ _ Hin) as (? & ? & ? & ?).
  repeat split; try done.
  intros r Hr Hk Hu. apply Hmem.
  apply (mapExistingItemsByKey_users _ _ _ _ Hget). exists r. auto.
Qed.

(** When rows with the item's id exist, none of them for the user, the
    loop picks one of them as template, and links exactly when it has a
    title and a type. *)
Lemma link_template_others it :
  (exists r, r ∈ rows /\ Item.key r = Token.id it) ->
  (forall r, r ∈ rows -> Item.key r = Token.id it ->
             Item.user_id r <> Some (userId user)) ->
  exists tpl, tpl ∈ rows /\ Item.key tpl = Token.id it
    /\ link_template user (mapExistingItemsByKey rows) it
       = if truthy (Item.title tpl) && truthy (Item.type tpl)
         then Some tpl else None.
Proof.
  intros (r0 & Hr0 & Hk0) Hothers. unfold link_template.
  destruct (JsMap.get _ (Token.id it)) as [em|] eqn:Hget.
  2:{ destruct (proj1 (index_None _) Hget r0 Hr0 Hk0). }
  destruct (mapExistingItemsByKey_sound _ _ _ Hget) as [Hnn Hall].
  unfold JsSet.has. case_bool_decide as Hmem.
  { apply (mapExistingItemsByKey_users _ _ _ _ Hget) in Hmem
      as (r & Hr & _ & Hk & Hu). by destruct (Hothers r Hr Hk). }
  simpl. destruct em as [|[uid t0] em]; [done|]. simpl.
  destruct (Hall uid t0) as (? & ? & ? & ?); [by left|].
  exists t0. auto.
Qed.

(** When a row with the item's id belongs to the user, the loop links
    nothing. *)
Lemma link_template_mine it :
  (exists r, r ∈ rows /\ Item.key r = Token.id it
             /\ Item.user_id r = Some (userId user)) ->
  link_template user (mapExistingItemsByKey rows) it = None.
Proof.
  intros (r & Hr & Hk & Hu). unfold link_template.
  destruct (JsMap.get _ (Token.id it)) as [em|] eqn:Hget; [|done].
  unfold JsSet.has. case_bool_decide as Hmem; [done|].
  destruct Hmem. apply (mapExistingItemsByKey_users _ _ _ _ Hget).
  exists r. auto.
Qed.

Lemma link_template_same_id it it' :
  Token.id it = Token.id it' ->
  link_template user (mapExistingItemsByKey rows) it
  = link_template user (mapExistingItemsByKey rows) it'.
Proof. unfold link_template. by intros ->. Qed.

End LinkFacts.

(** ** The pass over all identities: [categorizeItems] *)

Section CategorizeFacts.
Variable toISOString : nat -> string.
Variable idx : list (string * list (Z * Item.t)).

Lemma categorize_fold_snoc acc uwm e :
  fold_left (categorize_step toISOString idx) (uwm ++ [e]) acc
  = categorize_step toISOString idx
      (fold_left (categorize_step toISOString idx) uwm acc) e.
Proof. by rewrite fold_left_app. Qed.

(** Each entry of [brandNewItems] is the non-empty [newItems] of one
    identity of the pass. *)
Lemma categorize_brandNew_sound now uwm u news :
  (u, news) ∈ brandNewItems
    (fold_left (categorize_step toISOString idx) uwm (mkCategorized [] [] now)) ->
  exists items t, (u, items) ∈ uwm
    /\ news = newItems (separateNewAndExistingItems toISOString t items u idx).
Proof.
  induction uwm as [|[u0 items0] uwm IH] using rev_ind.
  - simpl. by intros ?%elem_of_nil.
  - rewrite categorize_fold_snoc. unfold categorize_step at 1. simpl.
    set (c := fold_left _ uwm _) in *.
    intros Hin.
    assert ((u, news) ∈ brandNewItems c \/
            (u, news) = (u0, newItems
               (separateNewAndExistingItems toISOString (clock c) items0 u0 idx)))
      as [Hold | Hnew].
    { destruct (0 <? _); [|by left].
      apply elem_of_app in Hin as [?|?%list_elem_of_singleton]; auto. }
    + destruct (IH Hold) as (items & t & Hm & ->).
      exists items, t. rewrite elem_of_app. auto.
    + injection Hnew as -> ->. exists items0, (clock c).
      rewrite elem_of_app, list_elem_of_singleton. auto.
Qed.

(** Each identity whose [newItems] is not empty has it in
    [brandNewItems]. *)
Lemma categorize_brandNew_complete now uwm u items :
  (u, items) ∈ uwm ->
  exists t,
    let news := newItems (separateNewAndExistingItems toISOString t items u idx) in
    news <> [] ->
    (u, news) ∈ brandNewItems
      (fold_left (categorize_step toISOString idx) uwm (mkCategorized [] [] now)).
Proof.
  induction uwm as [|[u0 items0] uwm IH] using rev_ind; intros Hin.
  - by apply elem_of_nil in Hin.
  - rewrite categorize_fold_snoc. unfold categorize_step at 1. simpl.
    set (c := fold_left _ uwm _) in *.
    apply elem_of_app in Hin as [Hin|Hin].
    + destruct (IH Hin) as (t & Ht). exists t. intros Hne.
      destruct (0 <? _); [rewrite elem_of_app|]; auto.
    + apply list_elem_of_singleton in Hin. injection Hin as -> ->.
      exists (clock c). intros Hne.
      destruct (newItems _) as [|x xs] eqn:E; [done|]. simpl.
      rewrite elem_of_app, list_elem_of_singleton. auto.
Qed.

Lemma categorize_toLink_sound now uwm u links :
  (u, links) ∈ existingItemsToLink
    (fold_left (categorize_step toISOString idx) uwm (mkCategorized [] [] now)) ->
  exists items t, (u, items) ∈ uwm
    /\ links = itemsToLink (separateNewAndExistingItems toISOString t items u idx).
Proof.
  induction uwm as [|[u0 items0] uwm IH] using rev_ind.
  - simpl. by intros ?%elem_of_nil.
  - rewrite categorize_fold_snoc. unfold categorize_step at 1. simpl.
    set (c := fold_left _ uwm _) in *.
    intros Hin.
    assert ((u, links) ∈ existingItemsToLink c \/
            (u, links) = (u0, itemsToLink
               (separateNewAndExistingItems toISOString (clock c) items0 u0 idx)))
      as [Hold | Hnew].
    { destruct (0 <? Z.of_nat (length (itemsToLink _))); [|by left].
      apply elem_of_app in Hin as [?|?%list_elem_of_singleton]; auto. }
    + destruct (IH Hold) as (items & t & Hm & ->).
      exists items, t. rewrite elem_of_app. auto.
    + injection Hnew as -> ->. exists items0, (clock c).
      rewrite elem_of_app, list_elem_of_singleton. auto.
Qed.

Lemma categorize_toLink_complete now uwm u items :
  (u, items) ∈ uwm ->
  exists t,
    let links := itemsToLink (separateNewAndExistingItems toISOString t items u idx) in
    links <> [] ->
    (u, links) ∈ existingItemsToLink
      (fold_left (categorize_step toISOString idx) uwm (mkCategorized [] [] now)).
Proof.
  induction uwm as [|[u0 items0] uwm IH] using rev_ind; intros Hin.
  - by apply elem_of_nil in Hin.
  - rewrite categorize_fold_snoc. unfold categorize_step at 1. simpl.
    set (c := fold_left _ uwm _) in *.
    apply elem_of_app in Hin as [Hin|Hin].
    + destruct (IH Hin) as (t & Ht). exists t. intros Hne.
      destruct (0 <? Z.of_nat (length (itemsToLink _))); [rewrite elem_of_app|]; auto.
    + apply list_elem_of_singleton in Hin. injection Hin as -> ->.
      exists (clock c). intros Hne.
      destruct (itemsToLink _) as [|x xs] eqn:E; [done|]. simpl.
      rewrite elem_of_app, list_elem_of_singleton. auto.
Qed.

End CategorizeFacts.

(** C1, refuted as stated. [token1] has a stored row with guids ["x:1"]
    under key ["k1"].  In one pass [token1] reports that item again and
    [token2] reports an item with the same guids under the id ["k2"].  No
    row with the id ["k2"] is stored for [token2], a row of another user
    shares a guid with its raw item, and yet the item is classified
    brand-new and nothing is linked. *)
Lemma C1_counterexample :
  let pass := [(token1, [raw_dune "k1"]); (token2, [raw_dune "k2"])] in
  let c := categorizeItems sample_iso 0 pass [row_dune] in
  (forall row, row ∈ [row_dune] -> Item.key row = Token.id (raw_dune "k2") ->
               Item.user_id row <> Some (userId token2))
  /\ Item.user_id row_dune <> Some (userId token2)
  /\ spec_same_content (Item.guids row_dune)
       (Item.guids (Token.item (raw_dune "k2")))
  /\ brandNewItems c = [(token2, [raw_dune "k2"])]
  /\ existingItemsToLink c = [].
Proof.
  repeat split.
  - intros row ->%list_elem_of_singleton. discriminate.
  - discriminate.
  - exists "x:1". split; by left.
Qed.

(** C1, amended. Whether a raw item is linked is decided by its id
    alone. In a pass over stored rows that carry a key and a user id:
    when rows with the item's id as key exist, all for other users and
    with a title and a type, the reporting identity gets a linked row for
    that id and the item is in no brand-new set; when no row has the
    item's id as key, the item is in the identity's brand-new set and no
    row is linked for that id, whatever its guids are. *)
Theorem C1_linking_is_by_key
    (toISOString : nat -> string) (now : nat)
    (userWatchlistMap : list (Friend * list Token.t)) (rows : list Item.t)
    (user : Friend) (items : list Token.t) (item : Token.t) :
  (forall r, r ∈ rows -> row_ok r = true) ->
  (user, items) ∈ userWatchlistMap ->
  item ∈ items ->
  let c := categorizeItems toISOString now userWatchlistMap rows in
  ((exists row, row ∈ rows /\ Item.key row = Token.id item) ->
   (forall row, row ∈ rows -> Item.key row = Token.id item ->
      Item.user_id row <> Some (userId user)
      /\ truthy (Item.title row) = true /\ truthy (Item.type row) = true) ->
   (exists links l, (user, links) ∈ existingItemsToLink c /\ l ∈ links
      /\ Item.key l = Token.id item /\ Item.user_id l = Some (userId user))
   /\ (forall news, (user, news) ∈ brandNewItems c -> item ∉ news))
  /\ ((forall row, row ∈ rows -> Item.key row <> Token.id item) ->
      (exists news, (user, news) ∈ brandNewItems c /\ item ∈ news)
      /\ (forall links l, (user, links) ∈ existingItemsToLink c -> l ∈ links ->
            Item.key l <> Token.id item)).
Proof.
  intros Hok Hentry Hin c. subst c. unfold categorizeItems.
  set (idx := mapExistingItemsByKey rows).
  split.
  - intros (row0 & Hr0 & Hk0) Hall. split.
    + destruct (link_template_others user rows Hok item) as (tpl & Ht & Hk & Hl).
      { eauto. } { intros r Hr Hkr. by apply Hall. }
      destruct (Hall tpl Ht Hk) as (_ & Ht1 & Ht2).
      rewrite Ht1, Ht2 in Hl. simpl in Hl.
      destruct (categorize_toLink_complete toISOString idx now _ _ _ Hentry)
        as (t & Hc).
      destruct (separate_itemsToLink_complete toISOString user idx t items item tpl Hin Hl)
        as (t' & Hmem).
      eexists _, _. split; [apply Hc | split; [exact Hmem | by split]].
      intros E. rewrite E in Hmem. by apply elem_of_nil in Hmem.
    + intros news Hn Hmem.
      apply categorize_brandNew_sound in Hn as (items' & t & _ & ->).
      apply separate_newItems in Hmem as [_ Hnone].
      by destruct (proj1 (index_None rows Hok _) Hnone row0 Hr0).
  - intros Hnone. apply (index_None rows Hok) in Hnone. split.
    + destruct (categorize_brandNew_complete toISOString idx now _ _ _ Hentry)
        as (t & Hc).
      assert (Hmem : item ∈ newItems
                (separateNewAndExistingItems toISOString t items user idx)).
      { by apply separate_newItems. }
      eexists. split; [apply Hc | exact Hmem].
      intros E. rewrite E in Hmem. by apply elem_of_nil in Hmem.
    + intros links l Hl Hmem Hkl.
      apply categorize_toLink_sound in Hl as (items' & t & _ & ->).
      apply separate_itemsToLink_sound in Hmem as (it & tpl & t' & _ & Hlt & ->).
      simpl in Hkl. unfold link_template in Hlt. fold idx in Hlt.
      rewrite Hkl in Hlt. fold idx in Hnone. by rewrite Hnone in Hlt.
Qed.

Lemma C1_linking_is_by_key_witness :
  let c := categorizeItems sample_iso 0 [(token2, [raw_dune "k1"])] [row_dune] in
  exists links l, (token2, links) ∈ existingItemsToLink c /\ l ∈ links
    /\ Item.key l = "k1" /\ Item.user_id l = Some 2.
Proof.
  apply (C1_linking_is_by_key sample_iso 0 [(token2, [raw_dune "k1"])]
           [row_dune] token2 [raw_dune "k1"] (raw_dune "k1")).
  - intros r ->%list_elem_of_singleton. reflexivity.
  - by left.
  - by left.
  - exists row_dune. split; [by left | reflexivity].
  - intros row ->%list_elem_of_singleton _. by repeat split.
Defined.

(** C2. For an identity and each of its raw items, over stored rows that
    carry a key and a user id: the item is brand-new exactly when no
    stored row has its id as key; when rows with that key exist, all of
    them for other users, one of them serves as template and a row for
    this user is synthesized with the template's title, type, thumb,
    guids and genres (an absent guids or genres becoming the empty
    array), unless the template lacks a title or a type, in which case no
    row is linked for that id; and when a row for this user and key
    exists, the item is neither new nor linked. *)
Theorem C2_categorization
    (toISOString : nat -> string) (now : nat) (user : Friend)
    (rows : list Item.t) (items : list Token.t) (item : Token.t) :
  (forall r, r ∈ rows -> row_ok r = true) ->
  item ∈ items ->
  let r := separateNewAndExistingItems toISOString now items user
             (mapExistingItemsByKey rows) in
  let same_key row := row ∈ rows /\ Item.key row = Token.id item in
  let mine row := Item.user_id row = Some (userId user) in
  (item ∈ newItems r <-> ~ exists row, same_key row)
  /\ ((exists row, same_key row) ->
      (forall row, same_key row -> ~ mine row) ->
      exists tpl, same_key tpl /\
        if truthy (Item.title tpl) && truthy (Item.type tpl)
        then exists l, l ∈ itemsToLink r
               /\ Item.user_id l = Some (userId user)
               /\ Item.key l = Token.id item
               /\ Item.title l = Item.title tpl
               /\ Item.type l = Item.type tpl
               /\ Item.thumb l = Item.thumb tpl
               /\ Item.guids l = Some (or_empty (Item.guids tpl))
               /\ Item.genres l = Some (or_empty (Item.genres tpl))
               /\ Item.status l = Some pending
        else forall l, l ∈ itemsToLink r -> Item.key l <> Token.id item)
  /\ ((exists row, same_key row /\ mine row) ->
      (item ∉ newItems r)
      /\ forall l, l ∈ itemsToLink r -> Item.key l <> Token.id item).
Proof.
  intros Hok Hin r same_key mine. subst r same_key mine. simpl.
  split; [|split].
  - rewrite separate_newItems, (index_None rows Hok). split.
    + intros [_ Hno] (row & Hr & Hk). by destruct (Hno row Hr).
    + intros Hno. split; [done|]. intros row Hr Hk. apply Hno. eauto.
  - intros Hex Hothers.
    destruct (link_template_others user rows Hok item) as (tpl & Ht & Hk & Hl).
    { done. } { intros row Hr Hkr. apply Hothers. auto. }
    exists tpl. split; [done|].
    destruct (truthy (Item.title tpl) && truthy (Item.type tpl)).
    + destruct (separate_itemsToLink_complete toISOString user _ now items item tpl Hin Hl)
        as (t & Hmem).
      eexists. split; [exact Hmem|]. by repeat split.
    + intros l Hmem Hkl.
      apply separate_itemsToLink_sound in Hmem as (it & tpl' & t & _ & Hl' & ->).
      simpl in Hkl.
      rewrite (link_template_same_id user rows it item Hkl) in Hl'. congruence.
  - intros (row & [Hr Hk] & Hu).
    assert (Hnone : link_template user (mapExistingItemsByKey rows) item = None).
    { apply link_template_mine; eauto. }
    split.
    + rewrite separate_newItems, (index_None rows Hok).
      intros [_ Hno]. by destruct (Hno row Hr).
    + intros l Hmem Hkl.
      apply separate_itemsToLink_sound in Hmem as (it & tpl' & t & _ & Hl' & ->).
      simpl in Hkl.
      rewrite (link_template_same_id user rows it item Hkl) in Hl'. congruence.
Qed.

Lemma C2_categorization_witness :
  let r := separateNewAndExistingItems sample_iso 0 [raw_dune "k1"] token2
             (mapExistingItemsByKey [row_dune]) in
  newItems r = []
  /\ exists l, l ∈ itemsToLink r /\ Item.title l = "Dune"
               /\ Item.guids l = Some (StrArray ["x:1"]).
Proof.
  pose proof (C2_categorization sample_iso 0 token2 [row_dune]
                [raw_dune "k1"] (raw_dune "k1")) as H.
  destruct H as (_ & Hlink & _).
  - intros r ->%list_elem_of_singleton. reflexivity.
  - by left.
  - split; [reflexivity|].
    destruct Hlink as (tpl & [Ht _] & Hl).
    + exists row_dune. split; [by left | reflexivity].
    + intros row [->%list_elem_of_singleton _]. discriminate.
    + apply list_elem_of_singleton in Ht. subst tpl. simpl in Hl.
      destruct Hl as (l & Hin & _ & _ & Ht & _ & _ & Hg & _).
      exists l. auto.
Defined.

(** ** The queue processor *)

(** C3, refuted as stated. The last item was queued at time 0, the
    queue is not empty, no refresh runs, and the tick reads the clock at
    60000: the elapsed time does not exceed the threshold, and the
    refresh starts. *)
Lemma C3_counterexample :
  let w := mkWorkflow true true 0
             [mkObj 0%nat (tempt_of (rss_item "g1" "Dune"))] [] [] false in
  let st := mkState (mkSampleWorld [] [] false) 60 1 in
  Date_now sample_collab (tick st) - lastQueueItemTime w = 60000
  /\ ~ (60000 < Date_now sample_collab (tick st) - lastQueueItemTime w)
  /\ out (queueTick_enter sample_collab w st)
     = Ok (mkWorkflow true true 0 [] [] [] true, true).
Proof. repeat split. simpl. lia. Qed.

Section QueueProcessor.
Context {W : Type} (C : Collab W) (config : Config).

(** What the tick decides, by cases. *)
Lemma queueTick_enter_out w (st : State W) :
  out (queueTick_enter C w st)
  = Ok (if negb (isRefreshing w)
           && (60000 <=? Date_now C (tick st) - lastQueueItemTime w)
           && (0 <? len (changeQueue w))
        then (set_changeQueue (set_isRefreshing w true) [], true)
        else (w, false)).
Proof.
  unfold queueTick_enter. destruct (isRefreshing w); [done|].
  unfold bind, read_clock. cbn [out final events negb andb].
  by destruct (_ && _).
Qed.

Lemma queueTick_exit_out w (o : outcome unit) (s : State W) :
  out (queueTick_exit w o s) = Ok (set_isRefreshing w false).
Proof. by destruct o. Qed.

Lemma queueTick_out w (st : State W) :
  exists w', out (queueTick C config w st) = Ok w'
    /\ (isRefreshing w' = true -> isRefreshing w = true /\ w' = w).
Proof.
  unfold queueTick.
  rewrite (bind_Ok _ _ _ _ (queueTick_enter_out w st)). cbn [out].
  destruct (negb (isRefreshing w) && _ && _) eqn:Hstart; cbn [snd fst].
  - rewrite (bind_Ok _ _ _ (out (fetchWatchlists C config
                                   (final (queueTick_enter C w st)))))
      by done.
    rewrite queueTick_exit_out. eexists. split; [done|]. done.
  - exists w. split; [done|]. done.
Qed.

End QueueProcessor.

(** C3, amended. On a tick of the queue processor a refresh starts
    exactly when no refresh is in progress, the queue is not empty and
    at least 60000 ms have passed since the last queued item; starting
    sets the guard and empties the queue, and a tick that does not start
    changes nothing.  When the awaited refresh settles, returned or
    thrown, the rest of the callback returns with the guard released; so
    a whole tick never throws and never leaves a guard set that it found
    released. *)
Theorem C3_queue_processor {W} (C : Collab W) (config : Config)
    (w : Workflow) (st : State W) :
  let elapsed := Date_now C (tick st) - lastQueueItemTime w in
  (forall w', out (queueTick_enter C w st) = Ok (w', true) <->
     isRefreshing w = false /\ 60000 <= elapsed /\ changeQueue w <> []
     /\ w' = set_changeQueue (set_isRefreshing w true) [])
  /\ (forall w', out (queueTick_enter C w st) = Ok (w', true) ->
      changeQueue w' = [] /\ isRefreshing w' = true)
  /\ ((exists w', out (queueTick_enter C w st) = Ok (w', true))
      \/ queueTick_enter C w st = mkResult (Ok (w, false)) (final (queueTick_enter C w st)) [])
  /\ (forall w1 (o : outcome unit) (s : State W),
        out (queueTick_exit w1 o s) = Ok (set_isRefreshing w1 false)
        /\ isRefreshing (set_isRefreshing w1 false) = false)
  /\ (exists w2, out (queueTick C config w st) = Ok w2
        /\ (isRefreshing w = false -> isRefreshing w2 = false)).
Proof.
  intros elapsed.
  assert (Hstart : negb (isRefreshing w) && (60000 <=? elapsed)
                   && (0 <? len (changeQueue w)) = true
                   <-> isRefreshing w = false /\ 60000 <= elapsed
                       /\ changeQueue w <> []).
  { rewrite !andb_true_iff, negb_true_iff, Z.leb_le, Z.ltb_lt.
    assert (0 < len (changeQueue w) <-> changeQueue w <> []) as ->.
    { unfold len. destruct (changeQueue w); simpl; split; intros; try done; lia. }
    tauto. }
  split; [|split; [|split; [|split]]].
  - intros w'. rewrite queueTick_enter_out. fold elapsed.
    destruct (negb (isRefreshing w) && _ && _).
    + split.
      * intros [= <-]. by destruct (proj1 Hstart eq_refl) as (? & ? & ?).
      * by intros (_ & _ & _ & ->).
    + split; [done|]. intros (H1 & H2 & H3 & _).
      by pose proof (proj2 Hstart (conj H1 (conj H2 H3))).
  - intros w'. rewrite queueTick_enter_out. fold elapsed.
    destruct (negb (isRefreshing w) && _ && _); [|done]. by intros [= <-].
  - pose proof (queueTick_enter_out C w st) as Hout. fold elapsed in Hout.
    destruct (negb (isRefreshing w) && _ && _) eqn:Hb; [left; eauto|].
    right. unfold queueTick_enter in *. destruct (isRefreshing w); [done|].
    unfold bind, read_clock in *. cbn [out final events negb andb] in *.
    fold elapsed in Hb |- *. simpl in Hb. by rewrite Hb.
  - intros w1 o s. by rewrite queueTick_exit_out.
  - destruct (queueTick_out C config w st) as (w2 & Hout & Hg).
    exists w2. split; [done|]. intros Hw.
    destruct (isRefreshing w2) eqn:E; [|done].
    destruct (Hg eq_refl) as [Hw' _]. congruence.
Qed.

Example queueTick_survives_failed_refresh :
  let w := mkWorkflow true true 0
             [mkObj 0%nat (tempt_of (rss_item "g1" "Dune"))] [] [] false in
  let r := queueTick sample_collab (mkConfig [] None) w
             (mkState (mkSampleWorld [] [] false) 61 1) in
  out r = Ok (mkWorkflow true true 0 [] [] [] false)
  /\ events r
     = [ Log info "One minute since last new item, refreshing watchlists" [];
         Log info "Refreshing watchlists" [];
         Log error "Error refreshing watchlists:" [];
         Log error "Error during watchlist refresh:" [] ].
Proof. split; reflexivity. Qed.

(** ** The RSS Change-Detector *)

Section DetectFacts.
Context {W : Type}.

(** The four comparisons of [hasChanged] are comparisons of values:
    two genre arrays have the same JSON text only when they are equal. *)
Lemma hasChanged_spec p c : hasChanged p c = true <-> spec_differs p c.
Proof.
  unfold hasChanged, spec_differs.
  rewrite !orb_true_iff, !negb_true_iff, !bool_decide_eq_false.
  assert (Json.stringify (Wl.genres p) <> Json.stringify (Wl.genres c)
          <-> Wl.genres p <> Wl.genres c) as ->.
  { split; intros Hne E; apply Hne; [by rewrite E | by apply stringify_inj]. }
  tauto.
Qed.

Lemma ObjSet_add_fresh {A} (s : list (Obj A)) (o : Obj A) n :
  Forall (fun x => (ref x < n)%nat) s -> ref o = n -> ObjSet.add s o = s ++ [o].
Proof.
  intros Hs Ho. unfold ObjSet.add, ObjSet.has.
  rewrite bool_decide_eq_false_2; [done|].
  intros (x & Hx & Hin)%list_elem_of_fmap.
  rewrite Forall_forall in Hs. apply Hs in Hin. lia.
Qed.

(** One turn of the first loop. *)
Lemma detect_entry_run prev acc e (s : State W) :
  Forall (fun x => (ref x < heap s)%nat) acc ->
  let r := detect_entry prev acc e s in
  let emitted := if decide (spec_is_change prev e) then [tempt_of e.2] else [] in
  exists news,
    out r = Ok (acc ++ news)
    /\ map val news = emitted
    /\ map ref news = seq (heap s) (length emitted)
    /\ final r = mkState (world s) (tick s) (heap s + length emitted)%nat
    /\ events r = spec_change_log prev e.
Proof.
  intros Hacc. destruct e as [guid cur]. unfold detect_entry, spec_change_log.
  cbn [fst snd].
  assert (Hspec : spec_is_change prev (guid, cur)
                  <-> match JsMap.get prev guid with
                      | None => True
                      | Some p => spec_differs p cur
                      end) by done.
  destruct (JsMap.get prev guid) as [p|] eqn:Hget.
  - destruct (hasChanged p cur) eqn:Hch.
    + apply hasChanged_spec in Hch.
      rewrite (decide_True (P := spec_is_change _ _)) by (by apply Hspec).
      rewrite (decide_True (P := spec_differs _ _)) by done.
      exists [mkObj (heap s) (tempt_of cur)].
      unfold bind, log_with, convertToTempItem, alloc, ret; simpl.
      rewrite (ObjSet_add_fresh acc _ (heap s)) by done.
      repeat split. by rewrite Nat.add_1_r.
    + assert (~ spec_differs p cur) as Hno.
      { intros Hd%hasChanged_spec. congruence. }
      rewrite (decide_False (P := spec_is_change _ _)) by (by rewrite Hspec).
      rewrite (decide_False (P := spec_differs _ _)) by done.
      exists []. simpl.
      rewrite app_nil_r, Nat.add_0_r. by destruct s.
  - rewrite (decide_True (P := spec_is_change _ _)) by (by apply Hspec).
    exists [mkObj (heap s) (tempt_of cur)].
    unfold bind, log_with, convertToTempItem, alloc, ret; simpl.
    rewrite (ObjSet_add_fresh acc _ (heap s)) by done.
    repeat split. by rewrite Nat.add_1_r.
Qed.

(** The first loop: the changes, in the order of the current snapshot,
    each a new object. *)
Lemma detect_loop prev cur acc (s : State W) :
  Forall (fun x => (ref x < heap s)%nat) acc ->
  let r := foldM (detect_entry prev) cur acc s in
  exists news,
    out r = Ok (acc ++ news)
    /\ map val news = map (fun e => tempt_of e.2) (filter (spec_is_change prev) cur)
    /\ map ref news = seq (heap s) (length news)
    /\ final r = mkState (world s) (tick s) (heap s + length news)%nat
    /\ events r = flat_map (spec_change_log prev) cur.
Proof.
  revert acc s. induction cur as [|e cur IH]; intros acc s Hacc.
  - exists []. simpl. rewrite app_nil_r, Nat.add_0_r. by destruct s.
  - destruct (detect_entry_run prev acc e s Hacc)
      as (news1 & Hout1 & Hval1 & Href1 & Hfin1 & Hev1).
    assert (Hlen1 : length (if decide (spec_is_change prev e)
                            then [tempt_of e.2] else [])
                    = length news1).
    { by rewrite <- Hval1, length_map. }
    rewrite Hlen1 in Href1, Hfin1.
    cbn [foldM]. rewrite (bind_Ok _ _ _ _ Hout1). cbn [out final events].
    rewrite Hfin1, Hev1.
    destruct (IH (acc ++ news1)
                (mkState (world s) (tick s) (heap s + length news1)))
      as (news2 & Hout2 & Hval2 & Href2 & Hfin2 & Hev2).
    { apply Forall_app. split.
      - eapply Forall_impl; [exact Hacc|]. simpl. intros; lia.
      - apply Forall_forall. intros x Hx.
        assert (ref x ∈ map ref news1) as Hr by (apply list_elem_of_fmap; eauto).
        rewrite Href1 in Hr. apply list_elem_of_In, in_seq in Hr. simpl. lia. }
    exists (news1 ++ news2). rewrite Hout2, Hfin2, Hev2.
    cbn [world tick heap] in *.
    repeat split.
    + by rewrite app_assoc.
    + rewrite map_app, Hval1, Hval2, filter_cons.
      by destruct (decide (spec_is_change prev e)).
    + by rewrite map_app, Href1, Href2, length_app, seq_app.
    + by rewrite length_app, Nat.add_assoc.
Qed.

(** The second loop logs the entries of the previous snapshot whose guid
    is gone, and does nothing else. *)
Lemma removed_loop (prev cur : list (string * Wl.t)) (s : State W) :
  for_each prev
    (fun entry =>
       if negb (JsMap.has cur entry.1)
       then log_with debug "Removed item detected" [entry.1; Wl.title entry.2]
       else ret tt) s
  = mkResult (Ok tt) s
      (map spec_removed_log (filter (fun e => JsMap.get cur e.1 = None) prev)).
Proof.
  induction prev as [|e prev IH]; [done|].
  cbn [for_each]. rewrite filter_cons. unfold bind at 1.
  destruct (JsMap.has cur e.1) eqn:Hh; unfold JsMap.has in Hh;
    destruct (JsMap.get cur e.1) as [c|] eqn:Hget; try discriminate Hh;
    cbn [negb ret log_with out final events].
  - rewrite decide_False by done. by rewrite IH.
  - rewrite decide_True by done. by rewrite IH.
Qed.

End DetectFacts.

(** The snapshot files each item under its first guid; an item without
    a guid is not in it. *)
Lemma createItemMap_entries (items : list Wl.t) g item :
  (g, item) ∈ createItemMap items ->
  item ∈ items /\ exists rest, Wl.guids item = Some (g :: rest).
Proof.
  unfold createItemMap.
  induction items as [|x items IH] using rev_ind; [by intros ?%elem_of_nil|].
  rewrite fold_left_app. cbn [fold_left]. rewrite elem_of_app.
  destruct (Wl.guids x) as [[|g0 rest]|] eqn:Hg.
  - intros [? ?]%IH. eauto.
  - intros [[-> ->]|Hin]%elem_of_set.
    + rewrite list_elem_of_singleton. eauto.
    + destruct (IH Hin). eauto.
  - intros [? ?]%IH. eauto.
Qed.

(** The whole of [detectChanges]. *)
Lemma detectChanges_run {W} (prev cur : list (string * Wl.t)) (st : State W) :
  let r := detectChanges prev cur st in
  exists changes,
    out r = Ok changes
    /\ map val changes
       = map (fun e => tempt_of e.2) (filter (spec_is_change prev) cur)
    /\ map ref changes = seq (heap st) (length changes)
    /\ final r = mkState (world st) (tick st) (heap st + length changes)%nat
    /\ events r
       = flat_map (spec_change_log prev) cur
         ++ map spec_removed_log (filter (fun e => JsMap.get cur e.1 = None) prev)
         ++ (if changes is [] then [] else [Log info "Detected RSS feed changes" []]).
Proof.
  intros r. subst r. unfold detectChanges.
  destruct (detect_loop prev cur [] st) as (changes & Hout & Hval & Href & Hfin & Hev);
    [done|].
  simpl in Hout. exists changes.
  rewrite (bind_Ok _ _ _ _ Hout). cbn [out final events]. rewrite Hfin, Hev.
  rewrite (bind_Ok _ _ _ tt) by (by rewrite removed_loop).
  rewrite removed_loop. cbn [out final events].
  assert (Hwhen : when (0 <? len changes) (log info "Detected RSS feed changes")
                    (mkState (world st) (tick st) (heap st + length changes))
                  = mkResult (Ok tt)
                      (mkState (world st) (tick st) (heap st + length changes))
                      (if changes is [] then []
                       else [Log info "Detected RSS feed changes" []])).
  { destruct changes; [done|]. by rewrite len_cons_pos. }
  rewrite (bind_Ok _ _ _ tt) by (by rewrite Hwhen).
  rewrite Hwhen. cbn [out final events ret world].
  repeat split; try done. by rewrite app_nil_r.
Qed.

Lemma spec_change_log_is_log prev e : Forall is_log (spec_change_log prev e).
Proof.
  unfold spec_change_log. destruct (JsMap.get prev e.1); [|by repeat constructor].
  destruct (decide _); by repeat constructor.
Qed.

(** The detector only writes to the log. *)
Lemma detectChanges_logs {W} (prev cur : list (string * Wl.t)) (st : State W) :
  Forall is_log (events (detectChanges prev cur st)).
Proof.
  destruct (detectChanges_run prev cur st) as (changes & _ & _ & _ & _ & ->).
  rewrite !Forall_app. repeat split.
  - induction cur as [|e cur IH]; simpl; [done|].
    apply Forall_app. split; [apply spec_change_log_is_log | done].
  - apply Forall_fmap, Forall_true. by intros [g item].
  - destruct changes; by repeat constructor.
Qed.

(** C4. On a poll, with [prev] and [cur] the previous and the current
    snapshot, [detectChanges] returns, in the order of [cur] and each as
    a new object, the conversions of exactly the entries of [cur] that
    are absent from [prev] or present there with a different title,
    type, thumb or genres (genres compared as values).  It calls no
    collaborator: its events are log lines, one per change, one
    ["Removed item detected"] per entry of [prev] whose guid is not in
    [cur], and a summary when there is a change.  An entry only in
    [prev] is thus logged and nothing else: the changes come from [cur]
    alone, and no storage call is made. *)
Theorem C4_detectChanges {W} (prev cur : list (string * Wl.t)) (st : State W) :
  let r := detectChanges prev cur st in
  exists changes,
    out r = Ok changes
    /\ map val changes
       = map (fun e => tempt_of e.2) (filter (spec_is_change prev) cur)
    /\ map ref changes = seq (heap st) (length changes)
    /\ world (final r) = world st
    /\ events r
       = flat_map (spec_change_log prev) cur
         ++ map spec_removed_log (filter (fun e => JsMap.get cur e.1 = None) prev)
         ++ (if changes is [] then [] else [Log info "Detected RSS feed changes" []])
    /\ Forall is_log (events r)
    /\ (forall e, spec_is_change prev e <->
          JsMap.get prev e.1 = None
          \/ exists p, JsMap.get prev e.1 = Some p
               /\ (Wl.title p <> Wl.title e.2 \/ Wl.type p <> Wl.type e.2
                   \/ Wl.thumb p <> Wl.thumb e.2 \/ Wl.genres p <> Wl.genres e.2)).
Proof.
  intros r. subst r.
  destruct (detectChanges_run prev cur st) as (changes & Hout & Hval & Href & Hfin & Hev).
  exists changes. rewrite Hfin. repeat split; try done.
  - apply detectChanges_logs.
  - unfold spec_is_change. destruct (JsMap.get prev e.1) as [p|]; [|by left].
    intros Hd. right. by exists p.
  - unfold spec_is_change. intros [Hn | (p & Hp & Hd)].
    + by rewrite Hn.
    + by rewrite Hp.
Qed.

Example detectChanges_modified_title :
  let prev := createItemMap [rss_item "g1" "Old"] in
  let cur := createItemMap [rss_item "g1" "New"] in
  let st := sample_state (mkSampleWorld [] [] false) in
  out (detectChanges prev cur st) = Ok [mkObj 0 (tempt_of (rss_item "g1" "New"))]
  /\ out (detectChanges cur cur (final (detectChanges prev cur st))) = Ok [].
Proof. split; reflexivity. Qed.

Example detectChanges_removed_only_logged :
  let prev := createItemMap [rss_item "g1" "Old"; rss_item "g2" "Gone"] in
  let cur := createItemMap [rss_item "g1" "Old"] in
  let r := detectChanges prev cur (sample_state (mkSampleWorld [] [] false)) in
  out r = Ok [] /\ events r = [Log debug "Removed item detected" ["g2"; "Gone"]].
Proof. split; reflexivity. Qed.

(** A poll deletes nothing: the events of [processRssResults] are log
    lines, the writes of the changes to the pending store, and the genre
    resync. *)
Section PollFacts.
Context {W : Type} (C : Collab W).

Lemma storeRssWatchlistItems_no_delete items source (s : State W) e :
  e ∈ events (storeRssWatchlistItems C items source s) -> ~ is_delete e.
Proof.
  unfold storeRssWatchlistItems. intros Hin.
  destruct (0 <? len _); [|by apply elem_of_nil in Hin].
  in_bind Hin u1 Hu1; [apply in_events_call in Hin as ->; by intros []|].
  in_bind Hin u2 Hu2; [apply in_events_call in Hin as ->; by intros []|].
  apply list_elem_of_singleton in Hin as ->. by intros [].
Qed.

Lemma addToQueue_no_delete w items source (s : State W) e :
  e ∈ events (addToQueue C w items source s) -> ~ is_delete e.
Proof.
  unfold addToQueue. intros Hin.
  destruct (fold_left enqueue items (changeQueue w, false)).2;
    [|by apply elem_of_nil in Hin].
  in_bind Hin t Ht; [by apply elem_of_nil in Hin|].
  in_bind Hin u1 Hu1; [apply list_elem_of_singleton in Hin as ->; by intros []|].
  in_bind Hin u2 Hu2; [|by apply elem_of_nil in Hin].
  apply in_events_try_catch in Hin as [Hin | (msg & _ & Hin)].
  - in_bind Hin u3 Hu3; [by eapply storeRssWatchlistItems_no_delete|].
    apply list_elem_of_singleton in Hin as ->. by intros [].
  - apply list_elem_of_singleton in Hin as ->. by intros [].
Qed.

Lemma poll_source_no_delete w prev wl source
    (update : Workflow -> list (string * Wl.t) -> Workflow) (s : State W) e :
  e ∈ events
        ((changes <- detectChanges prev (createItemMap wl) ;;
          w' <- (if 0 <? len changes then addToQueue C w changes source else ret w) ;;
          ret (update w' (createItemMap wl))) s) ->
  ~ is_delete e.
Proof.
  intros Hin.
  in_bind Hin changes Hc.
  { pose proof (detectChanges_logs prev (createItemMap wl) s) as Hlogs.
    rewrite Forall_forall in Hlogs. apply Hlogs in Hin. by destruct e; intros []. }
  in_bind Hin w' Hw'; [|by apply elem_of_nil in Hin].
  destruct (0 <? len changes); [|by apply elem_of_nil in Hin].
  by eapply addToQueue_no_delete.
Qed.

Lemma processRssResults_no_delete w results (s : State W) e :
  e ∈ events (processRssResults C w results s) -> ~ is_delete e.
Proof.
  unfold processRssResults. intros Hin.
  in_bind Hin w1 Hw1.
  - destruct (self_watchlist results); [|by apply elem_of_nil in Hin].
    by eapply (poll_source_no_delete w _ _ self set_previousSelfItems).
  - destruct (friends_watchlist results); [|by apply elem_of_nil in Hin].
    by eapply (poll_source_no_delete w1 _ _ friends set_previousFriendsItems).
Qed.

End PollFacts.

(** ** The Removal Detector *)

Lemma deletes_app evs1 evs2 : deletes (evs1 ++ evs2) = deletes evs1 ++ deletes evs2.
Proof. unfold deletes. apply omap_app. Qed.

Section RemovalFacts.
Context {W : Type} (C : Collab W).

(** [handleRemovedItems] makes one delete call, with the current keys
    that are not fetched keys, or none when there is no such key. *)
Lemma handleRemovedItems_deletes uid currentKeys fetchedKeys s :
  deletes (events (handleRemovedItems C uid currentKeys fetchedKeys s))
  = let removedKeys :=
      filter (fun key => JsSet.has fetchedKeys key = false) currentKeys in
    if removedKeys is [] then [] else [(uid, removedKeys)].
Proof.
  unfold handleRemovedItems.
  destruct (filter _ currentKeys) as [|k removed] eqn:Hf; [done|].
  rewrite len_cons_pos.
  unfold bind, log, log_with, call. simpl.
  by destruct (db_deleteWatchlistItems C uid (k :: removed) (world s)).
Qed.

Lemma checkRemoved_entry_deletes user items s rows w1 :
  db_getAllWatchlistItemsForUser C (userId user) (world s) = (Ok rows, w1) ->
  deletes (events (checkRemoved_entry C (user, items) s))
  = let removedKeys :=
      filter (fun key => JsSet.has (JsSet.of_list (map Token.id items)) key = false)
        (JsSet.of_list (map Item.key rows)) in
    if removedKeys is [] then [] else [(userId user, removedKeys)].
Proof.
  intros Hget. unfold checkRemoved_entry.
  assert (Hcall : call (DbGetAllWatchlistItemsForUser (userId user))
                    (db_getAllWatchlistItemsForUser C (userId user)) s
                  = mkResult (Ok rows) (mkState w1 (tick s) (heap s))
                      [DbGetAllWatchlistItemsForUser (userId user)]).
  { unfold call. by rewrite Hget. }
  rewrite (bind_Ok _ _ _ rows) by (by rewrite Hcall).
  rewrite Hcall. cbn [out final events]. rewrite deletes_app.
  apply handleRemovedItems_deletes.
Qed.

End RemovalFacts.

(** C5. Take any identity of a pass, [s] the state when its turn comes
    (the turns before it returned) and [rows] what storage then holds
    for its user id.  The events of the pass are those of the earlier
    turns, then those of this turn, then the rest; and this turn calls
    [deleteWatchlistItems] once, for this user id, with the keys of
    [rows] that are not among the fetched ids (each once), or not at
    all when there is no such key. *)
Theorem C5_removal_detector {W} (C : Collab W)
    (pre post : list (Friend * list Token.t))
    (user : Friend) (items : list Token.t)
    (st : State W) (rows : list Item.t) (w1 : W) :
  out (checkForRemovedItems C pre st) = Ok tt ->
  let s := final (checkForRemovedItems C pre st) in
  db_getAllWatchlistItemsForUser C (userId user) (world s) = (Ok rows, w1) ->
  exists removed turn tail,
    (forall k, k ∈ removed <-> k ∈ map Item.key rows /\ k ∉ map Token.id items)
    /\ NoDup removed
    /\ turn = events (checkRemoved_entry C (user, items) s)
    /\ events (checkForRemovedItems C (pre ++ (user, items) :: post) st)
       = events (checkForRemovedItems C pre st) ++ turn ++ tail
    /\ deletes turn = if removed is [] then [] else [(userId user, removed)].
Proof.
  intros Hpre s Hget.
  eexists _, _, _. split; [|split; [|split; [reflexivity|split]]].
  3: apply (for_each_snoc_events (checkRemoved_entry C) pre (user, items) post st Hpre).
  3: apply (checkRemoved_entry_deletes C user items s rows w1 Hget).
  - intros k. rewrite list_elem_of_filter, has_false, !elem_of_of_list. tauto.
  - apply NoDup_filter, NoDup_of_list.
Qed.

Lemma C5_removal_detector_witness :
  let st := sample_state (mkSampleWorld [row_dune; row_alien] [] false) in
  exists removed turn tail,
    (forall k, k ∈ removed <->
       k ∈ map Item.key [row_dune; row_alien] /\ k ∉ map Token.id [raw_dune "k1"])
    /\ NoDup removed
    /\ turn = events (checkRemoved_entry sample_collab (token1, [raw_dune "k1"]) st)
    /\ events (checkForRemovedItems sample_collab [(token1, [raw_dune "k1"])] st)
       = [] ++ turn ++ tail
    /\ deletes turn = if removed is [] then [] else [(1, removed)].
Proof.
  exact (C5_removal_detector sample_collab [] [] token1 [raw_dune "k1"]
           (sample_state (mkSampleWorld [row_dune; row_alien] [] false))
           [row_dune; row_alien] (mkSampleWorld [row_dune; row_alien] [] false)
           eq_refl eq_refl).
Defined.

Example checkForRemovedItems_sample :
  deletes (events (checkForRemovedItems sample_collab [(token1, [raw_dune "k1"])]
                     (sample_state (mkSampleWorld [row_dune; row_alien] [] false))))
  = [(1, ["k3"])].
Proof. reflexivity. Qed.

(** ** The change queue *)

(** C6, at a failing input. One poll finds the same title new in the
    self feed and in the friends feed.  [addToQueue] tests membership of
    the object, and [convertToTempItem] makes a new object for each
    change: the queue ends with two items equal in every field, and
    [lastQueueItemTime] is set again by the second, which brought no
    item that the queue did not already hold by value. *)
Lemma C6_value_duplicates_enqueued :
  let st := sample_state (mkSampleWorld [] [] false) in
  let results := mkRssWatchlistResults (Some [rss_item "g1" "Dune"])
                   (Some [rss_item "g1" "Dune"]) in
  let after_self :=
    processRssResults sample_collab idle_workflow
      (mkRssWatchlistResults (Some [rss_item "g1" "Dune"]) None) st in
  let r := processRssResults sample_collab idle_workflow results st in
  exists w1 w2,
    out after_self = Ok w1 /\ out r = Ok w2
    /\ changeQueue w1 = [mkObj 0%nat (tempt_of (rss_item "g1" "Dune"))]
    /\ lastQueueItemTime w1 = 0
    /\ changeQueue w2 = [mkObj 0%nat (tempt_of (rss_item "g1" "Dune"));
                         mkObj 1%nat (tempt_of (rss_item "g1" "Dune"))]
    /\ lastQueueItemTime w2 = 1000.
Proof. eexists _, _. repeat split. Qed.

(** The same at the level of [addToQueue]: an item equal by value to
    one in the queue, but another object, is added and counts as new. *)
Lemma addToQueue_value_duplicate :
  let v := tempt_of (rss_item "g1" "Dune") in
  let w := mkWorkflow true true 0 [mkObj 0%nat v] [] [] false in
  let r := addToQueue sample_collab w [mkObj 1%nat v] friends
             (mkState (mkSampleWorld [] [] false) 5 2) in
  exists w', out r = Ok w'
    /\ changeQueue w' = [mkObj 0%nat v; mkObj 1%nat v]
    /\ lastQueueItemTime w' = 5000.
Proof. eexists. repeat split. Qed.

(** What the membership test of [addToQueue] does compare: an object
    already in the queue is not added again, and alone it does not move
    [lastQueueItemTime]. *)
Lemma addToQueue_same_object {W} (C : Collab W) (w : Workflow)
    (o : Obj Tempt.t) (source : Source) (st : State W) :
  o ∈ changeQueue w ->
  addToQueue C w [o] source st = mkResult (Ok w) st [].
Proof.
  intros Hin. unfold addToQueue. cbn [fold_left]. unfold enqueue, ObjSet.has.
  cbn [fst]. rewrite bool_decide_eq_true_2.
  - simpl. by destruct w.
  - apply list_elem_of_fmap. eauto.
Qed.

(** In the workflow the test never finds anything: the changes that
    [detectChanges] hands over are new objects, so all of them are
    added, whatever the queue holds, and [lastQueueItemTime] is set. *)
Lemma enqueue_fresh (queue items : list (Obj Tempt.t)) (b : bool) n :
  Forall (fun o => (ref o < n)%nat) queue ->
  map ref items = seq n (length items) ->
  fold_left enqueue items (queue, b)
  = (queue ++ items, if items is [] then b else true).
Proof.
  revert queue b n. induction items as [|o items IH]; intros queue b n Hq Hr.
  - simpl. by rewrite app_nil_r.
  - simpl in Hr. injection Hr as Ho Hr. cbn [fold_left].
    assert (Hadd : enqueue (queue, b) o = (queue ++ [o], true)).
    { unfold enqueue. cbn [fst].
      rewrite (ObjSet_add_fresh queue o n) by done.
      unfold ObjSet.has. rewrite bool_decide_eq_false_2; [done|].
      intros (x & Hx & Hin)%list_elem_of_fmap.
      rewrite Forall_forall in Hq. apply Hq in Hin. lia. }
    rewrite Hadd, (IH _ _ (S n)); [|..|done].
    + rewrite <- app_assoc. simpl. by destruct items.
    + apply Forall_app. split.
      * eapply Forall_impl; [exact Hq|]. simpl. intros; lia.
      * apply Forall_singleton. lia.
Qed.

Lemma addToQueue_fresh {W} (C : Collab W) (w : Workflow)
    (items : list (Obj Tempt.t)) (source : Source) (st : State W) :
  Forall (fun o => (ref o < heap st)%nat) (changeQueue w) ->
  map ref items = seq (heap st) (length items) ->
  items <> [] ->
  exists w', out (addToQueue C w items source st) = Ok w'
    /\ changeQueue w' = changeQueue w ++ items
    /\ lastQueueItemTime w' = Date_now C (tick st).
Proof.
  intros Hq Hr Hne. unfold addToQueue.
  rewrite (enqueue_fresh _ _ _ (heap st)) by done. cbn [fst snd].
  destruct items as [|o items]; [done|].
  rewrite (bind_Ok _ _ _ (tick st)) by done. cbn [out final read_clock].
  rewrite (bind_Ok _ _ _ tt) by done. cbn [out final log log_with].
  rewrite (bind_Ok _ _ _ tt) by apply try_catch_log_out.
  cbn [out ret]. eexists. by repeat split.
Qed.

(** ** The Pending-Item Matcher *)

Section MatcherFacts.
Context {W : Type} (C : Collab W).

Lemma some_includes_decoded pg l :
  exists b, some_includes pg (Some l) = Ok b
            /\ (b = true <-> exists guid, guid ∈ pg /\ guid ∈ l).
Proof.
  destruct pg as [|g0 pg].
  - exists false. split; [done|]. split; [done|].
    by intros (guid & ?%elem_of_nil & _).
  - eexists. split; [reflexivity|].
    rewrite existsb_exists. split.
    + intros (guid & Hin%list_elem_of_In & Hh%has_true). eauto.
    + intros (guid & Hin & Hl). exists guid.
      by rewrite <- list_elem_of_In, has_true.
Qed.

(** The scan of one identity's items, when they all decode. *)
Lemma scan_items_decoded pg items :
  (forall item, item ∈ items -> decodes C item) ->
  exists b, scan_items C pg items = Ok b
            /\ (b = true <-> exists item, item ∈ items /\ guid_match C pg item).
Proof.
  induction items as [|item items IH]; intros Hdec.
  - exists false. split; [done|]. split; [done|].
    by intros (? & ?%elem_of_nil & _).
  - destruct (Hdec item) as (g & Hg); [by left|].
    destruct IH as (b' & Hscan & Hb'); [intros; apply Hdec; by right|].
    destruct (some_includes_decoded pg g) as (b & Hsome & Hb).
    simpl. rewrite Hg, Hsome. destruct b.
    + exists true. split; [done|]. split; [|done]. intros _.
      destruct (proj1 Hb eq_refl) as (guid & ? & ?).
      exists item. split; [by left|]. by exists g, guid.
    + exists b'. split; [done|]. rewrite Hb'. split.
      * intros (x & Hx & Hm). exists x. split; [by right | done].
      * intros (x & [->|Hx]%elem_of_cons & Hm); [|eauto].
        destruct Hm as (g' & guid & Hg' & ? & ?).
        rewrite Hg in Hg'. injection Hg' as <-.
        assert (false = true) as [=]. apply Hb. eauto.
Qed.

(** The scan of all identities, when every candidate decodes. *)
Lemma scan_users_decoded pg uwm :
  (forall u items item, (u, items) ∈ uwm -> item ∈ items -> decodes C item) ->
  exists b, scan_users C pg uwm = Ok b
            /\ (b = true <-> exists u items item,
                  (u, items) ∈ uwm /\ item ∈ items /\ guid_match C pg item).
Proof.
  induction uwm as [|[u items] uwm IH]; intros Hdec.
  - exists false. split; [done|]. split; [done|].
    by intros (? & ? & ? & ?%elem_of_nil & _).
  - destruct (scan_items_decoded pg items) as (b & Hscan & Hb).
    { intros item Hin. apply (Hdec u items); [by left | done]. }
    destruct IH as (b' & Hscan' & Hb').
    { intros u' items' item Hin. apply (Hdec u' items' item). by right. }
    simpl. rewrite Hscan. destruct b.
    + exists true. split; [done|]. split; [|done]. intros _.
      destruct (proj1 Hb eq_refl) as (item & ? & ?).
      exists u, items, item. split; [by left | done].
    + exists b'. split; [done|]. rewrite Hb'. split.
      * intros (u' & items' & item & Hin & ?). exists u', items', item.
        split; [by right | done].
      * intros (u' & items' & item & [E|Hin]%elem_of_cons & Hitem & Hm); [|eauto 6].
        injection E as -> ->.
        assert (false = true) as [=]. apply Hb. eauto.
Qed.

(** The scan stops at the first match: what follows it is not read. *)
Lemma scan_items_first_match pg pre item post :
  (forall x, x ∈ pre -> decodes C x /\ ~ guid_match C pg x) ->
  guid_match C pg item ->
  scan_items C pg (pre ++ item :: post) = Ok true.
Proof.
  intros Hpre (g & guid & Hg & Hp & Hl).
  induction pre as [|x pre IH]; simpl.
  - rewrite Hg. destruct (some_includes_decoded pg g) as (b & -> & Hb).
    assert (b = true) as ->; [apply Hb; eauto | done].
  - destruct (Hpre x) as [(gx & Hgx) Hno]; [by left|].
    rewrite Hgx. destruct (some_includes_decoded pg gx) as (b & -> & Hb).
    destruct b.
    + destruct Hno. destruct (proj1 Hb eq_refl) as (guid' & ? & ?).
      by exists gx, guid'.
    + apply IH. intros y Hy. apply Hpre. by right.
Qed.

Lemma scan_users_first_match pg before u pre item post after :
  (forall u' items x, (u', items) ∈ before -> x ∈ items ->
     decodes C x /\ ~ guid_match C pg x) ->
  (forall x, x ∈ pre -> decodes C x /\ ~ guid_match C pg x) ->
  guid_match C pg item ->
  scan_users C pg (before ++ (u, pre ++ item :: post) :: after) = Ok true.
Proof.
  intros Hbefore Hpre Hm.
  induction before as [|[u0 items0] before IH]; simpl.
  - by rewrite scan_items_first_match.
  - destruct (scan_items_decoded pg items0) as (b & -> & Hb).
    { intros x Hx. apply (Hbefore u0 items0 x); [by left | done]. }
    destruct b.
    + destruct (proj1 Hb eq_refl) as (x & Hx & Hmx).
      destruct (Hbefore u0 items0 x) as [_ Hno]; [by left | done | done].
    + apply IH. intros u' items x Hin. apply (Hbefore u' items x). by right.
Qed.

End MatcherFacts.

Lemma NoDup_map_inj {A B} (f : A -> B) (l : list A) x y :
  NoDup (map f l) -> x ∈ l -> y ∈ l -> f x = f y -> x = y.
Proof.
  induction l as [|a l IH]; simpl; intros Hnd Hx Hy Hf.
  - by apply elem_of_nil in Hx.
  - apply NoDup_cons in Hnd as [Hna Hnd].
    apply elem_of_cons in Hx as [->|Hx]; apply elem_of_cons in Hy as [->|Hy].
    + done.
    + destruct Hna. rewrite Hf. apply list_elem_of_fmap. eauto.
    + destruct Hna. rewrite <- Hf. apply list_elem_of_fmap. eauto.
    + by apply IH.
Qed.

Section MatcherPass.
Context {W : Type} (C : Collab W).
Variable noMatch : string -> string.
Variable uwm : list (Friend * list Item.t).
Hypothesis all_decode :
  forall u items item, (u, items) ∈ uwm -> item ∈ items -> decodes C item.

(** The outer loop: it returns, logs only, leaves the world alone, and
    collects the ids of the pending items whose scan found a match. *)
Lemma match_loop pendingItems acc s :
  let r := foldM (match_pending C noMatch uwm) pendingItems acc s in
  exists acc', out r = Ok acc' /\ final r = s /\ Forall is_log (events r)
    /\ matchedItemIds acc'
       = matchedItemIds acc
         ++ map Pending.id
              (filter (fun p => scan_users C (Pending.guids p) uwm = Ok true)
                 pendingItems).
Proof.
  revert acc. induction pendingItems as [|p rest IH]; intros acc; simpl.
  - exists acc. by rewrite app_nil_r.
  - destruct (scan_users_decoded C (Pending.guids p) uwm all_decode)
      as (b & Hscan & _).
    destruct b.
    + assert (Hstep : match_pending C noMatch uwm acc p s
                = mkResult
                    (Ok (mkMatching (matchCount acc + 1) (noMatchCount acc)
                           (matchedItemIds acc ++ [Pending.id p]))) s []).
      { unfold match_pending, bind. by rewrite Hscan. }
      rewrite (bind_Ok _ _ _ _ (f_equal out Hstep)), Hstep.
      cbn [out final events app].
      destruct (IH (mkMatching (matchCount acc + 1) (noMatchCount acc)
                      (matchedItemIds acc ++ [Pending.id p])))
        as (acc' & Hout & Hfin & Hlog & Hids).
      exists acc'. repeat split; try done.
      rewrite Hids. cbn [matchedItemIds].
      rewrite filter_cons_True by done. simpl. by rewrite <- app_assoc.
    + assert (Hstep : match_pending C noMatch uwm acc p s
                = mkResult
                    (Ok (mkMatching (matchCount acc) (noMatchCount acc + 1)
                           (matchedItemIds acc))) s
                    [Log warn (noMatch (Pending.title p)) []]).
      { unfold match_pending, bind. by rewrite Hscan. }
      rewrite (bind_Ok _ _ _ _ (f_equal out Hstep)), Hstep.
      cbn [out final events app].
      destruct (IH (mkMatching (matchCount acc) (noMatchCount acc + 1)
                      (matchedItemIds acc)))
        as (acc' & Hout & Hfin & Hlog & Hids).
      exists acc'. repeat split; try done.
      * by apply Forall_cons.
      * rewrite Hids. cbn [matchedItemIds].
        rewrite filter_cons_False; [done|]. by rewrite Hscan.
Qed.

(** The pass of either matcher. *)
Lemma matchRssPendingItems_events source found complete st pendingItems w1 :
  db_getTempRssItems C source (world st) = (Ok pendingItems, w1) ->
  let r := matchRssPendingItems C source found noMatch complete uwm st in
  let ids := map Pending.id
               (filter (fun p => scan_users C (Pending.guids p) uwm = Ok true)
                  pendingItems) in
  exists head_log warns tail,
    events r = DbGetTempRssItems source :: head_log :: warns
               ++ (if ids is [] then [] else [DbDeleteTempRssItems ids]) ++ tail
    /\ is_log head_log /\ Forall is_log warns /\ Forall is_log tail.
Proof.
  intros Hget r ids. subst r. unfold matchRssPendingItems.
  assert (Hcall : call (DbGetTempRssItems source) (db_getTempRssItems C source) st
                  = mkResult (Ok pendingItems) (mkState w1 (tick st) (heap st))
                      [DbGetTempRssItems source]).
  { unfold call. by rewrite Hget. }
  rewrite (bind_Ok _ _ _ _ (f_equal out Hcall)), Hcall. cbn [out final events].
  set (s1 := mkState w1 (tick st) (heap st)).
  rewrite (bind_Ok _ _ _ tt) by done. cbn [out final events log log_with].
  destruct (match_loop pendingItems (mkMatching 0 0 []) s1)
    as (acc' & Hout & Hfin & Hlog & Hids).
  rewrite (bind_Ok _ _ _ _ Hout). cbn [out final events].
  rewrite Hfin. simpl in Hids. rewrite Hids. fold ids.
  assert (Hlast : exists tail,
            events (bind (if 0 <? len ids
                          then call (DbDeleteTempRssItems ids)
                                 (db_deleteTempRssItems C ids)
                          else ret ())
                      (fun _ => log info complete) s1)
            = (if ids is [] then [] else [DbDeleteTempRssItems ids]) ++ tail
            /\ Forall is_log tail).
  { destruct ids as [|i ids'].
    - eexists. split; [reflexivity|]. by repeat constructor.
    - rewrite len_cons_pos. unfold bind, call, log, log_with.
      destruct (db_deleteTempRssItems C (i :: ids') (world s1)) as [[[]|msg] w2];
        cbn [out final events app];
        (eexists; split; [reflexivity | by repeat constructor]). }
  destruct Hlast as (tail & -> & Htail).
  eexists _, _, tail. split; [reflexivity|]. by repeat split.
Qed.

End MatcherPass.



Example matcher_deletes_matched_only :
  let w := mkSampleWorld [] [pending_dune; pending_solaris] false in
  let r := matchRssPendingItemsSelf sample_collab
             [(token1, [row_dune; row_alien])] (sample_state w) in
  temp_deletes (events r) = [[7]]
  /\ pendingRss (world (final r)) = [pending_solaris].
Proof. split; reflexivity. Qed.

Example matcher_reads_json_text :
  let w := mkSampleWorld [] [pending_dune; pending_solaris] false in
  let r := matchRssPendingItemsFriends sample_collab
             [(token1, [row_alien]); (token2, [row_dune_text])] (sample_state w) in
  temp_deletes (events r) = [[7]].
Proof. reflexivity. Qed.

(** ** Configuration errors *)

(** C8, refuted as stated. With no token configured
    [generateAndSaveRssFeeds] returns an error value and does not throw;
    and when the collected map is empty [getOthersWatchlists] throws a
    message of its own, not "Unable to fetch watchlist items". *)
Lemma C8_counterexample :
  let st := sample_state (mkSampleWorld [] [] false) in
  out (generateAndSaveRssFeeds sample_collab (mkConfig [] None) st)
  = Ok (RssError "No Plex token configured")
  /\ out (collectOthers sample_collab st) = Ok []
  /\ out (getOthersWatchlists sample_collab (mkConfig ["valid"] None) st)
     = Throw "Unable to fetch others' watchlist items"
  /\ out (getOthersWatchlists sample_collab (mkConfig ["valid"] None) st)
     <> Throw "Unable to fetch watchlist items".
Proof. repeat split. discriminate. Qed.

(** C8, amended. With no token configured, [pingPlex],
    [getSelfWatchlist] and [getOthersWatchlists] throw, while
    [generateAndSaveRssFeeds] returns an error value.  With tokens, when
    the collector returns an empty map, [getSelfWatchlist] throws "Unable
    to fetch watchlist items" and [getOthersWatchlists] throws "Unable to
    fetch others' watchlist items"; and when no feed URL comes back,
    [generateAndSaveRssFeeds] again returns an error value. *)
Theorem C8_configuration_errors {W} (C : Collab W) (config : Config)
    (st : State W) :
  (plexTokens config = [] ->
   out (pingPlex C config st) = Throw "No Plex tokens configured"
   /\ out (getSelfWatchlist C config st) = Throw "No Plex token configured"
   /\ out (getOthersWatchlists C config st) = Throw "No Plex token configured"
   /\ out (generateAndSaveRssFeeds C config st)
      = Ok (RssError "No Plex token configured"))
  /\ (plexTokens config <> [] ->
      (out (collectSelf C config st) = Ok [] ->
       out (getSelfWatchlist C config st) = Throw "Unable to fetch watchlist items")
      /\ (out (collectOthers C st) = Ok [] ->
          out (getOthersWatchlists C config st)
          = Throw "Unable to fetch others' watchlist items")
      /\ (forall w1,
            ext_getPlexWatchlistUrls C (JsSet.of_list (plexTokens config))
              (default false (skipFriendSync config)) (world st) = (Ok [], w1) ->
            out (generateAndSaveRssFeeds C config st)
            = Ok (RssError "Unable to fetch watchlist URLs"))).
Proof.
  split.
  - intros Hnil. unfold pingPlex, getSelfWatchlist, getOthersWatchlists,
      generateAndSaveRssFeeds. by rewrite Hnil.
  - intros Hne.
    assert (Hlen : (len (plexTokens config) =? 0) = false).
    { destruct (plexTokens config); [done | apply len_cons_nonzero]. }
    split; [|split].
    + intros Hc. unfold getSelfWatchlist. rewrite Hlen.
      by rewrite (bind_Ok _ _ _ _ Hc).
    + intros Hc. unfold getOthersWatchlists. rewrite Hlen.
      by rewrite (bind_Ok _ _ _ _ Hc).
    + intros w1 Hurls. unfold generateAndSaveRssFeeds. rewrite Hlen.
      cbv zeta. unfold bind at 1. unfold call at 1 2. by rewrite Hurls.
Qed.

Lemma C8_configuration_errors_witness :
  let st := sample_state (mkSampleWorld [] [] false) in
  let config := mkConfig ["valid"] None in
  out (getSelfWatchlist sample_collab config st)
  = Throw "Unable to fetch watchlist items"
  /\ out (getOthersWatchlists sample_collab config st)
     = Throw "Unable to fetch others' watchlist items"
  /\ out (generateAndSaveRssFeeds sample_collab config st)
     = Ok (RssError "Unable to fetch watchlist URLs").
Proof.
  destruct (C8_configuration_errors sample_collab (mkConfig ["valid"] None)
              (sample_state (mkSampleWorld [] [] false))) as [_ H].
  destruct H as (Hself & Hothers & Hfeeds); [discriminate|].
  split; [by apply Hself | split; [by apply Hothers|]].
  by apply (Hfeeds (mkSampleWorld [] [] false)).
Defined.

(** ** [pingPlex] *)

(** C9. With [os] the outcomes of the pings of the configured tokens, in
    order: [pingPlex] throws when no token is configured; otherwise it
    returns [true] exactly when every ping returned [true], and when
    every ping returned and one of them returned [false] it returns
    [false] and does not throw. *)
Theorem C9_pingPlex {W} (C : Collab W) (config : Config) (st : State W)
    (os : list (outcome bool)) :
  out (run_all (map (fun token => call (CallPingPlex token) (ext_pingPlex C token))
                    (plexTokens config)) st) = Ok os ->
  (plexTokens config = [] ->
   out (pingPlex C config st) = Throw "No Plex tokens configured")
  /\ (plexTokens config <> [] ->
      (out (pingPlex C config st) = Ok true <-> forall o, o ∈ os -> o = Ok true)
      /\ ((forall o, o ∈ os -> exists b, o = Ok b) -> Ok false ∈ os ->
          out (pingPlex C config st) = Ok false)).
Proof.
  intros Hos. unfold pingPlex. split.
  - by intros ->.
  - intros Hne.
    assert ((len (plexTokens config) =? 0) = false) as ->.
    { destruct (plexTokens config); [done|]. unfold len. simpl. lia. }
    pose proof (Promise_all_out _ _ _ Hos) as Hall.
    unfold bind. rewrite Hall. split.
    + destruct (first_rejection os) as [l|msg] eqn:Hfr; simpl.
      * apply first_rejection_Ok in Hfr as ->. split.
        -- intros [= Hf]. pose proof (proj1 (forallb_eqb_true _) Hf) as Hall'.
           intros o (b & -> & Hb)%list_elem_of_fmap. by rewrite (Hall' b Hb).
        -- intros Hf. f_equal. apply forallb_eqb_true. intros b Hb.
           assert (Ok b = Ok true) as [= ->]; [|done].
           apply Hf. apply list_elem_of_fmap. eauto.
      * split; [done|]. intros Hf.
        apply first_rejection_Throw in Hfr. by apply Hf in Hfr.
    + intros Hres Hfalse.
      destruct (all_resolved_map_Ok os Hres) as (l & ->).
      rewrite first_rejection_map_Ok. simpl. f_equal.
      apply list_elem_of_fmap in Hfalse as (b & [= <-] & Hb).
      apply not_true_is_false. intros Hf.
      by pose proof (proj1 (forallb_eqb_true _) Hf _ Hb).
Qed.

Lemma C9_pingPlex_witness :
  out (pingPlex sample_collab (mkConfig ["valid"; "expired"] None)
         (sample_state (mkSampleWorld [] [] false)))
  = Ok false.
Proof.
  eapply (C9_pingPlex sample_collab (mkConfig ["valid"; "expired"] None)
            (sample_state (mkSampleWorld [] [] false))
            [Ok true; Ok false]).
  - reflexivity.
  - discriminate.
  - intros o Ho. repeat (apply elem_of_cons in Ho as [->|Ho]; [eauto|]).
    by apply elem_of_nil in Ho.
  - right. by left.
Defined.

Example pingPlex_all_valid :
  out (pingPlex sample_collab (mkConfig ["a"; "b"] None)
         (sample_state (mkSampleWorld [] [] false)))
  = Ok true.
Proof. reflexivity. Qed.

Example pingPlex_calls :
  events (pingPlex sample_collab (mkConfig ["a"; "expired"; "b"] None)
            (sample_state (mkSampleWorld [] [] false)))
  = [CallPingPlex "a"; CallPingPlex "expired"; CallPingPlex "b"].
Proof. reflexivity. Qed.

(** ** [processAndSaveNewItems] *)

(** C10. On an empty map [processAndSaveNewItems] returns the empty map,
    produces no event at all and leaves the state as it was.  On any map,
    a [createWatchlistItems] write, a [syncGenresFromWatchlist] call, or a
    [saving] or [complete] progress event occurs only when
    [processWatchlistItems] returned a map from which at least one row
    was prepared; the write carries exactly those rows, as a plain
    insert. *)
Theorem C10_processAndSaveNewItems {W} (C : Collab W)
    (brandNew : list (Friend * list Token.t)) (st : State W) :
  let r := processAndSaveNewItems C brandNew st in
  (brandNew = [] -> r = mkResult (Ok []) st [])
  /\ (forall e, e ∈ events r -> is_save_event e ->
      exists w progressInfo w' processed t,
        ext_processWatchlistItems C brandNew progressInfo w
        = (Ok (IsMap processed), w')
        /\ (prepareItemsForInsertion C t processed).1 <> []
        /\ forall items merge, e = DbCreateWatchlistItems items merge ->
             items = (prepareItemsForInsertion C t processed).1 /\ merge = false).
Proof.
  intros r. subst r. split; [by intros ->|].
  destruct brandNew as [|[firstUser items0] rest]; [by intros e ?%elem_of_nil|].
  set (brandNew := (firstUser, items0) :: rest).
  intros e Hin Hsave. unfold processAndSaveNewItems in Hin. fold brandNew in Hin.
  in_bind Hin u Hu; [no_event Hin|]. clear Hu u.
  in_bind Hin t Ht; [no_event Hin|].
  injection Ht as <-.
  in_bind Hin emitProgress Hemit.
  { unfold call in Hin. destruct (progress_hasActiveConnections C _). no_event Hin. }
  in_bind Hin u Hu.
  { apply in_events_when in Hin as [_ Hin]. unfold emit, call in Hin.
    apply list_elem_of_singleton in Hin. subst e. by destruct Hsave. }
  clear Hu u.
  in_bind Hin processedItems Hproc.
  { unfold call in Hin. destruct (ext_processWatchlistItems C _ _ _). no_event Hin. }
  destruct processedItems as [processed|]; [|no_event Hin].
  unfold call in Hproc.
  destruct (ext_processWatchlistItems C _ _ _) as [o w'] eqn:Hext.
  simpl in Hproc. subst o.
  in_bind Hin itemsToInsert Hprep; [no_event Hin|].
  unfold prepare in Hprep, Hin. injection Hprep as <-.
  match type of Hin with
  | context [prepareItemsForInsertion C ?t processed] => set (now := t) in *
  end.
  set (rows := (prepareItemsForInsertion C now processed).1) in *.
  in_bind Hin u Hu; [|no_event Hin].
  destruct (0 <? len rows) eqn:Hlen; [|no_event Hin].
  eexists _, _, w', processed, now. split; [exact Hext|]. split.
  { intros E. fold rows in E. rewrite E in Hlen. discriminate Hlen. }
  intros items merge ->. fold rows.
  in_bind Hin u Hu.
  { apply in_events_when in Hin as [_ Hin]. unfold emit, call in Hin.
    by apply list_elem_of_singleton in Hin. }
  in_bind Hin u1 Hu1.
  { unfold call in Hin. destruct (db_createWatchlistItems C _ _ _).
    apply list_elem_of_singleton in Hin. by injection Hin as <- <-. }
  in_bind Hin u2 Hu2.
  { unfold call in Hin. destruct (db_syncGenresFromWatchlist C _).
    by apply list_elem_of_singleton in Hin. }
  in_bind Hin u3 Hu3; [by apply list_elem_of_singleton in Hin|].
  apply in_events_when in Hin as [_ Hin]. unfold emit, call in Hin.
  by apply list_elem_of_singleton in Hin.
Qed.

Example processAndSaveNewItems_saves :
  let r := processAndSaveNewItems sample_collab [(token2, [raw_dune "k2"])]
             (sample_state (mkSampleWorld [] [] true)) in
  length (events r) = 9%nat
  /\ events r !! 5%nat
     = Some (DbCreateWatchlistItems (stored (world (final r))) false)
  /\ events r !! 6%nat = Some DbSyncGenresFromWatchlist.
Proof. repeat split. Qed.


(* ================================================================== *)
(** * Part II, continued. The rest of the service and of the workflow *)
(* ================================================================== *)

(** ** The RSS reader *)

Section RssReaderFacts.
Context {W : Type} (C : Collab W) (R : Feeds W) (config : Config).

Lemma request_events {A} (op : W -> outcome A * W) (s : State W) :
  events (request op s) = [].
Proof. unfold request. by destruct (op (world s)). Qed.

Lemma request_out {A} (op : W -> outcome A * W) (s : State W) :
  out (request op s) = (op (world s)).1.
Proof. unfold request. by destruct (op (world s)). Qed.

Lemma with_feed_Some found c :
  with_feed found = Some c ->
  found = Some c
  /\ truthy (default "" (selfRss c)) || truthy (default "" (friendsRss c)) = true.
Proof.
  unfold with_feed. destruct found as [c'|]; [|done].
  destruct (truthy (default "" (selfRss c'))) eqn:Hs;
    destruct (truthy (default "" (friendsRss c'))) eqn:Hf; simpl;
    intros [= <-]; by rewrite ?Hs, ?Hf.
Qed.

Lemma ensureRssFeeds_feed s c :
  out (ensureRssFeeds C R config s) = Ok c ->
  truthy (default "" (selfRss c)) || truthy (default "" (friendsRss c)) = true.
Proof.
  unfold ensureRssFeeds. intros Hout.
  apply out_bind_Ok in Hout as (found & _ & Hout).
  destruct (with_feed found) as [c'|] eqn:Hfound.
  { injection Hout as <-. by apply with_feed_Some in Hfound as [_ ?]. }
  apply out_bind_Ok in Hout as (u1 & _ & Hout).
  apply out_bind_Ok in Hout as (u2 & _ & Hout).
  apply out_bind_Ok in Hout as (found' & _ & Hout).
  destruct (with_feed found') as [c'|] eqn:Hfound'; [|done].
  injection Hout as <-. by apply with_feed_Some in Hfound' as [_ ?].
Qed.

End RssReaderFacts.

(** X1. [ensureRssFeeds] returns only a configuration row that names a
    feed (its [selfRss] or its [friendsRss] is a non-empty string).  When
    the row read first names one, that row is returned as it is: no feed
    is generated, nothing is written and nothing is logged.  When it
    names none, the feeds are generated and the row is read again; if
    this second row names none either, the method throws
    "Unable to generate or retrieve RSS feed URLs", whatever
    [generateAndSaveRssFeeds] returned. *)
Theorem X1_ensureRssFeeds {W} (C : Collab W) (R : Feeds W) (config : Config)
    (s : State W) :
  let r := ensureRssFeeds C R config s in
  (forall c, out r = Ok c ->
     truthy (default "" (selfRss c)) || truthy (default "" (friendsRss c)) = true)
  /\ (forall found c,
        (db_getConfig R 1 (world s)).1 = Ok found -> with_feed found = Some c ->
        out r = Ok c /\ events r = []
        /\ world (final r) = (db_getConfig R 1 (world s)).2)
  /\ (forall found response s1 found',
        (db_getConfig R 1 (world s)).1 = Ok found -> with_feed found = None ->
        let s0 := mkState (db_getConfig R 1 (world s)).2 (tick s) (heap s) in
        out (generateAndSaveRssFeeds C config s0) = Ok response ->
        s1 = final (generateAndSaveRssFeeds C config s0) ->
        (db_getConfig R 1 (world s1)).1 = Ok found' -> with_feed found' = None ->
        out r = Throw "Unable to generate or retrieve RSS feed URLs").
Proof.
  intros r. subst r. split; [apply ensureRssFeeds_feed|]. split.
  - intros found c Hget Hfeed. unfold ensureRssFeeds.
    assert (Hreq : request (db_getConfig R 1) s
              = mkResult (db_getConfig R 1 (world s)).1
                  (mkState (db_getConfig R 1 (world s)).2 (tick s) (heap s)) []).
    { unfold request. by destruct (db_getConfig R 1 (world s)). }
    rewrite (bind_Ok _ _ _ found) by (by rewrite Hreq). rewrite Hreq.
    cbn [out final events]. rewrite Hfeed. by cbn [out final events ret world app].
  - intros found response s1 found' Hget Hfeed s0 Hgen -> Hget' Hfeed'.
    subst s0. unfold ensureRssFeeds.
    assert (Hreq : forall st, request (db_getConfig R 1) st
              = mkResult (db_getConfig R 1 (world st)).1
                  (mkState (db_getConfig R 1 (world st)).2 (tick st) (heap st)) []).
    { intros st. unfold request. by destruct (db_getConfig R 1 (world st)). }
    rewrite (bind_Ok _ _ _ found) by (by rewrite Hreq). rewrite Hreq.
    cbn [out final events]. rewrite Hfeed.
    rewrite (bind_Ok _ _ _ tt) by done. cbn [out final events log log_with].
    rewrite (bind_Ok _ _ _ response) by done. cbn [out final events].
    rewrite (bind_Ok _ _ _ found') by (by rewrite Hreq). rewrite Hreq.
    cbn [out final events]. by rewrite Hfeed'.
Qed.

(** X2. The result of [processRssWatchlists] has, for each of the two
    feeds, either no group and a total of [0] (the feed is not
    configured), or exactly one group, under the fixed user of that
    feed, whose watchlist has as many entries as the total says; and at
    least one of the two feeds has its group. *)
Theorem X2_processRssWatchlists_shape {W} (C : Collab W) (R : Feeds W)
    (config : Config) (s : State W) (results : RssResults) :
  out (processRssWatchlists C R config s) = Ok results ->
  (rss_self results = mkRssFeed 0 []
   \/ exists wl, rss_self results
        = mkRssFeed (len wl) [mkRssGroup (mkFriend "token1" "token1" 1) wl])
  /\ (rss_friends results = mkRssFeed 0 []
      \/ exists wl, rss_friends results
           = mkRssFeed (len wl)
               [mkRssGroup (mkFriend "friends" "Friends Watchlist" 1) wl])
  /\ (rss_users (rss_self results) <> [] \/ rss_users (rss_friends results) <> []).
Proof.
  unfold processRssWatchlists. intros Hout.
  apply out_bind_Ok in Hout as (c & Hc & Hout).
  apply ensureRssFeeds_feed in Hc.
  apply out_bind_Ok in Hout as (r1 & Hr1 & Hout).
  assert (Hlen : forall items, len (mapRssItemsToWatchlist items) = len items).
  { intros items. unfold len, mapRssItemsToWatchlist. by rewrite length_map. }
  assert (Hself : (truthy (default "" (selfRss c)) = false /\ r1 = mkRssResults (mkRssFeed 0 []) (mkRssFeed 0 []))
                  \/ (truthy (default "" (selfRss c)) = true /\ exists wl,
                        r1 = mkRssResults
                               (mkRssFeed (len wl) [mkRssGroup (mkFriend "token1" "token1" 1) wl])
                               (mkRssFeed 0 []))).
  { destruct (truthy (default "" (selfRss c))).
    - right. split; [done|].
      apply out_bind_Ok in Hr1 as (feed & Hfeed & Hr1). injection Hr1 as <-.
      unfold processSelfRssWatchlist in Hfeed.
      apply out_bind_Ok in Hfeed as (items & _ & Hfeed). injection Hfeed as <-.
      eexists. by rewrite <- Hlen.
    - left. split; [done|]. by injection Hr1 as <-. }
  destruct (truthy (default "" (friendsRss c))) eqn:Hf.
  - apply out_bind_Ok in Hout as (feed & Hfeed & Hout). injection Hout as <-.
    unfold processFriendsRssWatchlist in Hfeed.
    apply out_bind_Ok in Hfeed as (items & _ & Hfeed). injection Hfeed as <-.
    cbn [rss_self rss_friends rss_users]. split; [|split].
    + destruct Hself as [[_ ->]|[_ [wl ->]]]; [by left | right; by exists wl].
    + right. eexists. by rewrite <- Hlen.
    + by right.
  - injection Hout as <-. rewrite orb_false_r in Hc.
    destruct Hself as [[Hs _]|[_ [wl ->]]]; [congruence|].
    cbn [rss_self rss_friends rss_users]. split; [|split].
    + right. by exists wl.
    + by left.
    + by left.
Qed.

Lemma X2_processRssWatchlists_shape_witness :
  let st := sample_state (mkSampleWorld [] [] false) in
  let results :=
    mkRssResults
      (mkRssFeed 3 [mkRssGroup (mkFriend "token1" "token1" 1)
                      (mapRssItemsToWatchlist [feed_dune; feed_alien; feed_unknown])])
      (mkRssFeed 0 []) in
  out (processRssWatchlists sample_collab sample_feeds one_token st) = Ok results
  /\ (rss_users (rss_self results) <> [] \/ rss_users (rss_friends results) <> []).
Proof.
  intros st results.
  assert (H : out (processRssWatchlists sample_collab sample_feeds one_token st)
              = Ok results) by reflexivity.
  split; [exact H|].
  exact (proj2 (proj2 (X2_processRssWatchlists_shape _ _ _ _ _ H))).
Defined.

(** ** The snapshot of a feed *)

Lemma NoDup_keys_set {K V} `{EqDecision K} (m : list (K * V)) k v :
  NoDup (JsMap.keys m) -> NoDup (JsMap.keys (JsMap.set m k v)).
Proof.
  unfold JsMap.keys. induction m as [|[k' v'] m IH]; simpl.
  - intros _. apply NoDup_singleton.
  - intros [Hk Hm]%NoDup_cons. destruct (decide (k' = k)) as [->|Hne]; simpl.
    + by apply NoDup_cons.
    + apply NoDup_cons. split; [|by apply IH].
      intros Hin. apply (elem_of_keys_set m k v k') in Hin as [?|?]; [congruence|done].
Qed.

Lemma createItemMap_snoc items x :
  createItemMap (items ++ [x])
  = match Wl.guids x with
    | Some (g :: _) => JsMap.set (createItemMap items) g x
    | _ => createItemMap items
    end.
Proof. unfold createItemMap. by rewrite fold_left_app. Qed.

Lemma createItemMap_NoDup (items : list Wl.t) :
  NoDup (JsMap.keys (createItemMap items)).
Proof.
  induction items as [|x items IH] using rev_ind; [apply NoDup_nil_2|].
  rewrite createItemMap_snoc.
  destruct (Wl.guids x) as [[|g0 rest]|]; try done. by apply NoDup_keys_set.
Qed.

Lemma createItemMap_get (items : list Wl.t) g :
  JsMap.get (createItemMap items) g
  = last (filter (fun item => head (default [] (Wl.guids item)) = Some g) items).
Proof.
  induction items as [|x items IH] using rev_ind; [done|].
  rewrite createItemMap_snoc, filter_app.
  destruct (Wl.guids x) as [[|g0 rest]|] eqn:Hg.
  - rewrite filter_cons_False by (by rewrite Hg). by rewrite filter_nil, app_nil_r.
  - destruct (decide (g0 = g)) as [->|Hne].
    + rewrite get_set_eq. rewrite filter_cons_True by (by rewrite Hg).
      rewrite filter_nil. by rewrite last_snoc.
    + rewrite get_set_ne by done.
      rewrite filter_cons_False by (rewrite Hg; simpl; congruence).
      by rewrite filter_nil, app_nil_r.
  - rewrite filter_cons_False by (by rewrite Hg). by rewrite filter_nil, app_nil_r.
Qed.

(** X3. [createItemMap] files each item under its first guid: the keys
    of the snapshot are pairwise distinct, and looking a guid up yields
    the last item of the list whose first guid it is (an item whose
    [guids] is missing or empty is under no key). *)
Theorem X3_createItemMap_lookup (items : list Wl.t) :
  NoDup (JsMap.keys (createItemMap items))
  /\ forall g,
       JsMap.get (createItemMap items) g
       = last (filter (fun item => head (default [] (Wl.guids item)) = Some g) items).
Proof. split; [apply createItemMap_NoDup | apply createItemMap_get]. Qed.

(** X4. Which items of a feed reach the snapshot the workflow keeps:
    the watchlist that [mapRssItemsToWatchlist] builds from the parsed
    feed has an entry under guid [g] in the snapshot exactly when some
    item of the feed has [g] as its first guid, the guids being read as
    an array, or as one non-empty string.  An item whose guids are
    missing, an empty array or an empty string is in no entry. *)
Theorem X4_feed_snapshot_keys (items : list RssRaw.t) (g : string) :
  JsMap.has
    (createItemMap (map as_watchlist_item (mapRssItemsToWatchlist items))) g = true
  <-> exists raw, raw ∈ items
        /\ match RssRaw.guids raw with
           | Some (RssRaw.Many (g0 :: _)) => g0 = g
           | Some (RssRaw.One s) => s <> "" /\ s = g
           | _ => False
           end.
Proof.
  unfold JsMap.has. rewrite createItemMap_get.
  set (P := fun item : Wl.t => head (default [] (Wl.guids item)) = Some g).
  assert (Hlast : forall l : list Wl.t,
            (exists x, last (filter P l) = Some x) <-> exists x, x ∈ l /\ P x).
  { intros l. split.
    - intros (x & Hx). apply last_Some in Hx as (l' & Hx).
      assert (Hin : x ∈ filter P l) by (rewrite Hx, elem_of_app, list_elem_of_singleton; by right).
      apply list_elem_of_filter in Hin. exists x. tauto.
    - intros (x & Hin & HP).
      assert (Hf : x ∈ filter P l) by (apply list_elem_of_filter; tauto).
      destruct (last (filter P l)) eqn:E; [eauto|].
      apply last_None in E. rewrite E in Hf. by apply elem_of_nil in Hf. }
  assert (Hraw : forall raw,
            P (as_watchlist_item
                 {| RssView.title := RssRaw.title raw;
                    RssView.plexKey := RssRaw.key raw;
                    RssView.type := RssRaw.type raw;
                    RssView.thumb := default "" (RssRaw.thumb raw);
                    RssView.guids := array_or_single (RssRaw.guids raw);
                    RssView.genres := array_or_single (RssRaw.genres raw);
                    RssView.status := pending |})
            <-> match RssRaw.guids raw with
                | Some (RssRaw.Many (g0 :: _)) => g0 = g
                | Some (RssRaw.One s) => s <> "" /\ s = g
                | _ => False
                end).
  { intros raw. unfold P. simpl.
    destruct (RssRaw.guids raw) as [[[|g0 l]|s0]|]; simpl; try (split; [done|tauto]).
    - split; [by intros [= ->] | by intros ->].
    - unfold truthy. destruct (String.eqb_spec s0 ""); simpl.
      + split; [done | tauto].
      + split; [by intros [= ->] | by intros [_ ->]]. }
  split.
  - intros Hhas.
    destruct (last _) as [x|] eqn:Hx; [|done].
    destruct (proj1 (Hlast _) (ex_intro _ x Hx)) as (y & Hin & Hy).
    unfold mapRssItemsToWatchlist in Hin. rewrite <- list_fmap_compose in Hin.
    apply list_elem_of_fmap in Hin as (raw & -> & Hin).
    exists raw. split; [done|]. by apply Hraw.
  - intros (raw & Hin & Hg).
    destruct (proj2 (Hlast (map as_watchlist_item (mapRssItemsToWatchlist items))))
      as (x & ->); [|done].
    eexists. split.
    + unfold mapRssItemsToWatchlist. rewrite <- list_fmap_compose.
      apply list_elem_of_fmap. exists raw. split; [reflexivity | done].
    + by apply Hraw.
Qed.

(** ** A poll of the feeds *)

Lemma get_of_NoDup {K V} `{EqDecision K} (m : list (K * V)) k v :
  NoDup (JsMap.keys m) -> (k, v) ∈ m -> JsMap.get m k = Some v.
Proof.
  unfold JsMap.keys. induction m as [|[k' v'] m IH]; simpl.
  - by intros _ ?%elem_of_nil.
  - intros [Hk Hm]%NoDup_cons [[= -> ->]|Hin]%elem_of_cons.
    + by rewrite decide_True.
    + rewrite decide_False; [by apply IH|].
      intros ->. apply Hk. apply list_elem_of_fmap. by exists (k, v).
Qed.

Lemma filter_none {A} (P : A -> Prop) `{forall x, Decision (P x)} (l : list A) :
  (forall x, x ∈ l -> ~ P x) -> filter P l = [].
Proof.
  induction l as [|x l IH]; intros Hno; [done|].
  rewrite filter_cons_False by (apply Hno; by left).
  apply IH. intros y Hy. apply Hno. by right.
Qed.

Lemma bind_unit {W A B} (m : M W A) (k : A -> M W B) s a :
  m s = mkResult (Ok a) s [] -> bind m k s = k a s.
Proof. unfold bind. intros ->. simpl. by destruct (k a s). Qed.

Lemma spec_differs_irrefl p : ~ spec_differs p p.
Proof. unfold spec_differs. tauto. Qed.

(** Against itself a snapshot shows no change. *)
Lemma detectChanges_same {W} (m : list (string * Wl.t)) (s : State W) :
  NoDup (JsMap.keys m) ->
  detectChanges m m s = mkResult (Ok []) s [].
Proof.
  intros Hnd.
  destruct (detectChanges_run m m s) as (changes & Hout & Hval & _ & Hfin & Hev).
  assert (Hno : forall e, e ∈ m -> ~ spec_is_change m e).
  { intros [g item] Hin. unfold spec_is_change. simpl.
    rewrite (get_of_NoDup _ _ _ Hnd Hin). apply spec_differs_irrefl. }
  assert (Hfilter : filter (spec_is_change m) m = []).
  { by apply filter_none. }
  rewrite Hfilter in Hval. apply fmap_nil_inv in Hval. subst changes.
  assert (Hlogs : flat_map (spec_change_log m) m = []).
  { clear -Hnd. assert (H : forall l, (forall e, e ∈ l -> e ∈ m) ->
                               flat_map (spec_change_log m) l = []).
    { induction l as [|[g item] l IH]; intros Hsub; [done|]. simpl.
      rewrite IH by (intros; apply Hsub; by right). rewrite app_nil_r.
      unfold spec_change_log. simpl.
      rewrite (get_of_NoDup m g item Hnd) by (apply Hsub; by left).
      rewrite decide_False; [done | apply spec_differs_irrefl]. }
    by apply H. }
  assert (Hrem : filter (fun e : string * Wl.t => JsMap.get m e.1 = None) m = []).
  { apply filter_none. intros [g item] Hin. simpl.
    by rewrite (get_of_NoDup _ _ _ Hnd Hin). }
  rewrite Hlogs, Hrem in Hev. simpl in Hev, Hfin.
  rewrite Nat.add_0_r in Hfin.
  destruct (detectChanges m m s) as [o f ev]. simpl in *. subst. by destruct s.
Qed.

Lemma processRssResults_same {W} (C : Collab W) (w : Workflow)
    (results : RssWatchlistResults) (s : State W) :
  (forall wl, self_watchlist results = Some wl ->
              previousSelfItems w = createItemMap wl) ->
  (forall wl, friends_watchlist results = Some wl ->
              previousFriendsItems w = createItemMap wl) ->
  processRssResults C w results s = mkResult (Ok w) s [].
Proof.
  intros Hself Hfriends. unfold processRssResults.
  assert (H1 : (match self_watchlist results with
                | Some wl =>
                    changes <- detectChanges (previousSelfItems w) (createItemMap wl) ;;
                    w0 <- (if 0 <? len changes
                           then addToQueue C w changes self else ret w) ;;
                    ret (set_previousSelfItems w0 (createItemMap wl))
                | None => ret w
                end) s = mkResult (Ok w) s []).
  { destruct (self_watchlist results) as [wl|]; [|done].
    rewrite (Hself wl eq_refl).
    rewrite (bind_unit _ _ _ [])
      by (apply detectChanges_same, createItemMap_NoDup).
    cbn -[createItemMap]. unfold ret. f_equal. f_equal.
    destruct w. simpl in *. by rewrite <- (Hself wl eq_refl). }
  rewrite (bind_unit _ _ _ w) by exact H1.
  destruct (friends_watchlist results) as [wl|]; [|done].
  rewrite (Hfriends wl eq_refl).
  rewrite (bind_unit _ _ _ [])
    by (apply detectChanges_same, createItemMap_NoDup).
  cbn -[createItemMap]. unfold ret. f_equal. f_equal.
  destruct w. simpl in *. by rewrite <- (Hfriends wl eq_refl).
Qed.

(** X5. A poll that finds each feed as its snapshot has it is without
    effect: [processRssResults] returns the workflow as it was, makes no
    call, logs nothing, creates no object and leaves the queue and
    [lastQueueItemTime] alone. *)
Theorem X5_unchanged_poll {W} (C : Collab W) (w : Workflow)
    (results : RssWatchlistResults) (s : State W) :
  (forall wl, self_watchlist results = Some wl ->
              previousSelfItems w = createItemMap wl) ->
  (forall wl, friends_watchlist results = Some wl ->
              previousFriendsItems w = createItemMap wl) ->
  processRssResults C w results s = mkResult (Ok w) s [].
Proof. apply processRssResults_same. Qed.

Lemma X5_unchanged_poll_witness :
  let w := mkWorkflow true true 0 [] (createItemMap [rss_item "g1" "Dune"]) [] false in
  let st := sample_state (mkSampleWorld [] [] false) in
  processRssResults sample_collab w
    (mkRssWatchlistResults (Some [rss_item "g1" "Dune"]) None) st
  = mkResult (Ok w) st [].
Proof.
  intros w st. apply X5_unchanged_poll.
  - intros wl [= <-]. reflexivity.
  - intros wl H. discriminate H.
Defined.

Lemma enqueue_grows (items : list (Obj Tempt.t)) queue b o :
  o ∈ queue -> o ∈ (fold_left enqueue items (queue, b)).1.
Proof.
  revert queue b. induction items as [|x items IH]; intros queue b Hin; [done|].
  cbn [fold_left]. unfold enqueue at 2. cbn [fst].
  destruct (ObjSet.has queue x) eqn:Hhas; cbn [negb].
  - by apply IH.
  - apply IH. unfold ObjSet.add. rewrite Hhas. apply elem_of_app. by left.
Qed.

(** [addToQueue] returns whatever the storage does: the queue as the
    loop left it, and the time of the call if the loop added to it. *)
Lemma addToQueue_out {W} (C : Collab W) (w : Workflow)
    (items : list (Obj Tempt.t)) (source : Source) (s : State W) :
  let r := fold_left enqueue items (changeQueue w, false) in
  out (addToQueue C w items source s)
  = Ok (mkWorkflow (rssCheckInterval w) (queueCheckInterval w)
          (if r.2 then Date_now C (tick s) else lastQueueItemTime w) r.1
          (previousSelfItems w) (previousFriendsItems w) (isRefreshing w)).
Proof.
  intros r. unfold addToQueue. fold r. destruct r.2; [|done].
  rewrite (bind_Ok _ _ _ (tick s)) by done. cbn [out final read_clock].
  rewrite (bind_Ok _ _ _ tt) by done. cbn [out final log log_with].
  rewrite (bind_Ok _ _ _ tt) by apply try_catch_log_out.
  done.
Qed.

Lemma poll_source_out {W} (C : Collab W) (w : Workflow) prev cur source
    (update : Workflow -> Workflow) (s : State W) :
  exists t q,
    out ((changes <- detectChanges prev cur ;;
          w0 <- (if 0 <? len changes then addToQueue C w changes source else ret w) ;;
          ret (update w0)) s)
    = Ok (update (mkWorkflow (rssCheckInterval w) (queueCheckInterval w) t q
                    (previousSelfItems w) (previousFriendsItems w) (isRefreshing w)))
    /\ forall o, o ∈ changeQueue w -> o ∈ q.
Proof.
  destruct (detectChanges_run prev cur s) as (changes & Hout & _).
  rewrite (bind_Ok _ _ _ _ Hout). cbn [out].
  destruct (0 <? len changes).
  - rewrite (bind_Ok _ _ _ _ (addToQueue_out C w changes source _)). cbn [out ret].
    eexists _, _. split; [reflexivity|]. intros o. apply enqueue_grows.
  - exists (lastQueueItemTime w), (changeQueue w). split; [|done].
    rewrite (bind_Ok _ _ _ w) by done. cbn [out ret]. by destruct w.
Qed.

Lemma processRssResults_out {W} (C : Collab W) (w : Workflow)
    (results : RssWatchlistResults) (s : State W) :
  exists t q,
    out (processRssResults C w results s)
    = Ok (mkWorkflow (rssCheckInterval w) (queueCheckInterval w) t q
            (from_option createItemMap (previousSelfItems w) (self_watchlist results))
            (from_option createItemMap (previousFriendsItems w)
               (friends_watchlist results))
            (isRefreshing w))
    /\ forall o, o ∈ changeQueue w -> o ∈ q.
Proof.
  unfold processRssResults.
  assert (H1 : exists t q,
             out ((match self_watchlist results with
                   | Some wl =>
                       changes <- detectChanges (previousSelfItems w) (createItemMap wl) ;;
                       w0 <- (if 0 <? len changes
                              then addToQueue C w changes self else ret w) ;;
                       ret (set_previousSelfItems w0 (createItemMap wl))
                   | None => ret w
                   end) s)
             = Ok (mkWorkflow (rssCheckInterval w) (queueCheckInterval w) t q
                     (from_option createItemMap (previousSelfItems w)
                        (self_watchlist results))
                     (previousFriendsItems w) (isRefreshing w))
             /\ forall o, o ∈ changeQueue w -> o ∈ q).
  { destruct (self_watchlist results) as [wl|].
    - destruct (poll_source_out C w (previousSelfItems w) (createItemMap wl) self
                  (fun w0 => set_previousSelfItems w0 (createItemMap wl)) s)
        as (t & q & Hout & Hq).
      exists t, q. split; [|done]. by rewrite Hout.
    - exists (lastQueueItemTime w), (changeQueue w). split; [|done]. by destruct w. }
  destruct H1 as (t1 & q1 & Hout1 & Hq1).
  rewrite (bind_Ok _ _ _ _ Hout1). cbn [out].
  set (w1 := mkWorkflow _ _ t1 q1 _ _ _) in *.
  destruct (friends_watchlist results) as [wl|].
  - destruct (poll_source_out C w1 (previousFriendsItems w1) (createItemMap wl) friends
                (fun w0 => set_previousFriendsItems w0 (createItemMap wl))
                (final ((match self_watchlist results with
                   | Some wl =>
                       changes <- detectChanges (previousSelfItems w) (createItemMap wl) ;;
                       w0 <- (if 0 <? len changes
                              then addToQueue C w changes self else ret w) ;;
                       ret (set_previousSelfItems w0 (createItemMap wl))
                   | None => ret w
                   end) s)))
      as (t & q & Hout & Hq).
    exists t, q. split; [by rewrite Hout|]. intros o Ho. apply Hq, Hq1, Ho.
  - exists t1, q1. by split.
Qed.

(** X6. A poll never throws, also when the pending store rejects the
    changes: [processRssResults] returns a workflow in which each
    snapshot whose feed was in the results is the map of that feed (the
    other is kept), nothing has left the queue, and the timers and the
    guard are as before. *)
Theorem X6_poll_returns {W} (C : Collab W) (w : Workflow)
    (results : RssWatchlistResults) (s : State W) :
  exists t q,
    out (processRssResults C w results s)
    = Ok (mkWorkflow (rssCheckInterval w) (queueCheckInterval w) t q
            (from_option createItemMap (previousSelfItems w) (self_watchlist results))
            (from_option createItemMap (previousFriendsItems w)
               (friends_watchlist results))
            (isRefreshing w))
    /\ forall o, o ∈ changeQueue w -> o ∈ q.
Proof. apply processRssResults_out. Qed.

(** The poll goes on when the store fails: the change is queued, the
    failure is logged and the snapshot moves on. *)
Example poll_with_failing_store :
  let r := processRssResults sample_collab_busy idle_workflow
             (mkRssWatchlistResults (Some [rss_item "g1" "Dune"]) None)
             (sample_state (mkSampleWorld [] [] false)) in
  out r = Ok (mkWorkflow true true 0 [mkObj 0%nat (tempt_of (rss_item "g1" "Dune"))]
                (createItemMap [rss_item "g1" "Dune"]) [] false)
  /\ Log error "Error storing self RSS items:" [] ∈ events r.
Proof. split; [reflexivity|]. vm_compute. repeat (first [by left | right]). Qed.

(** ** The timers of the workflow *)

Section ForwardFacts.
Context {W : Type}.

Lemma elem_events_bind_l {A B} (m : M W A) (k : A -> M W B) s e :
  e ∈ events (m s) -> e ∈ events (bind m k s).
Proof.
  unfold bind. destruct (out (m s)); simpl; [|done].
  intros. apply elem_of_app. by left.
Qed.

Lemma elem_events_bind_r {A B} (m : M W A) (k : A -> M W B) s a e :
  out (m s) = Ok a -> e ∈ events (k a (final (m s))) -> e ∈ events (bind m k s).
Proof.
  unfold bind. intros ->. simpl. intros. apply elem_of_app. by right.
Qed.

Lemma elem_events_try_catch {A} (m : M W A) (h : string -> M W A) s e :
  e ∈ events (m s) -> e ∈ events (try_catch m h s).
Proof.
  unfold try_catch. destruct (out (m s)); simpl; [done|].
  intros. apply elem_of_app. by left.
Qed.

Lemma last_events_bind {A B} (m : M W A) (k : A -> M W B) s a e :
  out (m s) = Ok a -> last (events (k a (final (m s)))) = Some e ->
  last (events (bind m k s)) = Some e.
Proof.
  unfold bind. intros ->. simpl. intros Hlast.
  apply last_Some in Hlast as (l & ->). by rewrite app_assoc, last_snoc.
Qed.

End ForwardFacts.

(** X7. The callback of the RSS timer never throws.  When reading the
    feeds fails, the error is logged and the workflow is as it was;
    otherwise the poll is that of [processRssResults] on what was read.
    In both cases nothing leaves the queue and the timers and the guard
    are untouched. *)
Theorem X7_rssTick_returns {W} (C : Collab W) (R : Feeds W) (config : Config)
    (w : Workflow) (s : State W) :
  let r := rssTick C R config w s in
  exists w',
    out r = Ok w'
    /\ rssCheckInterval w' = rssCheckInterval w
    /\ queueCheckInterval w' = queueCheckInterval w
    /\ isRefreshing w' = isRefreshing w
    /\ (forall o, o ∈ changeQueue w -> o ∈ changeQueue w')
    /\ match out (processRssWatchlists C R config s) with
       | Throw _ =>
           w' = w
           /\ events r = events (processRssWatchlists C R config s)
                         ++ [Log error "Error checking RSS feeds:" []]
       | Ok results =>
           out (processRssResults C w (watchlists_of results)
                  (final (processRssWatchlists C R config s))) = Ok w'
       end.
Proof.
  intros r. subst r. unfold rssTick, try_catch.
  destruct (out (processRssWatchlists C R config s)) as [results|msg] eqn:Hread.
  - destruct (processRssResults_out C w (watchlists_of results)
                (final (processRssWatchlists C R config s))) as (t & q & Hout & Hq).
    rewrite (bind_Ok _ _ _ _ Hread). cbn [out]. rewrite Hout.
    eexists. repeat split; done.
  - rewrite (bind_Throw _ _ _ _ Hread). cbn [out final events].
    exists w. repeat split; done.
Qed.

Lemma initializeRssSnapshots_out {W} (C : Collab W) (R : Feeds W) (config : Config)
    (w w1 : Workflow) (s : State W) :
  out (initializeRssSnapshots C R config w s) = Ok w1 ->
  exists results,
    out (processRssWatchlists C R config s) = Ok results
    /\ w1 = mkWorkflow (rssCheckInterval w) (queueCheckInterval w)
              (lastQueueItemTime w) (changeQueue w)
              (from_option createItemMap (previousSelfItems w)
                 (first_watchlist (rss_self results)))
              (from_option createItemMap (previousFriendsItems w)
                 (first_watchlist (rss_friends results)))
              (isRefreshing w).
Proof.
  unfold initializeRssSnapshots. intros Hout.
  apply out_bind_Ok in Hout as ([] & _ & Hout). cbn [final log log_with] in Hout.
  apply out_bind_Ok in Hout as (results & Hres & Hout).
  exists results. split; [done|].
  apply out_bind_Ok in Hout as (w0 & Hw0 & Hout).
  assert (E0 : w0 = set_previousSelfItems w
                      (from_option createItemMap (previousSelfItems w)
                         (first_watchlist (rss_self results)))).
  { destruct (first_watchlist (rss_self results)) as [wl|].
    - apply out_bind_Ok in Hw0 as ([] & _ & Hw0). by injection Hw0 as <-.
    - injection Hw0 as <-. by destruct w. }
  subst w0.
  destruct (first_watchlist (rss_friends results)) as [wl|].
  - apply out_bind_Ok in Hout as ([] & _ & Hout). by injection Hout as <-.
  - by injection Hout as <-.
Qed.

(** X8. [startWorkflow] never throws, and it ends in one of two ways.
    Either a step failed: the error is the last thing logged, and the
    workflow is as it was, no timer started.  Or every step went
    through: both timers are set, the last line logged is
    "Plex testing workflow running", and the queue, the guard and
    [lastQueueItemTime] are as they were. *)
Theorem X8_startWorkflow_returns {W} (C : Collab W) (R : Feeds W) (config : Config)
    (w : Workflow) (s : State W) :
  let r := startWorkflow C R config w s in
  exists w',
    out r = Ok w'
    /\ ((w' = w
         /\ last (events r) = Some (Log error "Error in Plex testing workflow:" []))
        \/ (rssCheckInterval w' = true /\ queueCheckInterval w' = true
            /\ changeQueue w' = changeQueue w
            /\ isRefreshing w' = isRefreshing w
            /\ lastQueueItemTime w' = lastQueueItemTime w
            /\ last (events r) = Some (Log info "Plex testing workflow running" []))).
Proof.
  intros r. subst r. unfold startWorkflow.
  rewrite (bind_Ok _ _ _ tt) by done. cbn [out final events log log_with].
  match goal with
  | |- context [try_catch ?m ?h s] => set (body := m); set (handler := h)
  end.
  unfold try_catch.
  destruct (out (body s)) as [w'|msg] eqn:Hbody.
  - exists w'. split; [done|]. right.
    pose proof Hbody as Hout. unfold body in Hout.
    apply out_bind_Ok in Hout as (b & Hping & Hout).
    apply out_bind_Ok in Hout as ([] & Hlog & Hout).
    apply out_bind_Ok in Hout as ([] & Hfetch & Hout).
    apply out_bind_Ok in Hout as (rssFeeds & Hgen & Hout).
    apply out_bind_Ok in Hout as ([] & Hcheck & Hout).
    apply out_bind_Ok in Hout as (w1 & Hinit & Hout).
    apply out_bind_Ok in Hout as ([] & Hrun & Hout).
    injection Hout as <-.
    apply initializeRssSnapshots_out in Hinit as Hw1.
    destruct Hw1 as (results & _ & ->).
    repeat split; try done.
    assert (Hlast : last (events (body s))
                    = Some (Log info "Plex testing workflow running" [])).
    { unfold body.
      eapply last_events_bind; [exact Hping|].
      eapply last_events_bind; [exact Hlog|].
      eapply last_events_bind; [exact Hfetch|].
      eapply last_events_bind; [exact Hgen|].
      eapply last_events_bind; [exact Hcheck|].
      eapply last_events_bind; [exact Hinit|].
      reflexivity. }
    apply last_Some in Hlast as (l & Hl). cbn [events]. rewrite Hl.
    by rewrite app_assoc, last_snoc.
  - exists w. split; [done|]. left. split; [done|].
    cbn [events]. unfold handler.
    rewrite (bind_Ok _ _ _ tt) by done. cbn [events log log_with ret].
    by rewrite app_nil_r, !app_assoc, last_snoc.
Qed.

(** X9. [startWorkflow] does not read what [pingPlex] returns: whenever
    the ping returns, be it [false] because a token was refused, the
    connection is logged as verified and the watchlists are refreshed.
    Only a ping that throws ends the start there. *)
Theorem X9_startWorkflow_ignores_ping {W} (C : Collab W) (R : Feeds W)
    (config : Config) (w : Workflow) (s : State W) (b : bool) :
  out (pingPlex C config s) = Ok b ->
  let r := startWorkflow C R config w s in
  Log info "Plex connection verified" [] ∈ events r
  /\ Log info "Refreshing watchlists" [] ∈ events r.
Proof.
  intros Hping r. subst r. unfold startWorkflow.
  split.
  - eapply elem_events_bind_r; [reflexivity|]. apply elem_events_try_catch.
    eapply elem_events_bind_r; [exact Hping|].
    apply elem_events_bind_l. by apply list_elem_of_singleton.
  - eapply elem_events_bind_r; [reflexivity|]. apply elem_events_try_catch.
    eapply elem_events_bind_r; [exact Hping|].
    eapply elem_events_bind_r; [reflexivity|].
    apply elem_events_bind_l. unfold fetchWatchlists.
    apply elem_events_bind_l. by apply list_elem_of_singleton.
Qed.

Lemma X9_startWorkflow_ignores_ping_witness :
  let config := mkConfig ["expired"] None in
  let st := sample_state (mkSampleWorld [] [] false) in
  let r := startWorkflow sample_collab sample_feeds config idle_workflow st in
  out (pingPlex sample_collab config st) = Ok false
  /\ Log info "Plex connection verified" [] ∈ events r
  /\ Log info "Refreshing watchlists" [] ∈ events r.
Proof.
  intros config st r. split; [reflexivity|].
  exact (X9_startWorkflow_ignores_ping sample_collab sample_feeds config
           idle_workflow st false eq_refl).
Defined.

(** X10. The snapshots that [initializeRssSnapshots] takes are those a
    poll compares with: a poll that reads the feeds as the
    initialisation read them reports no change, queues nothing and
    leaves the workflow as the initialisation returned it. *)
Theorem X10_first_poll_after_init {W} (C : Collab W) (R : Feeds W)
    (config : Config) (w w1 : Workflow) (s s' : State W) (results : RssResults) :
  out (processRssWatchlists C R config s) = Ok results ->
  out (initializeRssSnapshots C R config w s) = Ok w1 ->
  processRssResults C w1 (watchlists_of results) s' = mkResult (Ok w1) s' [].
Proof.
  intros Hread Hinit.
  apply initializeRssSnapshots_out in Hinit as (results' & Hread' & ->).
  rewrite Hread in Hread'. injection Hread' as <-.
  apply processRssResults_same; cbn [watchlists_of self_watchlist friends_watchlist
    previousSelfItems previousFriendsItems]; by intros wl ->.
Qed.

Lemma X10_first_poll_after_init_witness :
  let st := sample_state (mkSampleWorld [] [] false) in
  let feed := map as_watchlist_item
                (mapRssItemsToWatchlist [feed_dune; feed_alien; feed_unknown]) in
  let w1 := mkWorkflow true true 0 [] (createItemMap feed) [] false in
  out (initializeRssSnapshots sample_collab sample_feeds one_token idle_workflow st)
  = Ok w1
  /\ processRssResults sample_collab w1 (mkRssWatchlistResults (Some feed) None) st
     = mkResult (Ok w1) st [].
Proof.
  intros st feed w1. split; [reflexivity|].
  exact (X10_first_poll_after_init sample_collab sample_feeds one_token
           idle_workflow w1 st st
           (mkRssResults
              (mkRssFeed 3 [mkRssGroup (mkFriend "token1" "token1" 1)
                              (mapRssItemsToWatchlist
                                 [feed_dune; feed_alien; feed_unknown])])
              (mkRssFeed 0 []))
           eq_refl eq_refl).
Defined.

(** ** The feed URLs *)

Section FeedUrlFacts.
Context {W : Type} (C : Collab W) (config : Config).

Lemma generateAndSaveRssFeeds_events (s : State W) e :
  e ∈ events (generateAndSaveRssFeeds C config s) ->
  e = CallGetPlexWatchlistUrls (JsSet.of_list (plexTokens config))
        (default false (skipFriendSync config))
  \/ (exists urls w,
        ext_getPlexWatchlistUrls C (JsSet.of_list (plexTokens config))
          (default false (skipFriendSync config)) (world s) = (Ok urls, w)
        /\ urls <> []
        /\ (e = DbUpdateConfig (default "" (urls !! 0%nat)) (default "" (urls !! 1%nat))
            \/ e = Log info "RSS feed URLs saved to database" [])).
Proof.
  unfold generateAndSaveRssFeeds. intros Hin.
  destruct (len (plexTokens config) =? 0); [no_event Hin|].
  in_bind Hin urls Hurls; [left; by apply in_events_call in Hin|].
  right. unfold call in Hurls, Hin.
  destruct (ext_getPlexWatchlistUrls C _ _ (world s)) as [o w] eqn:Hext.
  simpl in Hurls. subst o. cbn [final] in Hin.
  destruct urls as [|u urls]; [no_event Hin|].
  rewrite len_cons_nonzero in Hin.
  exists (u :: urls), w. split; [done|]. split; [done|].
  in_bind Hin u1 Hu1; [left; by apply in_events_call in Hin|].
  in_bind Hin u2 Hu2; [right; by apply list_elem_of_singleton in Hin|].
  no_event Hin.
Qed.

End FeedUrlFacts.

(** X11. [generateAndSaveRssFeeds] asks the Plex client once at most,
    with the configured tokens freed of duplicates.  When it returns an
    error value, that value is one of its two messages and the
    configuration row was not written.  When it returns the two URLs,
    they are the ones it has just written to the configuration row: the
    first and the second URL the client gave, an absent second one
    being the empty string. *)
Theorem X11_generateAndSaveRssFeeds {W} (C : Collab W) (config : Config)
    (s : State W) :
  let r := generateAndSaveRssFeeds C config s in
  (forall tokens skip, CallGetPlexWatchlistUrls tokens skip ∈ events r ->
     NoDup tokens /\ (forall t, t ∈ tokens <-> t ∈ plexTokens config))
  /\ (forall msg, out r = Ok (RssError msg) ->
        (msg = "No Plex token configured" \/ msg = "Unable to fetch watchlist URLs")
        /\ forall a b, DbUpdateConfig a b ∉ events r)
  /\ (forall a b, out r = Ok (RssFeeds a b) ->
        DbUpdateConfig a b ∈ events r
        /\ exists urls w,
             ext_getPlexWatchlistUrls C (JsSet.of_list (plexTokens config))
               (default false (skipFriendSync config)) (world s) = (Ok urls, w)
             /\ urls <> []
             /\ a = default "" (urls !! 0%nat) /\ b = default "" (urls !! 1%nat)).
Proof.
  intros r. subst r. split; [|split].
  - intros tokens skip Hin.
    apply generateAndSaveRssFeeds_events in Hin
      as [[= -> ->]|(urls & w & _ & _ & [Hin|Hin])]; [|done..].
    split; [apply NoDup_of_list | intros t; apply elem_of_of_list].
  - intros msg Hout. unfold generateAndSaveRssFeeds in *.
    destruct (len (plexTokens config) =? 0).
    { injection Hout as <-. split; [by left|]. by intros a b ?%elem_of_nil. }
    unfold bind at 1 in Hout. unfold bind at 1. unfold call in *.
    destruct (ext_getPlexWatchlistUrls C _ _ (world s)) as [[urls|m] w]; simpl in *;
      [|done].
    destruct urls as [|u urls].
    + injection Hout as <-. split; [by right|].
      intros a b Hin. rewrite ?app_nil_r in Hin.
      by apply list_elem_of_singleton in Hin.
    + rewrite len_cons_nonzero in Hout. exfalso.
      apply out_bind_Ok in Hout as (u1 & _ & Hout).
      by apply out_bind_Ok in Hout as (u2 & _ & Hout).
  - intros a b Hout. unfold generateAndSaveRssFeeds in *.
    destruct (len (plexTokens config) =? 0); [done|].
    apply out_bind_Ok in Hout as Hout'. destruct Hout' as (urls & Hurls & Hrest).
    rewrite (bind_Ok _ _ _ _ Hurls). cbn [events].
    unfold call in Hurls, Hrest |- *.
    destruct (ext_getPlexWatchlistUrls C _ _ (world s)) as [o w]. simpl in Hurls.
    subst o. cbn [final events] in *.
    destruct urls as [|u urls]; [done|]. rewrite len_cons_nonzero in Hrest |- *.
    apply out_bind_Ok in Hrest as Hrest'. destruct Hrest' as ([] & Hupd & Hrest').
    apply out_bind_Ok in Hrest' as ([] & _ & Hret). injection Hret as <- <-.
    split.
    + apply elem_of_app. right. apply elem_events_bind_l.
      cbn [lookup list_lookup default from_option id]. unfold call.
      match goal with |- context [db_updateConfig C ?a ?b ?x] =>
        destruct (db_updateConfig C a b x) end.
      by apply list_elem_of_singleton.
    + by exists (u :: urls), w.
Qed.

(** ** The route [GET /generate-rss-feeds] *)

(** X12. The handler of [GET /generate-rss-feeds] never throws.  It sets
    the status [500], with the fixed error body, exactly when the
    service threw, and it logs what was thrown.  Whatever the service
    returns is sent as it is with no status set, the error values too:
    without tokens the reply is the body
    [{error: 'No Plex token configured'}] under the default status. *)
Theorem X12_generateRssFeedsHandler {W} (C : Collab W) (config : Config)
    (s : State W) :
  let r := generateRssFeedsHandler C config s in
  exists reply,
    out r = Ok reply
    /\ match out (generateAndSaveRssFeeds C config s) with
       | Ok response => reply = mkReply None response
       | Throw msg =>
           reply = mkReply (Some 500) (RssError "Unable to fetch watchlist URLs")
           /\ Log error msg [] ∈ events r
       end
    /\ (plexTokens config = [] ->
        reply = mkReply None (RssError "No Plex token configured")).
Proof.
  intros r. subst r. unfold generateRssFeedsHandler, try_catch.
  destruct (out (generateAndSaveRssFeeds C config s)) as [response|msg] eqn:Hgen.
  - rewrite (bind_Ok _ _ _ _ Hgen). cbn [out ret]. eexists. split; [done|].
    split; [done|]. intros Hno. unfold generateAndSaveRssFeeds in Hgen.
    rewrite Hno in Hgen. by injection Hgen as <-.
  - rewrite (bind_Throw _ _ _ _ Hgen). cbn [out final events].
    rewrite (bind_Ok _ _ _ tt) by done. cbn [out events log log_with ret].
    eexists. split; [done|]. split.
    + split; [done|]. rewrite app_nil_r. apply elem_of_app. right.
      by apply list_elem_of_singleton.
    + intros Hno. unfold generateAndSaveRssFeeds in Hgen. by rewrite Hno in Hgen.
Qed.

(** ** Linking *)

(** X13. [linkExistingItems] writes the rows to link in one batch: with
    no row to link it makes no call and logs nothing; otherwise its only
    write is one [createWatchlistItems] of all the rows, in the order of
    the map, with [onConflict: 'merge'], made first; and when that write
    is rejected, the genre index is not resynchronised and the rejection
    is passed on. *)
Theorem X13_linkExistingItems {W} (C : Collab W)
    (toLink : list (Friend * list Item.t)) (s : State W) :
  let r := linkExistingItems C toLink s in
  let linkItems := concat (JsMap.values toLink) in
  (linkItems = [] -> r = mkResult (Ok tt) s [])
  /\ (linkItems <> [] ->
      exists rest,
        events r = DbCreateWatchlistItems linkItems true :: rest
        /\ (forall items merge, DbCreateWatchlistItems items merge ∉ rest)
        /\ forall msg,
             (db_createWatchlistItems C linkItems true (world s)).1 = Throw msg ->
             rest = [] /\ out r = Throw msg).
Proof.
  intros r linkItems. subst r. unfold linkExistingItems. fold linkItems. split.
  - by intros ->.
  - intros Hne. destruct linkItems as [|x l] eqn:E; [done|].
    rewrite len_cons_pos. rewrite <- E. clear Hne.
    destruct (db_createWatchlistItems C linkItems true (world s)) as [o w] eqn:Hdb.
    assert (Hcall : call (DbCreateWatchlistItems linkItems true)
                      (db_createWatchlistItems C linkItems true) s
                    = mkResult o (mkState w (tick s) (heap s))
                        [DbCreateWatchlistItems linkItems true]).
    { unfold call. by rewrite Hdb. }
    destruct o as [[]|m].
    + rewrite (bind_Ok _ _ _ tt) by (by rewrite Hcall). rewrite Hcall.
      cbn [out final events app]. eexists. split; [reflexivity|]. split; [|done].
      intros items merge Hin.
      in_bind Hin u Hu; [by apply in_events_call in Hin|].
      by apply list_elem_of_singleton in Hin.
    + rewrite (bind_Throw _ _ _ m) by (by rewrite Hcall). rewrite Hcall.
      cbn [out final events fst].
      exists []. split; [done|]. split; [by intros ?? ?%elem_of_nil|].
      by intros msg [= ->].
Qed.

(** ** The users of a pass *)

Section PromiseFacts.
Context {W : Type}.

Lemma run_all_lookup {A} (tasks : list (M W A)) s os i task :
  out (run_all tasks s) = Ok os -> tasks !! i = Some task ->
  exists s', os !! i = Some (out (task s')).
Proof.
  revert s os i. induction tasks as [|t tasks IH]; intros s os i Hout Hi; [done|].
  cbn [run_all] in Hout. apply out_bind_Ok in Hout as (o & Ho & Hout).
  apply out_bind_Ok in Hout as (os' & Hos' & Hout). injection Hout as <-.
  injection Ho as <-. cbn [final attempt] in Hos'.
  destruct i as [|i]; simpl in Hi |- *.
  - injection Hi as <-. by exists s.
  - by eapply IH.
Qed.

Lemma Promise_all_lookup {A} (tasks : list (M W A)) s l i task :
  out (Promise_all tasks s) = Ok l -> tasks !! i = Some task ->
  exists s' a, l !! i = Some a /\ out (task s') = Ok a.
Proof.
  unfold Promise_all. intros Hout Hi.
  apply out_bind_Ok in Hout as (os & Hos & Hout).
  destruct (first_rejection os) as [l'|msg] eqn:Hfirst; [|done].
  injection Hout as <-. apply first_rejection_Ok in Hfirst. subst os.
  destruct (run_all_lookup _ _ _ _ _ Hos Hi) as (s' & Hlook).
  rewrite list_lookup_fmap in Hlook.
  destruct (l' !! i) as [a|] eqn:Ha; [|done]. injection Hlook as Hlook.
  by exists s', a.
Qed.

Lemma Promise_all_length {A} (tasks : list (M W A)) s l :
  out (Promise_all tasks s) = Ok l -> length l = length tasks.
Proof.
  unfold Promise_all. intros Hout.
  apply out_bind_Ok in Hout as (os & Hos & Hout).
  destruct (first_rejection os) as [l'|msg] eqn:Hfirst; [|done].
  injection Hout as <-. apply first_rejection_Ok in Hfirst. subst os.
  destruct (run_all_out tasks s) as (os' & Hos' & Hlen).
  rewrite Hos in Hos'. injection Hos' as <-. by rewrite length_map in Hlen.
Qed.

Lemma in_events_run_all {A} (tasks : list (M W A)) s e :
  e ∈ events (run_all tasks s) ->
  exists task s', task ∈ tasks /\ e ∈ events (task s').
Proof.
  revert s. induction tasks as [|t tasks IH]; intros s Hin; [no_event Hin|].
  cbn [run_all] in Hin. in_bind Hin o Ho.
  - exists t, s. split; [by left | done].
  - in_bind Hin os Hos; [|no_event Hin].
    destruct (IH _ Hin) as (task & s' & Htask & He).
    exists task, s'. split; [by right | done].
Qed.

Lemma in_events_Promise_all {A} (tasks : list (M W A)) s e :
  e ∈ events (Promise_all tasks s) ->
  exists task s', task ∈ tasks /\ e ∈ events (task s').
Proof.
  unfold Promise_all. intros Hin. in_bind Hin os Hos.
  - by apply in_events_run_all in Hin.
  - destruct (first_rejection os); no_event Hin.
Qed.

End PromiseFacts.

Lemma set_all_spec {K V} `{EqDecision K} (entries : list (K * V)) :
  (forall k, k ∈ JsMap.keys (set_all entries) <-> k ∈ entries.*1)
  /\ (forall k v, (k, v) ∈ set_all entries -> (k, v) ∈ entries).
Proof.
  unfold set_all. induction entries as [|[k0 v0] entries [IHk IHv]] using rev_ind.
  - split; [done|]. by intros ?? ?%elem_of_nil.
  - rewrite fold_left_app. cbn [fold_left fst snd]. split.
    + intros k. rewrite elem_of_keys_set, IHk, fmap_app, elem_of_app.
      simpl. rewrite list_elem_of_singleton. tauto.
    + intros k v [[-> ->]|Hin]%elem_of_set; rewrite elem_of_app.
      * right. by apply list_elem_of_singleton.
      * left. by apply IHv.
Qed.

Lemma set_all_get {K V} `{EqDecision K} (entries : list (K * V)) k :
  k ∈ entries.*1 -> exists v, JsMap.get (set_all entries) k = Some v /\ (k, v) ∈ entries.
Proof.
  intros Hk. destruct (set_all_spec entries) as [Hkeys Hvals].
  destruct (JsMap.get (set_all entries) k) as [v|] eqn:Hget.
  - exists v. split; [done|]. by apply Hvals, get_Some_elem_of.
  - apply get_None_keys in Hget. by apply Hkeys in Hk.
Qed.

Section UserFacts.
Context {W : Type} (C : Collab W) (config : Config).

Lemma ensureUser_nonzero username (s : State W) uid :
  out (ensureUser C username s) = Ok uid -> uid <> 0.
Proof.
  unfold ensureUser. intros Hout.
  apply out_bind_Ok in Hout as (found & _ & Hout).
  apply out_bind_Ok in Hout as (user & _ & Hout).
  destruct (User.id user) as [z|]; simpl in Hout; [|done].
  destruct (z =? 0) eqn:Hz; simpl in Hout; [done|].
  injection Hout as <-. by apply Z.eqb_neq.
Qed.

Lemma ensureUser_events username (s : State W) e :
  e ∈ events (ensureUser C username s) ->
  e = DbGetUser username \/ e = DbCreateUser username (username +:+ "@placeholder.com").
Proof.
  unfold ensureUser. intros Hin.
  in_bind Hin found Hfound; [left; by apply in_events_call in Hin|].
  in_bind Hin user Huser.
  - destruct found; [no_event Hin|]. right. by apply in_events_call in Hin.
  - destruct (truthy_num (User.id user)); no_event Hin.
Qed.

Lemma ensureTokenUsers_get (s : State W) userMap i token :
  out (ensureTokenUsers C config s) = Ok userMap ->
  plexTokens config !! i = Some token ->
  exists uid, JsMap.get userMap ("token" +:+ pretty (S i)) = Some uid /\ uid <> 0.
Proof.
  unfold ensureTokenUsers. intros Hout Hi.
  apply out_bind_Ok in Hout as (entries & Hentries & Hout). injection Hout as <-.
  match type of Hentries with context [imap ?g _] => set (f := g) in * end.
  assert (Hlook : forall j tok, plexTokens config !! j = Some tok ->
            imap f (plexTokens config) !! j = Some (f j tok)).
  { intros j tok Htok. by rewrite list_lookup_imap, Htok. }
  assert (Hnz : forall k v, (k, v) ∈ entries -> v <> 0).
  { intros k v Hin. apply list_elem_of_lookup in Hin as (j & Hj).
    pose proof (Promise_all_length _ _ _ Hentries) as Hlen.
    rewrite length_imap in Hlen.
    destruct (plexTokens config !! j) as [tok|] eqn:Htok.
    - destruct (Promise_all_lookup _ _ _ _ _ Hentries (Hlook j tok Htok))
        as (s' & a & Ha & Htask).
      rewrite Hj in Ha. injection Ha as <-.
      apply out_bind_Ok in Htask as (uid & Huid & Htask). injection Htask as _ <-.
      by apply ensureUser_nonzero in Huid.
    - apply lookup_ge_None in Htok. apply lookup_lt_Some in Hj. lia. }
  destruct (Promise_all_lookup _ _ _ _ _ Hentries (Hlook i token Hi))
    as (s' & a & Ha & Htask).
  apply out_bind_Ok in Htask as (uid & Huid & Htask). injection Htask as <-.
  destruct (set_all_get entries ("token" +:+ pretty (S i))) as (v & Hget & Hin).
  { apply list_elem_of_fmap. exists ("token" +:+ pretty (S i), uid).
    split; [done|]. by eapply list_elem_of_lookup_2. }
  exists v. split; [done|]. by eapply Hnz.
Qed.

End UserFacts.

(** X14. When [ensureTokenUsers] returns, its map has, for every
    configured token, an entry under the name of that token
    ([token1], [token2], ...) with a user id that is not [0].  So the
    callback of [getSelfWatchlist] never takes its
    "No user ID found" exit: for every token it does one thing, the
    fetch of that token's watchlist under that id. *)
Theorem X14_every_token_is_fetched {W} (C : Collab W) (config : Config)
    (s : State W) (userMap : list (string * Z)) (i : nat) (token : string) :
  out (ensureTokenUsers C config s) = Ok userMap ->
  plexTokens config !! i = Some token ->
  exists uid,
    JsMap.get userMap ("token" +:+ pretty (S i)) = Some uid
    /\ uid <> 0
    /\ forall s', events (collectToken C userMap i token s')
                  = [CallFetchSelfWatchlist token uid].
Proof.
  intros Hout Hi.
  destruct (ensureTokenUsers_get C config s userMap i token Hout Hi) as (uid & Hget & Hnz).
  exists uid. split; [done|]. split; [done|].
  intros s'. unfold collectToken. rewrite Hget. cbn [truthy_num default from_option id].
  apply Z.eqb_neq in Hnz. rewrite Hnz. cbn [negb].
  unfold bind, call. destruct (ext_fetchSelfWatchlist C token uid (world s')) as [[items|m] w];
    cbn [out events final]; [|done].
  by destruct (0 <? len items).
Qed.

Lemma X14_every_token_is_fetched_witness :
  let st := sample_state (mkSampleWorld [] [] false) in
  exists uid,
    JsMap.get [("token1", 1)] ("token" +:+ pretty 1%nat) = Some uid
    /\ uid <> 0
    /\ forall s', events (collectToken sample_collab [("token1", 1)] 0 "t1" s')
                  = [CallFetchSelfWatchlist "t1" uid].
Proof.
  intros st.
  exact (X14_every_token_is_fetched sample_collab one_token st [("token1", 1)]
           0%nat "t1" eq_refl eq_refl).
Defined.

(** ** The Watchlist Collector *)

Section CollectorFacts.
Context {W : Type} (C : Collab W) (config : Config).

Lemma ensureTokenUsers_events (s : State W) e :
  e ∈ events (ensureTokenUsers C config s) ->
  (exists name, e = DbGetUser name) \/ (exists name email, e = DbCreateUser name email).
Proof.
  unfold ensureTokenUsers. intros Hin.
  in_bind Hin entries Hentries; [|no_event Hin].
  apply in_events_Promise_all in Hin as (task & s' & Htask & Hin).
  apply list_elem_of_lookup in Htask as (i & Hi).
  rewrite list_lookup_imap in Hi.
  destruct (plexTokens config !! i) as [tok|]; [|done]. injection Hi as <-.
  in_bind Hin uid Huid; [|no_event Hin].
  apply ensureUser_events in Hin as [->| ->]; eauto.
Qed.

Lemma collectToken_events userMap i token (s : State W) e :
  e ∈ events (collectToken C userMap i token s) ->
  (exists uid, e = CallFetchSelfWatchlist token uid) \/ (exists msg, e = Log error msg []).
Proof.
  unfold collectToken. intros Hin.
  destruct (negb _).
  - in_bind Hin u Hu; [|no_event Hin].
    apply list_elem_of_singleton in Hin. eauto.
  - in_bind Hin items Hitems.
    + apply in_events_call in Hin. eauto.
    + destruct (0 <? len items); no_event Hin.
Qed.

Lemma collectSelf_events (s : State W) e :
  e ∈ events (collectSelf C config s) ->
  (exists name, e = DbGetUser name)
  \/ (exists name email, e = DbCreateUser name email)
  \/ (exists token uid, e = CallFetchSelfWatchlist token uid)
  \/ (exists msg, e = Log error msg []).
Proof.
  unfold collectSelf. intros Hin.
  in_bind Hin userMap Hmap.
  { apply ensureTokenUsers_events in Hin as [?|?]; eauto. }
  in_bind Hin collected Hcol; [|no_event Hin].
  apply in_events_Promise_all in Hin as (task & s' & Htask & Hin).
  apply list_elem_of_lookup in Htask as (i & Hi).
  rewrite list_lookup_imap in Hi.
  destruct (plexTokens config !! i) as [tok|]; [|done]. injection Hi as <-.
  apply collectToken_events in Hin as [[uid ->]|?]; eauto 6.
Qed.

End CollectorFacts.

Lemma deletes_none (l : list Event) :
  (forall e uid keys, e ∈ l -> e <> DbDeleteWatchlistItems uid keys) ->
  deletes l = [].
Proof.
  unfold deletes. induction l as [|e l IH]; intros Hno; [done|].
  cbn [omap list_omap]. rewrite IH by (intros; apply Hno; by right).
  destruct e; try done. by destruct (Hno (DbDeleteWatchlistItems uid keys) uid keys);
    [left|].
Qed.

(** X15. A self sync in which no token yields an item (every fetch came
    back empty) throws "Unable to fetch watchlist items" before anything
    is compared with the stored watchlists: all it has done by then is
    look users up, create the missing ones and fetch.  It has written no
    row and deleted none. *)
Theorem X15_empty_fetch_touches_nothing {W} (C : Collab W) (config : Config)
    (s : State W) :
  plexTokens config <> [] ->
  out (collectSelf C config s) = Ok [] ->
  let r := getSelfWatchlist C config s in
  out r = Throw "Unable to fetch watchlist items"
  /\ (forall e, e ∈ events r ->
        (exists name, e = DbGetUser name)
        \/ (exists name email, e = DbCreateUser name email)
        \/ (exists token uid, e = CallFetchSelfWatchlist token uid)
        \/ (exists msg, e = Log error msg []))
  /\ deletes (events r) = [].
Proof.
  intros Htokens Hcollect r. subst r.
  assert (Hrun : getSelfWatchlist C config s
                 = mkResult (Throw "Unable to fetch watchlist items")
                     (final (collectSelf C config s)) (events (collectSelf C config s))).
  { unfold getSelfWatchlist. destruct (plexTokens config) as [|t ts]; [done|].
    rewrite len_cons_nonzero. rewrite (bind_Ok _ _ _ _ Hcollect).
    cbn [out final events throw len length Z.of_nat Z.eqb]. by rewrite app_nil_r. }
  rewrite Hrun. cbn [out events]. split; [done|].
  assert (Hev : forall e, e ∈ events (collectSelf C config s) ->
            (exists name, e = DbGetUser name)
            \/ (exists name email, e = DbCreateUser name email)
            \/ (exists token uid, e = CallFetchSelfWatchlist token uid)
            \/ (exists msg, e = Log error msg []))
    by apply collectSelf_events.
  split; [exact Hev|].
  apply deletes_none. intros e uid keys Hin.
  by destruct (Hev e Hin) as [[? ->]|[(? & ? & ->)|[(? & ? & ->)|[? ->]]]].
Qed.

Lemma X15_empty_fetch_touches_nothing_witness :
  let r := getSelfWatchlist sample_collab one_token
             (sample_state (mkSampleWorld [row_dune] [] false)) in
  out r = Throw "Unable to fetch watchlist items" /\ deletes (events r) = [].
Proof.
  intros r.
  destruct (X15_empty_fetch_touches_nothing sample_collab one_token
              (sample_state (mkSampleWorld [row_dune] [] false)))
    as (Hout & _ & Hdel); [discriminate | reflexivity |].
  exact (conj Hout Hdel).
Defined.

(** ** Where a sync deletes *)

Section LoopEvents.
Context {W : Type}.

Lemma in_events_foldM {A B} (f : A -> B -> M W A) l a s e :
  e ∈ events (foldM f l a s) ->
  exists a' x s', x ∈ l /\ e ∈ events (f a' x s').
Proof.
  revert a s. induction l as [|x l IH]; intros a s Hin; [no_event Hin|].
  cbn [foldM] in Hin. in_bind Hin a' Ha'.
  - exists a, x, s. split; [by left | done].
  - destruct (IH _ _ Hin) as (a'' & y & s' & Hy & He).
    exists a'', y, s'. split; [by right | done].
Qed.

Lemma in_events_for_each {A} (body : A -> M W unit) l s e :
  e ∈ events (for_each l body s) ->
  exists x s', x ∈ l /\ e ∈ events (body x s').
Proof.
  revert s. induction l as [|x l IH]; intros s Hin; [no_event Hin|].
  cbn [for_each] in Hin. in_bind Hin u Hu.
  - exists x, s. split; [by left | done].
  - destruct (IH _ Hin) as (y & s' & Hy & He).
    exists y, s'. split; [by right | done].
Qed.

End LoopEvents.

(** Closes a goal [~ is_row_delete e] for [e] the one event of a call
    or of a log line. *)
Ltac one_event H :=
  first [ no_event H
        | apply in_events_call in H as ->; by intros []
        | apply list_elem_of_singleton in H as ->; by intros [] ].

Section DeleteFacts.
Context {W : Type} (C : Collab W) (config : Config).

Lemma extractKeysAndRelationships_no_delete m (s : State W) e :
  e ∈ events (extractKeysAndRelationships m s) -> ~ is_row_delete e.
Proof.
  unfold extractKeysAndRelationships. intros Hin.
  in_bind Hin r Hr.
  - apply in_events_foldM in Hin as (acc & entry & s' & _ & Hin).
    in_bind Hin ks Hks; [|no_event Hin].
    apply in_events_foldM in Hin as (acc' & item & s'' & _ & Hin).
    unfold extractKeys_item in Hin. destruct (truthy (Token.id item)); [no_event Hin|].
    in_bind Hin u Hu; one_event Hin.
  - in_bind Hin u Hu; one_event Hin.
Qed.

Lemma getExistingItems_no_delete userKeyMap allKeys (s : State W) e :
  e ∈ events (getExistingItems C userKeyMap allKeys s) -> ~ is_row_delete e.
Proof.
  unfold getExistingItems. intros Hin.
  in_bind Hin rows Hrows; [one_event Hin|].
  in_bind Hin u Hu; one_event Hin.
Qed.

Lemma emit_no_delete b p (s : State W) e :
  e ∈ events (when b (emit C p) s) -> ~ is_row_delete e.
Proof.
  intros [_ Hin]%in_events_when. unfold emit in Hin. one_event Hin.
Qed.

Lemma processAndSaveNewItems_no_delete brandNew (s : State W) e :
  e ∈ events (processAndSaveNewItems C brandNew s) -> ~ is_row_delete e.
Proof.
  unfold processAndSaveNewItems. intros Hin.
  destruct brandNew as [|[firstUser items0] rest]; [no_event Hin|].
  in_bind Hin u Hu; [one_event Hin|].
  in_bind Hin t Ht; [no_event Hin|].
  in_bind Hin emitProgress Hemit; [one_event Hin|].
  in_bind Hin u1 Hu1; [by eapply emit_no_delete|].
  in_bind Hin processedItems Hproc; [one_event Hin|].
  destruct processedItems as [processed|]; [|no_event Hin].
  in_bind Hin itemsToInsert Hprep; [no_event Hin|].
  in_bind Hin u2 Hu2; [|no_event Hin].
  destruct (0 <? len itemsToInsert); [|no_event Hin].
  in_bind Hin u3 Hu3; [by eapply emit_no_delete|].
  in_bind Hin u4 Hu4; [one_event Hin|].
  in_bind Hin u5 Hu5; [one_event Hin|].
  in_bind Hin u6 Hu6; [one_event Hin|].
  by eapply emit_no_delete.
Qed.

Lemma linkExistingItems_no_delete toLink (s : State W) e :
  e ∈ events (linkExistingItems C toLink s) -> ~ is_row_delete e.
Proof.
  unfold linkExistingItems. intros Hin.
  destruct (0 <? len _); [|no_event Hin].
  in_bind Hin u1 Hu1; [one_event Hin|].
  in_bind Hin u2 Hu2; one_event Hin.
Qed.

Lemma reconcile_no_delete m (s : State W) e :
  e ∈ events (reconcile C m s) -> ~ is_row_delete e.
Proof.
  unfold reconcile. intros Hin.
  in_bind Hin ks Hks; [by eapply extractKeysAndRelationships_no_delete|].
  in_bind Hin rows Hrows; [by eapply getExistingItems_no_delete|].
  in_bind Hin c Hc; [no_event Hin|].
  in_bind Hin processed Hproc; [by eapply processAndSaveNewItems_no_delete|].
  in_bind Hin u Hu; [by eapply linkExistingItems_no_delete|].
  no_event Hin.
Qed.

Lemma matchRssPendingItems_no_delete source found noMatch complete m (s : State W) e :
  e ∈ events (matchRssPendingItems C source found noMatch complete m s) ->
  ~ is_row_delete e.
Proof.
  unfold matchRssPendingItems. intros Hin.
  in_bind Hin pendingItems Hp; [one_event Hin|].
  in_bind Hin u Hu; [one_event Hin|].
  in_bind Hin r Hr.
  - apply in_events_foldM in Hin as (acc & p & s' & _ & Hin).
    unfold match_pending in Hin.
    in_bind Hin foundMatch Hf.
    + unfold lift in Hin. destruct (scan_users C _ m); no_event Hin.
    + destruct foundMatch; [no_event Hin|].
      in_bind Hin u1 Hu1; one_event Hin.
  - in_bind Hin u2 Hu2; [|one_event Hin].
    destruct (0 <? len _); one_event Hin.
Qed.

Lemma collectSelf_no_delete (s : State W) e :
  e ∈ events (collectSelf C config s) -> ~ is_row_delete e.
Proof.
  intros Hin.
  by destruct (collectSelf_events C config s e Hin)
    as [[? ->]|[(? & ? & ->)|[(? & ? & ->)|[? ->]]]]; intros [].
Qed.

(** The deletes of the Removal Detector: each is for an identity of the
    pass, and names keys that are not among the ids fetched for it. *)
Lemma checkForRemovedItems_delete m (s : State W) uid keys :
  DbDeleteWatchlistItems uid keys ∈ events (checkForRemovedItems C m s) ->
  exists user items,
    (user, items) ∈ m /\ userId user = uid /\ keys <> []
    /\ forall k, k ∈ keys -> k ∉ map Token.id items.
Proof.
  unfold checkForRemovedItems. intros Hin.
  apply in_events_for_each in Hin as ([user items] & s' & Hentry & Hin).
  exists user, items. split; [done|].
  unfold checkRemoved_entry in Hin.
  in_bind Hin rows Hrows; [by apply in_events_call in Hin|].
  unfold handleRemovedItems in Hin.
  destruct (0 <? len _) eqn:Hlen; [|no_event Hin].
  in_bind Hin u Hu; [by apply list_elem_of_singleton in Hin|].
  apply in_events_call in Hin. injection Hin as <- ->.
  split; [done|]. split.
  - intros E. rewrite E in Hlen. discriminate Hlen.
  - intros k [Hk _]%list_elem_of_filter. apply has_false in Hk.
    intros Hid. apply Hk. by apply elem_of_of_list.
Qed.

End DeleteFacts.

Section SyncDeletes.
Context {W : Type} (C : Collab W) (config : Config).

Lemma collectOthers_no_delete (s : State W) e :
  e ∈ events (collectOthers C s) -> ~ is_row_delete e.
Proof.
  unfold collectOthers. intros Hin.
  in_bind Hin friendList Hfriends; [one_event Hin|].
  in_bind Hin userMap Hmap.
  { unfold ensureFriendUsers in Hin.
    in_bind Hin entries Hentries; [|no_event Hin].
    apply in_events_Promise_all in Hin as (task & s' & Htask & Hin).
    apply list_elem_of_fmap in Htask as (entry & -> & _).
    in_bind Hin uid Huid; [|no_event Hin].
    by apply ensureUser_events in Hin as [->| ->]; intros []. }
  in_bind Hin withIds Hids; [|one_event Hin].
  apply in_events_foldM in Hin as (acc & entry & s' & _ & Hin).
  destruct (negb _); [|no_event Hin].
  in_bind Hin u Hu; one_event Hin.
Qed.

Lemma lift_events {A} (o : outcome A) (s : State W) : events (lift o s) = [].
Proof. by destruct o. Qed.

End SyncDeletes.

(** X16. A sync deletes stored rows last.  A [deleteWatchlistItems]
    call made by [getSelfWatchlist] or by [getOthersWatchlists] comes
    after the collection returned and after the new items were saved and
    the links written (that part returned too, it did not throw); it is
    for the user id of an identity of the pass, and none of the keys it
    names is the id of an item fetched for that identity. *)
Theorem X16_sync_deletes_last {W} (C : Collab W) (config : Config) (s : State W)
    (uid : Z) (keys : list string) :
  (DbDeleteWatchlistItems uid keys ∈ events (getSelfWatchlist C config s) ->
   exists m r,
     out (collectSelf C config s) = Ok m
     /\ out (reconcile C m (final (collectSelf C config s))) = Ok r
     /\ exists user items,
          (user, items) ∈ m /\ userId user = uid /\ keys <> []
          /\ forall k, k ∈ keys -> k ∉ map Token.id items)
  /\ (DbDeleteWatchlistItems uid keys ∈ events (getOthersWatchlists C config s) ->
      exists m r,
        out (collectOthers C s) = Ok m
        /\ out (reconcile C m (final (collectOthers C s))) = Ok r
        /\ exists user items,
             (user, items) ∈ m /\ userId user = uid /\ keys <> []
             /\ forall k, k ∈ keys -> k ∉ map Token.id items).
Proof.
  split.
  - unfold getSelfWatchlist. intros Hin.
    destruct (len (plexTokens config) =? 0); [no_event Hin|].
    in_bind Hin m Hm; [by apply collectSelf_no_delete in Hin|].
    destruct (len m =? 0); [no_event Hin|].
    in_bind Hin r Hr; [by apply reconcile_no_delete in Hin|].
    exists m, r. split; [done|]. split; [done|].
    destruct r as [[existingItems c] processedItems].
    in_bind Hin u Hu; [by apply matchRssPendingItems_no_delete in Hin|].
    in_bind Hin u1 Hu1; [by eapply checkForRemovedItems_delete|].
    rewrite lift_events in Hin. no_event Hin.
  - unfold getOthersWatchlists. intros Hin.
    destruct (len (plexTokens config) =? 0); [no_event Hin|].
    in_bind Hin m Hm; [by apply collectOthers_no_delete in Hin|].
    destruct (len m =? 0); [no_event Hin|].
    in_bind Hin r Hr; [by apply reconcile_no_delete in Hin|].
    exists m, r. split; [done|]. split; [done|].
    destruct r as [[existingItems c] processedItems].
    in_bind Hin u Hu; [by apply matchRssPendingItems_no_delete in Hin|].
    in_bind Hin u1 Hu1; [by eapply checkForRemovedItems_delete|].
    rewrite lift_events in Hin. no_event Hin.
Qed.

(** ** The response of a sync *)

Lemma fold_sum_len {A} (ls : list (list A)) (n : Z) :
  fold_left (fun acc items => acc + len items) ls n = n + len (concat ls).
Proof.
  revert n. induction ls as [|l ls IH]; intros n; simpl.
  - unfold len. simpl. lia.
  - rewrite IH. unfold len. rewrite length_app. lia.
Qed.

Lemma first_rejection_lookup {A B} (f : A -> outcome B) (l : list A) (bs : list B) :
  first_rejection (map f l) = Ok bs -> Forall2 (fun a b => f a = Ok b) l bs.
Proof.
  intros H%first_rejection_Ok. revert bs H.
  induction l as [|a l IH]; intros [|b bs] H; simpl in H; try done.
  injection H as Ha Hl. constructor; [done | by apply IH].
Qed.

Section ResponseFacts.
Context {W : Type} (C : Collab W).

Lemma format_all_length items views :
  format_all C items = Ok views ->
  length views = length items /\ Forall (fun v => View.status v = pending) views.
Proof.
  unfold format_all. intros H%first_rejection_lookup.
  induction H as [|item v items views Hv _ [IHlen IHst]]; [done|].
  split; [simpl; by rewrite IHlen|]. constructor; [|done].
  unfold formatWatchlistItem in Hv.
  destruct (decode_or_empty C (Item.guids item)); [|done].
  destruct (decode_or_empty C (Item.genres item)); [|done].
  by injection Hv as <-.
Qed.

Lemma formatEntryOf_length m user views :
  formatEntryOf C m user = Ok views ->
  length views = length (default [] (JsMap.get m user))
  /\ Forall (fun v => View.status v = pending) views.
Proof.
  unfold formatEntryOf. destruct (JsMap.get m user) as [items|]; simpl.
  - apply format_all_length.
  - by intros [= <-].
Qed.

Lemma buildUserWatchlist_group existing toLink processed user g :
  buildUserWatchlist C existing toLink processed user = Ok g ->
  group_user g = user
  /\ len (watchlist g)
     = len (filter (fun item => Item.user_id item = Some (userId user)) existing)
       + len (default [] (JsMap.get toLink user))
       + len (default [] (JsMap.get processed user))
  /\ Forall (fun v => View.status v = pending) (watchlist g).
Proof.
  unfold buildUserWatchlist, formatExistingItems.
  destruct (format_all C _) as [a|] eqn:Ha; [|done].
  destruct (formatEntryOf C toLink user) as [b|] eqn:Hb; [|done].
  destruct (formatEntryOf C processed user) as [c|] eqn:Hc; [|done].
  intros [= <-]. cbn [group_user watchlist].
  apply format_all_length in Ha as [Ha Hsa].
  apply formatEntryOf_length in Hb as [Hb Hsb].
  apply formatEntryOf_length in Hc as [Hc Hsc].
  split; [done|]. split.
  - unfold len. rewrite !length_app, Ha, Hb, Hc. lia.
  - by rewrite !Forall_app.
Qed.

Lemma buildResponse_groups m existing toLink processed r :
  buildResponse C m existing toLink processed = Ok r ->
  total r = len existing + len (concat (JsMap.values toLink))
            + len (concat (JsMap.values processed))
  /\ Forall2 (fun user g =>
                buildUserWatchlist C existing toLink processed user = Ok g)
       (JsMap.keys m) (users r).
Proof.
  unfold buildResponse.
  destruct (first_rejection _) as [groups|] eqn:Hg; [|done].
  intros [= <-]. cbn [total users]. split.
  - unfold calculateTotal. rewrite !fold_sum_len. lia.
  - by apply first_rejection_lookup.
Qed.

End ResponseFacts.

(** X17. The response that [buildResponse] returns lists the identities
    of the pass, one group each, in the order of the pass.  The
    watchlist of a group has one entry, with status [pending], for each
    stored row of that user id, each row linked for that identity and
    each row processed for it, and no other.  [total] is the number of
    stored rows handed in, whoever they belong to, plus the rows of the
    two maps. *)
Theorem X17_buildResponse {W} (C : Collab W)
    (userWatchlistMap : list (Friend * list Token.t)) (existingItems : list Item.t)
    (toLink processedItems : list (Friend * list Item.t)) (r : Response) :
  buildResponse C userWatchlistMap existingItems toLink processedItems = Ok r ->
  total r = len existingItems + len (concat (JsMap.values toLink))
            + len (concat (JsMap.values processedItems))
  /\ map group_user (users r) = JsMap.keys userWatchlistMap
  /\ forall g, g ∈ users r ->
       len (watchlist g)
       = len (filter (fun item => Item.user_id item = Some (userId (group_user g)))
                existingItems)
         + len (default [] (JsMap.get toLink (group_user g)))
         + len (default [] (JsMap.get processedItems (group_user g)))
       /\ Forall (fun v => View.status v = pending) (watchlist g).
Proof.
  intros [Htotal Hgroups]%buildResponse_groups. split; [done|]. split.
  - induction Hgroups as [|user g users gs Hg _ IH]; [done|].
    simpl. apply buildUserWatchlist_group in Hg as [-> _]. by rewrite IH.
  - intros g Hin. apply list_elem_of_lookup in Hin as (i & Hi).
    destruct (Forall2_lookup_r _ _ _ _ _ Hgroups Hi) as (user & _ & Hg).
    by apply buildUserWatchlist_group in Hg as (-> & Hlen & Hst).
Qed.

Lemma X17_buildResponse_witness :
  exists r,
    buildResponse sample_collab [(token1, [raw_dune "k1"])] [row_dune_text; row_alien]
      [(token1, [row_dune])] [] = Ok r
    /\ total r = 3
    /\ map group_user (users r) = [token1].
Proof.
  eexists. split; [reflexivity|].
  destruct (X17_buildResponse sample_collab [(token1, [raw_dune "k1"])]
              [row_dune_text; row_alien] [(token1, [row_dune])] [] _ eq_refl)
    as (Ht & Hu & _).
  exact (conj Ht Hu).
Defined.

(** ** The total of a response and what it lists *)

Section SumFacts.

Local Abbreviation sumZ f l := (foldr (fun u acc => f u + acc) 0 l).

Lemma sumZ_add {A} (f g : A -> Z) (l : list A) :
  sumZ (fun u => f u + g u) l = sumZ f l + sumZ g l.
Proof. induction l as [|x l IH]; simpl; [done | lia]. Qed.

Lemma sumZ_ext {A} (f g : A -> Z) (l : list A) :
  (forall u, u ∈ l -> f u = g u) -> sumZ f l = sumZ g l.
Proof.
  induction l as [|x l IH]; intros Hfg; simpl; [done|].
  rewrite (Hfg x) by (by left). rewrite IH; [done|]. intros; apply Hfg; by right.
Qed.

Lemma sumZ_zero {A} (f : A -> Z) (l : list A) :
  (forall u, u ∈ l -> f u = 0) -> sumZ f l = 0.
Proof.
  induction l as [|x l IH]; intros Hf; simpl; [done|].
  rewrite (Hf x) by (by left). rewrite IH; [done|]. intros; apply Hf; by right.
Qed.

(** A sum in which one element only counts. *)
Lemma sumZ_single {A B} `{EqDecision B} (h : A -> B) (l : list A) (x : A) (n : Z) :
  NoDup (map h l) -> x ∈ l ->
  sumZ (fun u => if decide (h u = h x) then n else 0) l = n.
Proof.
  induction l as [|y l IH]; intros Hnd Hin; [by apply elem_of_nil in Hin|].
  simpl in Hnd. apply NoDup_cons in Hnd as [Hy Hnd]. simpl.
  apply elem_of_cons in Hin as [->|Hin].
  - rewrite decide_True by done. rewrite sumZ_zero; [lia|].
    intros u Hu. rewrite decide_False; [done|].
    intros E. apply Hy. rewrite <- E. apply list_elem_of_fmap. by exists u.
  - rewrite decide_False.
    + rewrite IH by done. lia.
    + intros E. apply Hy. rewrite E. apply list_elem_of_fmap. by exists x.
Qed.

(** The stored rows, counted user by user. *)
Lemma sumZ_rows (us : list Friend) (rows : list Item.t) :
  NoDup (map userId us) ->
  (forall row, row ∈ rows ->
     exists u, u ∈ us /\ Item.user_id row = Some (userId u)) ->
  sumZ (fun u => len (filter (fun item => Item.user_id item = Some (userId u)) rows)) us
  = len rows.
Proof.
  intros Hnd. induction rows as [|row rows IH]; intros Hown.
  - apply sumZ_zero. intros. done.
  - destruct (Hown row) as (u0 & Hu0 & Hrow); [by left|].
    rewrite (sumZ_ext _ (fun u =>
               (if decide (userId u = userId u0) then 1 else 0)
               + len (filter (fun item => Item.user_id item = Some (userId u)) rows))).
    + rewrite sumZ_add, (sumZ_single userId us u0 1) by done.
      rewrite IH by (intros; apply Hown; by right).
      unfold len. simpl. lia.
    + intros u _. destruct (decide (userId u = userId u0)) as [E|E].
      * rewrite filter_cons_True by (by rewrite Hrow, E). unfold len. simpl. lia.
      * rewrite filter_cons_False; [lia|]. rewrite Hrow. congruence.
Qed.

(** The rows of a map, counted identity by identity. *)
Lemma sumZ_entries (us : list Friend) (m : list (Friend * list Item.t)) :
  NoDup us -> NoDup (JsMap.keys m) -> (forall u, u ∈ JsMap.keys m -> u ∈ us) ->
  sumZ (fun u => len (default [] (JsMap.get m u))) us = len (concat (JsMap.values m)).
Proof.
  intros Hus. unfold JsMap.keys, JsMap.values.
  induction m as [|[k v] m IH]; intros Hnd Hsub.
  - apply sumZ_zero. intros. done.
  - simpl in Hnd. apply NoDup_cons in Hnd as [Hk Hnd].
    rewrite (sumZ_ext _ (fun u =>
               (if decide (u = k) then len v else 0)
               + len (default [] (JsMap.get m u)))).
    + rewrite sumZ_add.
      rewrite (sumZ_ext _ (fun u => if decide (id u = id k) then len v else 0))
        by done.
      rewrite (sumZ_single id us k (len v));
        [|by rewrite list_fmap_id | apply Hsub; by left].
      rewrite IH; [|done | intros; apply Hsub; by right].
      change (concat (((k, v) :: m).*2)) with (v ++ concat m.*2).
      unfold len. rewrite length_app. lia.
    + intros u _. simpl. destruct (decide (k = u)) as [->|Hne].
      * rewrite decide_True by done.
        assert (JsMap.get m u = None) as -> by (by apply get_None_keys).
        simpl. unfold len at 3. simpl. lia.
      * rewrite decide_False by done. lia.
Qed.

End SumFacts.

(** X18. When the identities of the pass have distinct user ids, every
    stored row handed in belongs to one of them, and the two maps have
    entries for identities of the pass only, the [total] of the response
    is the number of entries its watchlists list. *)
Theorem X18_total_is_listed {W} (C : Collab W)
    (userWatchlistMap : list (Friend * list Token.t)) (existingItems : list Item.t)
    (toLink processedItems : list (Friend * list Item.t)) (r : Response) :
  NoDup (map userId (JsMap.keys userWatchlistMap)) ->
  (forall row, row ∈ existingItems ->
     exists u, u ∈ JsMap.keys userWatchlistMap /\ Item.user_id row = Some (userId u)) ->
  NoDup (JsMap.keys toLink) ->
  (forall u, u ∈ JsMap.keys toLink -> u ∈ JsMap.keys userWatchlistMap) ->
  NoDup (JsMap.keys processedItems) ->
  (forall u, u ∈ JsMap.keys processedItems -> u ∈ JsMap.keys userWatchlistMap) ->
  buildResponse C userWatchlistMap existingItems toLink processedItems = Ok r ->
  total r = len (concat (map watchlist (users r))).
Proof.
  intros Hids Hown Hl Hlsub Hp Hpsub [Htotal Hgroups]%buildResponse_groups.
  assert (Hus : NoDup (JsMap.keys userWatchlistMap)).
  { eapply NoDup_fmap_1. exact Hids. }
  rewrite Htotal.
  rewrite <- (sumZ_rows _ _ Hids Hown).
  rewrite <- (sumZ_entries _ _ Hus Hl Hlsub), <- (sumZ_entries _ _ Hus Hp Hpsub).
  rewrite <- !sumZ_add.
  clear -Hgroups. induction Hgroups as [|user g us gs Hg _ IH]; [done|].
  cbn [foldr]. rewrite IH.
  change (concat (map watchlist (g :: gs)))
    with (watchlist g ++ concat (map watchlist gs)).
  apply buildUserWatchlist_group in Hg as (_ & Hlen & _).
  unfold len in Hlen |- *. rewrite length_app. lia.
Qed.

Lemma X18_total_is_listed_witness :
  exists r,
    buildResponse sample_collab [(token1, [raw_dune "k1"])] [row_dune_text; row_alien]
      [(token1, [row_dune])] [] = Ok r
    /\ total r = len (concat (map watchlist (users r))).
Proof.
  eexists. split; [reflexivity|].
  apply (X18_total_is_listed sample_collab [(token1, [raw_dune "k1"])]
           [row_dune_text; row_alien] [(token1, [row_dune])] []).
  - vm_compute. apply NoDup_singleton.
  - intros row Hrow. exists token1. split; [by left|].
    apply elem_of_cons in Hrow as [->|Hrow]; [reflexivity|].
    apply list_elem_of_singleton in Hrow as ->. reflexivity.
  - apply NoDup_singleton.
  - intros u Hu. exact Hu.
  - apply NoDup_nil_2.
  - intros u Hu. by apply elem_of_nil in Hu.
  - reflexivity.
Defined.

(** ** The sets that [getOthersWatchlists] shares *)

Lemma add_existing_get (identities : list Friend) (rows : list Item.t)
    (m0 : list (Friend * list Item.t)) (k : Friend) (v : list Item.t) :
  JsMap.get m0 k = Some v ->
  JsMap.get (fold_left (add_existing identities) rows m0) k
  = Some (v ++ filter (fun item =>
                         find (fun u => bool_decide (Some (userId u) = Item.user_id item))
                           identities = Some k) rows).
Proof.
  intros Hk. induction rows as [|row rows IH] using rev_ind.
  - simpl. by rewrite app_nil_r.
  - rewrite fold_left_app, filter_app. cbn [fold_left]. unfold add_existing at 1.
    destruct (find _ identities) as [user|] eqn:Hfind.
    + unfold add_items. destruct (decide (user = k)) as [->|Hne].
      * rewrite get_set_eq, IH. cbn [default from_option id].
        rewrite filter_cons_True by done. rewrite filter_nil.
        by rewrite <- app_assoc.
      * rewrite get_set_ne by done. rewrite IH.
        rewrite filter_cons_False by (rewrite Hfind; congruence).
        by rewrite filter_nil, app_nil_r.
    + rewrite IH. rewrite filter_cons_False by (by rewrite Hfind).
      by rewrite filter_nil, app_nil_r.
Qed.

Lemma shared_sets_rows (identities : list Friend)
    (existingItems : list Item.t) (processedItems : list (Friend * list Item.t)) :
  NoDup (JsMap.keys processedItems) ->
  let allItemsMap :=
    fold_left (add_existing identities) existingItems
      (fold_left (fun m entry => JsMap.set m entry.1 entry.2) processedItems []) in
  shared_sets allItemsMap processedItems
  = map (fun entry =>
           (entry.1,
            entry.2
            ++ filter (fun item =>
                         find (fun u => bool_decide (Some (userId u) = Item.user_id item))
                           identities = Some entry.1) existingItems))
      processedItems.
Proof.
  intros Hnd allItemsMap. unfold shared_sets.
  apply list_eq_Forall2, Forall2_fmap, Forall_Forall2_diag, Forall_forall.
  intros [k v] Hin. cbn [fst snd]. f_equal.
  subst allItemsMap. erewrite add_existing_get; [done|].
  destruct (set_all_get processedItems k) as (v' & Hget & Hin').
  { apply list_elem_of_fmap. by exists (k, v). }
  unfold set_all in Hget. rewrite Hget. f_equal.
  pose proof (get_of_NoDup _ _ _ Hnd Hin) as H1.
  pose proof (get_of_NoDup _ _ _ Hnd Hin') as H2. congruence.
Qed.

(** X19. In [getOthersWatchlists] the sets of [processedItems] are put
    into [allItemsMap] as they are, and the stored rows are then added
    to the sets found there.  So the [processedItems] that reach
    [buildResponse] hold, for each identity, the rows processed for it
    followed by the stored rows found for it (the rows whose user id is
    first met, among the identities of the pass, at that identity). *)
Theorem X19_others_sync_shares_sets (identities : list Friend)
    (existingItems : list Item.t) (processedItems : list (Friend * list Item.t)) :
  NoDup (JsMap.keys processedItems) ->
  let allItemsMap :=
    fold_left (add_existing identities) existingItems
      (fold_left (fun m entry => JsMap.set m entry.1 entry.2) processedItems []) in
  shared_sets allItemsMap processedItems
  = map (fun entry =>
           (entry.1,
            entry.2
            ++ filter (fun item =>
                         find (fun u => bool_decide (Some (userId u) = Item.user_id item))
                           identities = Some entry.1) existingItems))
      processedItems.
Proof. apply shared_sets_rows. Qed.

Lemma X19_others_sync_shares_sets_witness :
  shared_sets
    (fold_left (add_existing [token1]) [row_dune]
       (fold_left (fun m entry => JsMap.set m entry.1 entry.2)
          [(token1, [row_alien])] []))
    [(token1, [row_alien])]
  = [(token1, [row_alien; row_dune])].
Proof.
  exact (X19_others_sync_shares_sets [token1] [row_dune] [(token1, [row_alien])]
           (NoDup_singleton token1)).
Defined.

(** What this does to the response: a stored row of an identity that
    also has a processed row is listed and counted twice. *)
Example others_sync_lists_stored_row_twice :
  let processedItems :=
    shared_sets
      (fold_left (add_existing [token1]) [row_dune]
         (fold_left (fun m entry => JsMap.set m entry.1 entry.2)
            [(token1, [row_alien])] []))
      [(token1, [row_alien])] in
  exists r,
    buildResponse sample_collab [(token1, [raw_dune "k1"; raw_dune "k3"])] [row_dune] []
      processedItems = Ok r
    /\ total r = 3
    /\ map (fun g => map View.title (watchlist g)) (users r)
       = [["Dune"; "Alien"; "Dune"]].
Proof. eexists. by repeat split. Qed.

(** ** The keys of a pass *)

Lemma truthy_true s : truthy s = true <-> s <> "".
Proof.
  unfold truthy. destruct (String.eqb_spec s ""); simpl; split; congruence.
Qed.

Section KeyFacts.
Context {W : Type}.

(** The inner loop: the ids of one identity. *)
Lemma extractKeys_loop uid (items : list Token.t) acc (s : State W) :
  let r := foldM (extractKeys_item uid) items acc s in
  exists acc',
    out r = Ok acc' /\ final r = s
    /\ (forall k, k ∈ acc'.1 <->
          k ∈ acc.1 \/ (k <> "" /\ exists item, item ∈ items /\ Token.id item = k))
    /\ (forall k, k ∈ acc'.2 <->
          k ∈ acc.2 \/ (k <> "" /\ exists item, item ∈ items /\ Token.id item = k))
    /\ (NoDup acc.1 -> NoDup acc'.1) /\ (NoDup acc.2 -> NoDup acc'.2).
Proof.
  revert acc s. induction items as [|item items IH]; intros acc s; cbn [foldM].
  - exists acc. repeat split; try done; try tauto.
    + intros [?|(_ & x & ?%elem_of_nil & _)]; done.
    + intros [?|(_ & x & ?%elem_of_nil & _)]; done.
  - assert (Hstep : exists acc1,
              out (extractKeys_item uid acc item s) = Ok acc1
              /\ final (extractKeys_item uid acc item s) = s
              /\ (forall k, k ∈ acc1.1 <->
                    k ∈ acc.1 \/ (k <> "" /\ Token.id item = k))
              /\ (forall k, k ∈ acc1.2 <->
                    k ∈ acc.2 \/ (k <> "" /\ Token.id item = k))
              /\ (NoDup acc.1 -> NoDup acc1.1) /\ (NoDup acc.2 -> NoDup acc1.2)).
    { unfold extractKeys_item. destruct (truthy (Token.id item)) eqn:Hid.
      - apply truthy_true in Hid. eexists. split; [reflexivity|].
        split; [done|]. cbn [fst snd]. repeat split.
        + intros [?| ->]%elem_of_add; auto.
        + intros [?|[_ <-]]; apply elem_of_add; auto.
        + intros [?| ->]%elem_of_add; auto.
        + intros [?|[_ <-]]; apply elem_of_add; auto.
        + apply NoDup_add.
        + apply NoDup_add.
      - assert (Hempty : Token.id item = "").
        { destruct (decide (Token.id item = "")) as [|Hne]; [done|].
          apply truthy_true in Hne. congruence. }
        exists acc. split; [done|]. split; [done|]. repeat split; try tauto.
        + intros [?|[Hk <-]]; [done | by destruct Hk].
        + intros [?|[Hk <-]]; [done | by destruct Hk]. }
    destruct Hstep as (acc1 & Hout1 & Hfin1 & H1 & H2 & Hnd1 & Hnd2).
    rewrite (bind_Ok _ _ _ _ Hout1). cbn [out final events]. rewrite Hfin1.
    destruct (IH acc1 s) as (acc' & Hout & Hfin & H1' & H2' & Hnd1' & Hnd2').
    exists acc'. split; [done|]. split; [done|]. repeat split.
    + intros Hk. apply H1' in Hk as [Hk|(Hne & x & Hx & Hid)].
      * apply H1 in Hk as [?|[Hne Hid]]; [by left|].
        right. split; [done|]. exists item. split; [by left | done].
      * right. split; [done|]. exists x. split; [by right | done].
    + intros [Hk|(Hne & x & Hx & Hid)]; apply H1'.
      * left. apply H1. by left.
      * apply elem_of_cons in Hx as [->|Hx].
        -- left. apply H1. by right.
        -- right. eauto.
    + intros Hk. apply H2' in Hk as [Hk|(Hne & x & Hx & Hid)].
      * apply H2 in Hk as [?|[Hne Hid]]; [by left|].
        right. split; [done|]. exists item. split; [by left | done].
      * right. split; [done|]. exists x. split; [by right | done].
    + intros [Hk|(Hne & x & Hx & Hid)]; apply H2'.
      * left. apply H2. by left.
      * apply elem_of_cons in Hx as [->|Hx].
        -- left. apply H2. by right.
        -- right. eauto.
    + auto.
    + auto.
Qed.

(** One turn of the outer loop. *)
Lemma extractKeys_step (entry : Friend * list Token.t)
    (acc : list string * list (Z * list string)) (s : State W) :
  let r := (ks <- foldM (extractKeys_item (userId entry.1)) entry.2 (acc.1, []) ;;
            ret (ks.1,
                 if 0 <? len ks.2
                 then JsMap.set acc.2 (userId entry.1) ks.2 else acc.2)) s in
  exists acc',
    out r = Ok acc' /\ final r = s
    /\ (forall k, k ∈ acc'.1 <->
          k ∈ acc.1 \/ (k <> "" /\ exists item, item ∈ entry.2 /\ Token.id item = k))
    /\ (NoDup acc.1 -> NoDup acc'.1)
    /\ (NoDup (JsMap.keys acc.2) -> NoDup (JsMap.keys acc'.2))
    /\ (forall uid, uid ∈ JsMap.keys acc'.2 <->
          uid ∈ JsMap.keys acc.2
          \/ (uid = userId entry.1
              /\ exists item, item ∈ entry.2 /\ Token.id item <> ""))
    /\ (forall uid ks, (uid, ks) ∈ acc'.2 ->
          (uid, ks) ∈ acc.2
          \/ (ks <> [] /\ NoDup ks /\ forall k, k ∈ ks -> k ∈ acc'.1)).
Proof.
  intros r. subst r.
  destruct (extractKeys_loop (userId entry.1) entry.2 (acc.1, []) s)
    as (ks & Hout & Hfin & H1 & H2 & Hnd1 & Hnd2).
  cbn [fst snd] in *.
  rewrite (bind_Ok _ _ _ _ Hout). cbn [out final events ret]. rewrite Hfin.
  eexists. split; [reflexivity|]. split; [done|]. cbn [fst snd].
  assert (Hks : forall k, k ∈ ks.2 <->
            k <> "" /\ exists item, item ∈ entry.2 /\ Token.id item = k).
  { intros k. rewrite H2. split; [|by right].
    by intros [?%elem_of_nil|?]. }
  assert (Hpos : (0 <? len ks.2) = true <->
            exists item, item ∈ entry.2 /\ Token.id item <> "").
  { split.
    - destruct ks.2 as [|k l] eqn:E; [done|]. intros _.
      destruct (proj1 (Hks k)) as (Hne & item & Hin & Hid); [by left|].
      exists item. split; [done | congruence].
    - intros (item & Hin & Hne).
      assert (Hk : Token.id item ∈ ks.2) by (apply Hks; eauto).
      destruct ks.2; [by apply elem_of_nil in Hk | apply len_cons_pos]. }
  split; [exact H1|]. split; [exact Hnd1|].
  destruct (0 <? len ks.2) eqn:Hlen.
  - split; [by apply NoDup_keys_set|]. split.
    + intros uid. rewrite elem_of_keys_set. split.
      * intros [->|?]; [right; split; [done | by apply Hpos] | by left].
      * intros [?|[-> _]]; auto.
    + intros uid l [[-> ->]|Hin]%elem_of_set; [right | by left].
      split; [by intros E; rewrite E in Hlen|].
      split; [apply Hnd2, NoDup_nil_2|].
      intros k Hk. apply H1. right. by apply Hks.
  - split; [done|]. split.
    + intros uid. split; [by left|]. intros [?|[_ Hex]]; [done|].
      apply Hpos in Hex. discriminate Hex.
    + intros uid l Hin. by left.
Qed.

(** The outer loop. *)
Lemma extractKeys_users (m : list (Friend * list Token.t))
    (acc : list string * list (Z * list string)) (s : State W) :
  let r := foldM
    (fun (acc : list string * list (Z * list string)) (entry : Friend * list Token.t) =>
       ks <- foldM (extractKeys_item (userId entry.1)) entry.2 (acc.1, []) ;;
       ret (ks.1,
            if 0 <? len ks.2 then JsMap.set acc.2 (userId entry.1) ks.2 else acc.2))
    m acc s in
  exists acc',
    out r = Ok acc' /\ final r = s
    /\ (forall k, k ∈ acc'.1 <->
          k ∈ acc.1
          \/ (k <> "" /\ exists user items item,
                (user, items) ∈ m /\ item ∈ items /\ Token.id item = k))
    /\ (NoDup acc.1 -> NoDup acc'.1)
    /\ (NoDup (JsMap.keys acc.2) -> NoDup (JsMap.keys acc'.2))
    /\ (forall uid, uid ∈ JsMap.keys acc'.2 <->
          uid ∈ JsMap.keys acc.2
          \/ (exists user items item,
                (user, items) ∈ m /\ userId user = uid
                /\ item ∈ items /\ Token.id item <> ""))
    /\ (forall uid ks, (uid, ks) ∈ acc'.2 ->
          (uid, ks) ∈ acc.2
          \/ (ks <> [] /\ NoDup ks /\ forall k, k ∈ ks -> k ∈ acc'.1)).
Proof.
  revert acc s. induction m as [|[user items] m IH]; intros acc s; cbn [foldM].
  - exists acc. split; [done|]. split; [done|]. repeat split; try tauto.
    + intros [?|(_ & ? & ? & ? & ?%elem_of_nil & _)]; done.
    + intros [?|(? & ? & ? & ?%elem_of_nil & _)]; done.
  - destruct (extractKeys_step (user, items) acc s)
      as (acc1 & Hout1 & Hfin1 & A1 & B1 & C1 & D1 & E1).
    cbn [fst snd] in *.
    rewrite (bind_Ok _ _ _ _ Hout1). cbn [out final events]. rewrite Hfin1.
    destruct (IH acc1 s) as (acc' & Hout & Hfin & A & B & C0 & D & E).
    exists acc'. split; [done|]. split; [done|].
    split; [|split; [auto | split; [auto | split]]].
    + intros k. rewrite A, A1. split.
      * intros [[?|(Hne & item & Hin & Hid)]|(Hne & u & l & item & Hin & Hi & Hid)].
        -- by left.
        -- right. split; [done|]. exists user, items, item. split; [by left | done].
        -- right. split; [done|]. exists u, l, item. split; [by right | done].
      * intros [?|(Hne & u & l & item & Hin & Hi & Hid)]; [by left; left|].
        apply elem_of_cons in Hin as [[= -> ->]|Hin].
        -- left. right. split; [done|]. by exists item.
        -- right. split; [done|]. by exists u, l, item.
    + intros uid. rewrite D, D1. split.
      * intros [[?|(-> & item & Hin & Hid)]|(u & l & item & Hin & Hu & Hi & Hid)].
        -- by left.
        -- right. exists user, items, item. split; [by left | done].
        -- right. exists u, l, item. split; [by right | done].
      * intros [?|(u & l & item & Hin & Hu & Hi & Hid)]; [by left; left|].
        apply elem_of_cons in Hin as [[= -> ->]|Hin].
        -- left. right. split; [done|]. by exists item.
        -- right. by exists u, l, item.
    + intros uid ks Hin. apply E in Hin as [Hin|?]; [|by right].
      apply E1 in Hin as [?|(Hne & Hnd & Hsub)]; [by left|].
      right. split; [done|]. split; [done|].
      intros k Hk. apply A. left. by apply Hsub.
Qed.

End KeyFacts.

(** X20. [extractKeysAndRelationships] never throws and touches no
    collaborator.  [allKeys] holds, once each, the ids of the items of
    the pass that are not empty; an item with an empty id is left out.
    [userKeyMap] has one entry for each user id under which at least
    one such id was fetched, and none for the others; the keys of an
    entry are distinct, not empty in number, and all in [allKeys]. *)
Theorem X20_extractKeysAndRelationships {W}
    (userWatchlistMap : list (Friend * list Token.t)) (s : State W) :
  let r := extractKeysAndRelationships userWatchlistMap s in
  exists allKeys userKeyMap,
    out r = Ok (allKeys, userKeyMap) /\ final r = s
    /\ NoDup allKeys
    /\ (forall k, k ∈ allKeys <->
          k <> "" /\ exists user items item,
            (user, items) ∈ userWatchlistMap /\ item ∈ items /\ Token.id item = k)
    /\ NoDup (JsMap.keys userKeyMap)
    /\ (forall uid, uid ∈ JsMap.keys userKeyMap <->
          exists user items item,
            (user, items) ∈ userWatchlistMap /\ userId user = uid
            /\ item ∈ items /\ Token.id item <> "")
    /\ (forall uid ks, (uid, ks) ∈ userKeyMap ->
          ks <> [] /\ NoDup ks /\ forall k, k ∈ ks -> k ∈ allKeys).
Proof.
  intros r. subst r. unfold extractKeysAndRelationships.
  destruct (extractKeys_users userWatchlistMap ([], []) s)
    as ([allKeys userKeyMap] & Hout & Hfin & A & B & C0 & D & E).
  cbn [fst snd] in *.
  rewrite (bind_Ok _ _ _ _ Hout). cbn [out final events]. rewrite Hfin.
  rewrite (bind_Ok _ _ _ tt) by done. cbn [out final events log log_with ret].
  exists allKeys, userKeyMap. split; [done|]. split; [done|].
  split; [apply B, NoDup_nil_2|]. split.
  { intros k. rewrite A. split; [|by right]. by intros [?%elem_of_nil|?]. }
  split; [apply C0, NoDup_nil_2|]. split.
  { intros uid. rewrite D. split; [|by right]. by intros [?%elem_of_nil|?]. }
  intros uid ks Hin. by apply E in Hin as [?%elem_of_nil|?].
Qed.

(** An item without an id is warned about and left out; a user with no
    other item is not asked about. *)
Example extractKeysAndRelationships_skips_empty_id :
  let r := extractKeysAndRelationships
             [(token1, [raw_dune "k1"; raw_dune "k1"]); (token2, [raw_dune ""])]
             (sample_state (mkSampleWorld [] [] false)) in
  out r = Ok (["k1"], [(1, ["k1"])])
  /\ Log warn "Encountered item with null/undefined id for user 2" [] ∈ events r.
Proof. split; [reflexivity|]. vm_compute. repeat (first [by left | right]). Qed.

(** ** The refresh *)

Section RefreshFacts.
Context {W : Type}.

Lemma run_all_pair {A} (t1 t2 : M W A) (s : State W) :
  run_all [t1; t2] s
  = mkResult (Ok [out (t1 s); out (t2 (final (t1 s)))])
      (final (t2 (final (t1 s))))
      (events (t1 s) ++ events (t2 (final (t1 s)))).
Proof.
  cbn [run_all]. unfold bind, attempt, ret. cbn [out final events].
  by rewrite !app_nil_r.
Qed.

Lemma bind_ret_tt {A} (m : M W A) (s : State W) :
  bind m (fun _ => ret tt) s
  = mkResult (match out (m s) with Ok _ => Ok tt | Throw msg => Throw msg end)
      (final (m s)) (events (m s)).
Proof.
  unfold bind, ret. destruct (out (m s)); cbn [out final events]; [|done].
  by rewrite app_nil_r.
Qed.

End RefreshFacts.

Section RefreshShape.
Context {W A B : Type} (m1 : M W A) (m2 : M W B).

(** The shape of [fetchWatchlists], for any two computations. *)
Lemma refresh_shape (s : State W) :
  let r1 := m1 s in
  let r2 := m2 (final r1) in
  let r :=
    (log info "Refreshing watchlists" ;;;
     try_catch
       (Promise_all [ (m1 ;;; ret tt); (m2 ;;; ret tt) ] ;;;
        log info "Watchlists refreshed successfully")
       (fun msg => log error "Error refreshing watchlists:" ;;; throw msg)) s in
  (forall e, e ∈ events r1 \/ e ∈ events r2 -> e ∈ events r)
  /\ (out r = Ok tt <-> (exists a, out r1 = Ok a) /\ (exists b, out r2 = Ok b))
  /\ (forall msg, out r = Throw msg ->
        (out r1 = Throw msg \/ out r2 = Throw msg)
        /\ last (events r) = Some (Log error "Error refreshing watchlists:" [])).
Proof.
  intros r1 r2 r. subst r.
  rewrite (bind_Ok _ _ _ tt) by done. cbn [out final events log log_with].
  set (t1 := bind m1 (fun _ => ret tt)).
  set (t2 := bind m2 (fun _ => ret tt)).
  assert (Hall : Promise_all [t1; t2] s
            = mkResult
                (match out r1, out r2 with
                 | Ok _, Ok _ => Ok [tt; tt]
                 | Throw msg, _ => Throw msg
                 | Ok _, Throw msg => Throw msg
                 end)
                (final r2) (events r1 ++ events r2)).
  { unfold Promise_all. rewrite (bind_Ok _ _ _ _ (f_equal out (run_all_pair t1 t2 s))).
    rewrite run_all_pair. unfold t1, t2. rewrite !bind_ret_tt. cbn [out final events].
    fold r1. fold r2.
    destruct (out r1), (out r2); cbn [first_rejection out final events ret throw];
      by rewrite app_nil_r. }
  unfold try_catch.
  destruct (out r1) as [a|e1] eqn:H1; destruct (out r2) as [b|e2] eqn:H2.
  - rewrite (bind_Ok _ _ _ [tt; tt]) by (by rewrite Hall). rewrite Hall.
    cbn [out final events log log_with]. split; [|split].
    + intros e He. apply elem_of_cons. right.
      rewrite !elem_of_app. tauto.
    + split; [eauto | done].
    + done.
  - rewrite (bind_Throw _ _ _ e2) by (by rewrite Hall). rewrite Hall.
    cbn [out final events]. rewrite (bind_Ok _ _ _ tt) by done.
    cbn [out final events log log_with throw]. split; [|split].
    + intros e He. apply elem_of_cons. right.
      rewrite !elem_of_app. tauto.
    + split; [done | by intros [_ [b ?]]].
    + intros msg [= <-]. split; [by right|].
      by rewrite app_nil_r, !app_assoc, last_snoc.
  - rewrite (bind_Throw _ _ _ e1) by (by rewrite Hall). rewrite Hall.
    cbn [out final events]. rewrite (bind_Ok _ _ _ tt) by done.
    cbn [out final events log log_with throw]. split; [|split].
    + intros e He. apply elem_of_cons. right.
      rewrite !elem_of_app. tauto.
    + split; [done | by intros [[a ?] _]].
    + intros msg [= <-]. split; [by left|].
      by rewrite app_nil_r, !app_assoc, last_snoc.
  - rewrite (bind_Throw _ _ _ e1) by (by rewrite Hall). rewrite Hall.
    cbn [out final events]. rewrite (bind_Ok _ _ _ tt) by done.
    cbn [out final events log log_with throw]. split; [|split].
    + intros e He. apply elem_of_cons. right.
      rewrite !elem_of_app. tauto.
    + split; [done | by intros [[a ?] _]].
    + intros msg [= <-]. split; [by left|].
      by rewrite app_nil_r, !app_assoc, last_snoc.
Qed.

End RefreshShape.


(** ** Progress events *)

(** X22. [processAndSaveNewItems] reports progress only to a listener:
    it emits an event (and hands [processWatchlistItems] the progress
    sink) only when [hasActiveConnections] answered [true] at its start.
    The events it emits are of the phases [start], [saving] and
    [complete], and their type is decided by the first identity that
    has new items: [self-watchlist] when its user name starts with
    [token], [others-watchlist] otherwise. *)
Theorem X22_progress_only_to_listeners {W} (C : Collab W)
    (brandNew : list (Friend * list Token.t)) (s : State W) :
  let r := processAndSaveNewItems C brandNew s in
  let listening := (progress_hasActiveConnections C (world s)).1 in
  (forall p, ProgressEmit p ∈ events r ->
     listening = true
     /\ (phase p = "start" \/ phase p = "saving" \/ phase p = "complete")
     /\ exists firstUser items rest,
          brandNew = (firstUser, items) :: rest
          /\ progress_type p
             = if String.prefix "token" (username firstUser)
               then "self-watchlist" else "others-watchlist")
  /\ (forall m info, CallProcessWatchlistItems m info ∈ events r ->
        m = brandNew /\ (info <> None <-> listening = true)).
Proof.
  intros r listening. subst r.
  destruct brandNew as [|[firstUser items0] rest].
  { split; [intros p Hin | intros m info Hin]; no_event Hin. }
  set (brandNew := (firstUser, items0) :: rest).
  assert (Hlisten : forall b s0 s1,
            out (call ProgressHasActiveConnections
                   (fun w => let '(b, w') := progress_hasActiveConnections C w in
                             (Ok b, w')) s1) = Ok b ->
            world s1 = world s0 -> b = (progress_hasActiveConnections C (world s0)).1).
  { intros b s0 s1 Hout <-. unfold call in Hout.
    destruct (progress_hasActiveConnections C (world s1)). by injection Hout as <-. }
  split.
  - intros p Hin. unfold processAndSaveNewItems in Hin. fold brandNew in Hin.
    in_bind Hin u Hu; [no_event Hin|]. clear Hu u.
    in_bind Hin t Ht; [no_event Hin|]. injection Ht as <-.
    in_bind Hin emitProgress Hemit.
    { unfold call in Hin. destruct (progress_hasActiveConnections C _). no_event Hin. }
    apply (Hlisten _ s) in Hemit; [|done]. fold listening in Hemit. subst emitProgress.
    assert (Hwhen : forall p0 s0,
              ProgressEmit p ∈ events (when listening (emit C p0) s0) ->
              listening = true /\ p = p0).
    { intros p0 s0 [-> Hp]%in_events_when. split; [done|].
      unfold emit in Hp. apply in_events_call in Hp. by injection Hp. }
    in_bind Hin u Hu.
    { apply Hwhen in Hin as [-> ->]. split; [done|]. split; [by left|].
      by exists firstUser, items0, rest. }
    clear Hu u.
    in_bind Hin processedItems Hproc.
    { unfold call in Hin. destruct (ext_processWatchlistItems C _ _ _). no_event Hin. }
    destruct processedItems as [processed|]; [|no_event Hin].
    in_bind Hin itemsToInsert Hprep; [no_event Hin|].
    in_bind Hin u Hu; [|no_event Hin].
    destruct (0 <? len itemsToInsert); [|no_event Hin].
    in_bind Hin u1 Hu1.
    { apply Hwhen in Hin as [-> ->]. split; [done|]. split; [by right; left|].
      by exists firstUser, items0, rest. }
    in_bind Hin u2 Hu2; [by apply in_events_call in Hin|].
    in_bind Hin u3 Hu3; [by apply in_events_call in Hin|].
    in_bind Hin u4 Hu4; [by apply list_elem_of_singleton in Hin|].
    apply Hwhen in Hin as [-> ->]. split; [done|]. split; [by right; right|].
    by exists firstUser, items0, rest.
  - intros m info Hin. unfold processAndSaveNewItems in Hin. fold brandNew in Hin.
    in_bind Hin u Hu; [no_event Hin|]. clear Hu u.
    in_bind Hin t Ht; [no_event Hin|]. injection Ht as <-.
    in_bind Hin emitProgress Hemit.
    { unfold call in Hin. destruct (progress_hasActiveConnections C _). no_event Hin. }
    apply (Hlisten _ s) in Hemit; [|done]. fold listening in Hemit. subst emitProgress.
    in_bind Hin u Hu.
    { apply in_events_when in Hin as [_ Hin]. unfold emit in Hin.
      by apply in_events_call in Hin. }
    clear Hu u.
    in_bind Hin processedItems Hproc.
    { apply in_events_call in Hin. injection Hin as -> ->. split; [done|].
      destruct listening; split; done. }
    destruct processedItems as [processed|]; [|no_event Hin].
    in_bind Hin itemsToInsert Hprep; [no_event Hin|].
    in_bind Hin u Hu; [|no_event Hin].
    destruct (0 <? len itemsToInsert); [|no_event Hin].
    in_bind Hin u1 Hu1.
    { apply in_events_when in Hin as [_ Hin]. unfold emit in Hin.
      by apply in_events_call in Hin. }
    in_bind Hin u2 Hu2; [by apply in_events_call in Hin|].
    in_bind Hin u3 Hu3; [by apply in_events_call in Hin|].
    in_bind Hin u4 Hu4; [by apply list_elem_of_singleton in Hin|].
    apply in_events_when in Hin as [_ Hin]. unfold emit in Hin.
    by apply in_events_call in Hin.
Qed.

(** ** The rows written *)

Section RowFacts.
Context {W : Type} (C : Collab W).

Lemma prepare_items_fold user (items : list Item.t) (acc : list Item.t * nat) :
  let r := fold_left (prepare_item C user) items acc in
  exists rows,
    r = (acc.1 ++ rows, (acc.2 + 2 * length rows)%nat)
    /\ Forall2 (fun row item =>
                  Item.user_id row = Some (userId user)
                  /\ Item.title row = Item.title item
                  /\ Item.key row = Item.key item
                  /\ Item.type row = Item.type item
                  /\ Item.thumb row = Item.thumb item
                  /\ Item.guids row = Some (or_empty (Item.guids item))
                  /\ Item.genres row = Some (or_empty (Item.genres item))
                  /\ Item.status row = Some pending)
         rows items.
Proof.
  revert acc. induction items as [|item items IH]; intros acc; cbn [fold_left].
  - exists []. split; [|constructor]. rewrite app_nil_r. simpl.
    rewrite Nat.add_0_r. by destruct acc.
  - destruct (IH (prepare_item C user acc item)) as (rows & Hr & Hall).
    eexists (_ :: rows). split.
    + rewrite Hr. unfold prepare_item at 1 2. cbn [fst snd].
      rewrite <- app_assoc. f_equal. simpl. lia.
    + constructor; [|done]. by repeat split.
Qed.

End RowFacts.

(** X23. [prepareItemsForInsertion] makes one row for each processed
    item, in the order of the map and of its sets.  A row takes its
    user id from the identity under which the item was processed, and
    title, key, type and thumb from the item; its status is [pending],
    and its guids and genres are never [undefined] (a missing value or
    an empty string becomes the empty array).  Each row reads the clock
    twice. *)
Theorem X23_prepareItemsForInsertion {W} (C : Collab W) (now : nat)
    (processedItems : list (Friend * list Item.t)) :
  let r := prepareItemsForInsertion C now processedItems in
  Forall2 (fun row (p : Friend * Item.t) =>
             Item.user_id row = Some (userId p.1)
             /\ Item.title row = Item.title p.2
             /\ Item.key row = Item.key p.2
             /\ Item.type row = Item.type p.2
             /\ Item.thumb row = Item.thumb p.2
             /\ Item.guids row = Some (or_empty (Item.guids p.2))
             /\ Item.genres row = Some (or_empty (Item.genres p.2))
             /\ Item.status row = Some pending)
    r.1 (concat (map (fun entry => map (pair entry.1) entry.2) processedItems))
  /\ r.2 = (now + 2 * length r.1)%nat.
Proof.
  intros r. subst r. unfold prepareItemsForInsertion.
  assert (H : forall acc : list Item.t * nat,
            let r := fold_left
                       (fun acc entry => fold_left (prepare_item C entry.1) entry.2 acc)
                       processedItems acc in
            exists rows,
              r = (acc.1 ++ rows, (acc.2 + 2 * length rows)%nat)
              /\ Forall2 (fun row (p : Friend * Item.t) =>
                            Item.user_id row = Some (userId p.1)
                            /\ Item.title row = Item.title p.2
                            /\ Item.key row = Item.key p.2
                            /\ Item.type row = Item.type p.2
                            /\ Item.thumb row = Item.thumb p.2
                            /\ Item.guids row = Some (or_empty (Item.guids p.2))
                            /\ Item.genres row = Some (or_empty (Item.genres p.2))
                            /\ Item.status row = Some pending)
                   rows
                   (concat (map (fun entry => map (pair entry.1) entry.2)
                              processedItems))).
  { induction processedItems as [|[user items] m IH]; intros acc; cbn [fold_left].
    - exists []. split; [|constructor]. rewrite app_nil_r. simpl.
      rewrite Nat.add_0_r. by destruct acc.
    - destruct (prepare_items_fold C user items acc) as (rows1 & Hr1 & Hall1).
      cbn [fst snd]. cbn zeta in Hr1. rewrite Hr1.
      destruct (IH (acc.1 ++ rows1, (acc.2 + 2 * length rows1)%nat))
        as (rows2 & Hr2 & Hall2).
      exists (rows1 ++ rows2). split.
      + cbn zeta in Hr2. rewrite Hr2. cbn [fst snd].
        rewrite <- app_assoc, length_app. f_equal. lia.
      + cbn [map concat]. apply Forall2_app; [|done].
        by apply Forall2_fmap_r. }
  destruct (H ([], now)) as (rows & Hr & Hall). cbn zeta in Hr. rewrite Hr.
  by split.
Qed.


(** ** The friends of a pass *)

Section FriendFacts.
Context {W : Type} (C : Collab W).

Lemma ensureFriendUsers_get friendList (s : State W) userMap pf tok :
  out (ensureFriendUsers C friendList s) = Ok userMap ->
  (pf, tok) ∈ friendList ->
  exists uid, JsMap.get userMap (friend_watchlistId pf) = Some uid /\ uid <> 0.
Proof.
  unfold ensureFriendUsers. intros Hout Hin.
  apply out_bind_Ok in Hout as (entries & Hentries & Hout). injection Hout as <-.
  match type of Hentries with context [map ?g _] => set (f := g) in * end.
  assert (Hlook : forall j e, friendList !! j = Some e ->
            exists s' uid, entries !! j = Some (friend_watchlistId e.1, uid)
                           /\ out (ensureUser C (friend_username e.1) s') = Ok uid).
  { intros j e Hj.
    destruct (Promise_all_lookup (map f friendList) s entries j (f e) Hentries)
      as (s' & a & Ha & Htask).
    { by rewrite list_lookup_fmap, Hj. }
    unfold f in Htask. apply out_bind_Ok in Htask as (uid & Huid & Htask).
    injection Htask as <-. by exists s', uid. }
  assert (Hnz : forall k v, (k, v) ∈ entries -> v <> 0).
  { intros k v Hkv. apply list_elem_of_lookup in Hkv as (j & Hj).
    pose proof (Promise_all_length _ _ _ Hentries) as Hlen.
    rewrite length_map in Hlen.
    destruct (friendList !! j) as [e|] eqn:He.
    - destruct (Hlook j e He) as (s' & uid & Hj' & Huid).
      rewrite Hj in Hj'. injection Hj' as _ ->.
      by apply ensureUser_nonzero in Huid.
    - apply lookup_ge_None in He. apply lookup_lt_Some in Hj. lia. }
  apply list_elem_of_lookup in Hin as (i & Hi).
  destruct (Hlook i _ Hi) as (s' & uid & Hentry & _). cbn [fst] in Hentry.
  destruct (set_all_get entries (friend_watchlistId pf)) as (v & Hget & Hv).
  { apply list_elem_of_fmap. exists (friend_watchlistId pf, uid).
    split; [done|]. by eapply list_elem_of_lookup_2. }
  exists v. split; [done|]. by eapply Hnz.
Qed.

(** The friends with their ids: none is left out when each has one. *)
Lemma friendsWithIds_all (userMap : list (string * Z))
    (friendList : list (PlexFriend * string)) (acc : list (Friend * string))
    (s : State W) :
  (forall pf tok, (pf, tok) ∈ friendList ->
     exists uid, JsMap.get userMap (friend_watchlistId pf) = Some uid /\ uid <> 0) ->
  foldM
    (fun (acc : list (Friend * string)) (entry : PlexFriend * string) =>
       let uid := JsMap.get userMap (friend_watchlistId entry.1) in
       if negb (truthy_num uid) then
         log warn ("No user ID found for friend with watchlist ID: "
                   +:+ friend_watchlistId entry.1) ;;;
         ret acc
       else
         ret (acc ++ [(mkFriend (friend_watchlistId entry.1)
                         (friend_username entry.1) (default 0 uid), entry.2)]))
    friendList acc s
  = mkResult
      (Ok (acc ++ map (fun entry : PlexFriend * string =>
                         (mkFriend (friend_watchlistId entry.1)
                            (friend_username entry.1)
                            (default 0 (JsMap.get userMap (friend_watchlistId entry.1))),
                          entry.2))
                    friendList))
      s [].
Proof.
  revert acc. induction friendList as [|[pf tok] l IH]; intros acc Hall; cbn [foldM].
  - by rewrite app_nil_r.
  - destruct (Hall pf tok) as (uid & Hget & Hnz); [by left|].
    cbn [fst snd]. rewrite Hget. cbn [truthy_num default from_option id].
    apply Z.eqb_neq in Hnz. rewrite Hnz. cbn [negb].
    rewrite (bind_unit _ _ _ _ eq_refl).
    rewrite IH by (intros; eapply Hall; by right).
    cbn [map fst snd]. rewrite Hget. by rewrite <- app_assoc.
Qed.

End FriendFacts.

(** X25. [getOthersWatchlists] leaves no friend out for want of a user:
    the list it hands to [getOthersWatchlist] has one entry for each
    friend the Plex client listed, in the same order and with the same
    token, under the friend's watchlist id and user name, and with a
    user id that is not [0]. *)
Theorem X25_every_friend_is_fetched {W} (C : Collab W) (s : State W)
    (withIds : list (Friend * string)) :
  CallGetOthersWatchlist withIds ∈ events (collectOthers C s) ->
  exists friendList w,
    ext_getFriends C (world s) = (Ok friendList, w)
    /\ Forall2 (fun (e : Friend * string) (f : PlexFriend * string) =>
                  watchlistId e.1 = friend_watchlistId f.1
                  /\ username e.1 = friend_username f.1
                  /\ userId e.1 <> 0
                  /\ e.2 = f.2)
         withIds friendList.
Proof.
  unfold collectOthers. intros Hin.
  in_bind Hin friendList Hfriends; [by apply in_events_call in Hin|].
  unfold call in Hfriends, Hin.
  destruct (ext_getFriends C (world s)) as [o w]. cbn [out final] in Hfriends, Hin.
  subst o. exists friendList, w. split; [done|].
  in_bind Hin userMap Hmap.
  { unfold ensureFriendUsers in Hin.
    in_bind Hin entries Hentries; [|no_event Hin].
    apply in_events_Promise_all in Hin as (task & s' & Htask & Hin).
    apply list_elem_of_fmap in Htask as (entry & -> & _).
    in_bind Hin uid Huid; [|no_event Hin].
    by apply ensureUser_events in Hin as [?|?]. }
  assert (Hall : forall pf tok, (pf, tok) ∈ friendList ->
            exists uid, JsMap.get userMap (friend_watchlistId pf) = Some uid /\ uid <> 0).
  { intros pf tok Hpf. by eapply ensureFriendUsers_get. }
  rewrite (bind_unit _ _ _ _ (friendsWithIds_all userMap friendList [] _ Hall)) in Hin.
  apply in_events_call in Hin. injection Hin as ->. cbn [app].
  apply Forall2_fmap_l, Forall_Forall2_diag, Forall_forall.
  intros [pf tok] Hpf. unfold compose. cbn [fst snd watchlistId username userId].
  destruct (Hall pf tok Hpf) as (uid & -> & Hnz). by repeat split.
Qed.

Lemma X25_every_friend_is_fetched_witness :
  let st := sample_state (mkSampleWorld [] [] false) in
  exists friendList w,
    ext_getFriends sample_collab_friend (world st) = (Ok friendList, w)
    /\ Forall2 (fun (e : Friend * string) (f : PlexFriend * string) =>
                  watchlistId e.1 = friend_watchlistId f.1
                  /\ username e.1 = friend_username f.1
                  /\ userId e.1 <> 0
                  /\ e.2 = f.2)
         [(mkFriend "w9" "ann" 1, "t1")] friendList.
Proof.
  intros st.
  apply (X25_every_friend_is_fetched sample_collab_friend st).
  vm_compute. repeat (first [by left | right]).
Defined.

(** The friends sync on a friend who has one stored row and one new
    item: the stored row is in the response twice, and counted twice. *)
Example getOthersWatchlists_lists_stored_row_twice :
  let r := getOthersWatchlists sample_collab_friend one_token
             (sample_state (mkSampleWorld [row_dune] [] false)) in
  exists response,
    out r = Ok response
    /\ total response = 3
    /\ map (fun g => map View.title (watchlist g)) (users response)
       = [["Dune"; "Solaris"; "Dune"]].
Proof. eexists. by repeat split. Qed.

(** The self sync lists it once. *)
Example getSelfWatchlist_lists_stored_row_once :
  let C := sample_collab in
  let processed := [(token1, [Token.item raw_solaris])] in
  let allItemsMap :=
    fold_left (fun m entry => add_items m entry.1 entry.2) processed
      (fold_left (add_existing [token1]) [row_dune] []) in
  exists response,
    buildResponse C [(token1, [raw_dune "k1"; raw_solaris])] [row_dune] [] processed
    = Ok response
    /\ total response = 2
    /\ map (fun g => map View.title (watchlist g)) (users response)
       = [["Dune"; "Solaris"]]
    /\ allItemsMap = [(token1, [row_dune; Token.item raw_solaris])].
Proof. eexists. by repeat split. Qed.

(** ** The identities of a self sync *)

(** X26. The identities that [getSelfWatchlist] collects are those of
    the configured tokens whose fetch brought at least one item: each
    is named after the position of its token ([token1], [token2], ...),
    has a user id that is not [0], and has a non-empty set of items.  A
    token whose watchlist came back empty has no identity in the pass. *)
Theorem X26_collectSelf_identities {W} (C : Collab W) (config : Config)
    (s : State W) (userWatchlistMap : list (Friend * list Token.t))
    (user : Friend) (items : list Token.t) :
  out (collectSelf C config s) = Ok userWatchlistMap ->
  (user, items) ∈ userWatchlistMap ->
  items <> []
  /\ userId user <> 0
  /\ exists i token s',
       plexTokens config !! i = Some token
       /\ watchlistId user = "token" +:+ pretty (S i)
       /\ username user = "token" +:+ pretty (S i)
       /\ (ext_fetchSelfWatchlist C token (userId user) (world s')).1 = Ok items.
Proof.
  unfold collectSelf. intros Hout Hin.
  apply out_bind_Ok in Hout as (userMap & Hmap & Hout).
  apply out_bind_Ok in Hout as (collected & Hcol & Hout). injection Hout as <-.
  apply list_elem_of_omap in Hin as (o & Ho & ->). cbn in Ho.
  apply list_elem_of_lookup in Ho as (i & Hi).
  pose proof (Promise_all_length _ _ _ Hcol) as Hlen. rewrite length_imap in Hlen.
  destruct (plexTokens config !! i) as [token|] eqn:Htok.
  2: { apply lookup_ge_None in Htok. apply lookup_lt_Some in Hi. lia. }
  destruct (Promise_all_lookup _ _ _ i (collectToken C userMap i token) Hcol)
    as (s' & a & Ha & Htask).
  { by rewrite list_lookup_imap, Htok. }
  rewrite Hi in Ha. injection Ha as <-.
  unfold collectToken in Htask.
  destruct (truthy_num (JsMap.get userMap ("token" +:+ pretty (S i)))) eqn:Hid;
    cbn [negb] in Htask.
  2: { apply out_bind_Ok in Htask as (u & _ & Htask). by injection Htask. }
  apply out_bind_Ok in Htask as (fetched & Hfetch & Htask).
  destruct (0 <? len fetched) eqn:Hpos; [|by injection Htask].
  injection Htask as <- <-. cbn [userId watchlistId username].
  split; [by intros ->|]. split.
  - destruct (JsMap.get userMap _) as [z|]; [|done]. cbn in Hid |- *.
    by apply negb_true_iff, Z.eqb_neq in Hid.
  - exists i, token, s'. split; [done|]. split; [done|]. split; [done|].
    unfold call in Hfetch.
    by destruct (ext_fetchSelfWatchlist C token _ (world s')).
Qed.

Lemma X26_collectSelf_identities_witness :
  let st := sample_state (mkSampleWorld [] [] false) in
  [raw_solaris] <> []
  /\ userId token1 <> 0
  /\ exists i token s',
       plexTokens one_token !! i = Some token
       /\ watchlistId token1 = "token" +:+ pretty (S i)
       /\ username token1 = "token" +:+ pretty (S i)
       /\ (ext_fetchSelfWatchlist sample_collab_friend token (userId token1)
             (world s')).1 = Ok [raw_solaris].
Proof.
  intros st.
  apply (X26_collectSelf_identities sample_collab_friend one_token st
           [(token1, [raw_solaris])] token1 [raw_solaris]).
  - reflexivity.
  - by left.
Defined.

(** ** What the friends sync lists twice *)

Lemma find_identity (identities : list Friend) (user : Friend) (item : Item.t) :
  NoDup (map userId identities) -> user ∈ identities ->
  find (fun u => bool_decide (Some (userId u) = Item.user_id item)) identities
  = Some user
  <-> Item.user_id item = Some (userId user).
Proof.
  intros Hnd Hin. split.
  - intros Hfind. apply find_some in Hfind as [_ Hp].
    by apply bool_decide_eq_true in Hp.
  - intros Hrow.
    destruct (find _ identities) as [u|] eqn:Hfind.
    + apply find_some in Hfind as [Hu Hp]. apply bool_decide_eq_true in Hp.
      apply list_elem_of_In in Hu. f_equal.
      assert (E : userId u = userId user) by congruence.
      apply list_elem_of_lookup in Hu as (i & Hi).
      apply list_elem_of_lookup in Hin as (j & Hj).
      assert (i = j) as ->.
      { eapply NoDup_lookup; [exact Hnd|..].
        - by rewrite list_lookup_fmap, Hi.
        - rewrite list_lookup_fmap, Hj. simpl. by rewrite E. }
      congruence.
    + exfalso. eapply find_none in Hfind; [|by apply list_elem_of_In].
      by rewrite bool_decide_eq_true_2 in Hfind.
Qed.

(** X27. What the shared sets do to the response of
    [getOthersWatchlists].  When the identities of the pass have
    distinct user ids, an identity for which rows were processed has
    its stored rows in its watchlist twice: the watchlist has one entry
    for each row processed for it, one for each row linked for it, and
    two for each stored row of its user id. *)
Theorem X27_others_sync_lists_stored_rows_twice {W} (C : Collab W)
    (userWatchlistMap : list (Friend * list Token.t)) (existingItems : list Item.t)
    (toLink processedItems : list (Friend * list Item.t))
    (user : Friend) (items : list Item.t) (r : Response) (g : WatchlistGroup) :
  NoDup (map userId (JsMap.keys userWatchlistMap)) ->
  NoDup (JsMap.keys processedItems) ->
  user ∈ JsMap.keys userWatchlistMap ->
  (user, items) ∈ processedItems ->
  let allItemsMap :=
    fold_left (add_existing (JsMap.keys userWatchlistMap)) existingItems
      (fold_left (fun m entry => JsMap.set m entry.1 entry.2) processedItems []) in
  buildResponse C userWatchlistMap existingItems toLink
    (shared_sets allItemsMap processedItems) = Ok r ->
  g ∈ users r -> group_user g = user ->
  len (watchlist g)
  = 2 * len (filter (fun item => Item.user_id item = Some (userId user)) existingItems)
    + len (default [] (JsMap.get toLink user))
    + len items.
Proof.
  intros Hids Hnd Huser Hentry allItemsMap Hbuild Hg Hgu.
  apply buildResponse_groups in Hbuild as [_ Hgroups].
  apply list_elem_of_lookup in Hg as (i & Hi).
  destruct (Forall2_lookup_r _ _ _ _ _ Hgroups Hi) as (u & _ & Hbuild).
  apply buildUserWatchlist_group in Hbuild as (Hu & Hlen & _).
  rewrite Hgu in Hu. subst u. rewrite Hlen.
  subst allItemsMap. rewrite shared_sets_rows by done.
  set (attributed := fun k : Friend =>
         filter (fun item =>
                   find (fun u => bool_decide (Some (userId u) = Item.user_id item))
                     (JsMap.keys userWatchlistMap) = Some k) existingItems).
  assert (Hget : JsMap.get
                   (map (fun entry : Friend * list Item.t =>
                           (entry.1, entry.2 ++ attributed entry.1)) processedItems)
                   user = Some (items ++ attributed user)).
  { apply get_of_NoDup.
    - unfold JsMap.keys in *. rewrite <- list_fmap_compose.
      by rewrite (list_fmap_ext _ fst processedItems) by done.
    - apply list_elem_of_fmap. by exists (user, items). }
  unfold attributed in Hget. rewrite Hget. cbn [default from_option id].
  assert (Hattr : filter (fun item =>
                     find (fun u => bool_decide (Some (userId u) = Item.user_id item))
                       (JsMap.keys userWatchlistMap) = Some user) existingItems
                  = filter (fun item => Item.user_id item = Some (userId user))
                      existingItems).
  { apply list_filter_iff. intros item. by apply find_identity. }
  rewrite Hattr. unfold len. rewrite length_app. lia.
Qed.

Lemma X27_others_sync_lists_stored_rows_twice_witness :
  let friend := mkFriend "w9" "ann" 1 in
  let g := mkWatchlistGroup friend
             [ {| View.title := "Dune"; View.plexKey := "k1"; View.type := "movie";
                  View.thumb := "dune.jpg"; View.guids := ["x:1"];
                  View.genres := ["Sci-Fi"]; View.status := pending |};
               {| View.title := "Solaris"; View.plexKey := "k9"; View.type := "movie";
                  View.thumb := ""; View.guids := ["x:9"];
                  View.genres := []; View.status := pending |};
               {| View.title := "Dune"; View.plexKey := "k1"; View.type := "movie";
                  View.thumb := "dune.jpg"; View.guids := ["x:1"];
                  View.genres := ["Sci-Fi"]; View.status := pending |} ] in
  len (watchlist g)
  = 2 * len (filter (fun item => Item.user_id item = Some (userId friend)) [row_dune])
    + len (default [] (JsMap.get ([] : list (Friend * list Item.t)) friend))
    + len [Token.item raw_solaris].
Proof.
  intros friend g.
  apply (X27_others_sync_lists_stored_rows_twice sample_collab
           [(friend, [raw_dune "k1"; raw_solaris])] [row_dune] []
           [(friend, [Token.item raw_solaris])] friend [Token.item raw_solaris]
           (mkResponse 3 [g]) g).
  - apply NoDup_singleton.
  - apply NoDup_singleton.
  - by left.
  - by left.
  - reflexivity.
  - by left.
  - reflexivity.
Defined.
